(** * utils-log: the scope-tracking diagnostics logger

    A shallow embedding of [utils::ScopeLogger] and of [utils::Log] from
    [ulogger.hpp], together with the properties of the diagnostics
    subsystem: the open-scope counter, the rotation of the diagnostics
    file, and the detection of a crash of the previous run from the tail of
    that file; and with those of the general log: what a statement prints
    and writes, and what happens when the file cannot be opened or moved.
    ([utils_log/logger.hpp] is the same code with configurable file names;
    the names here are the fixed ones.)

    Conventions of the embedding
    - [std::string] is [string], a byte per character.
    - [int] is [Z] with the 32-bit two's complement wrap-around written out
      ([std::atomic<int>] arithmetic wraps, it is never undefined).
    - The static members of a class are fields of the process state
      [World]; a member function is a computation [M A] that threads the
      process state and may raise a C++ exception.
    - [dateTime()] reads the wall clock: the string it returns is an
      argument [ts] of the operation that calls it.  In the same way the
      number [threadId()] returns is an argument [tid].
    - [Log] is the build without Qt and outside MSVC: the console is
      [std::cout].
    - Everything runs on one thread, so [std::scoped_lock] is the identity.

    The environment
    - The working directory either may be searched or may not.  One that
      may be searched is a finite map from names to regular files, plus a
      permission bit; a file is its content plus a permission bit.  As on
      POSIX, unlinking, renaming and creating an entry need a directory
      that may be written, and opening a file for appending needs a file
      that may be written.  In a directory that may not be searched no
      name can be reached: every look-up fails, nothing can be opened, and
      nothing can be changed.  Nothing but the process changes the
      directory, and the process does not change permissions.
    - Of [std::filesystem] the code calls the overloads that throw:
      [fs::exists] raises [filesystem_error] in a directory that may not be
      searched; [fs::remove] and [fs::rename] raise it when the directory
      may not be written.  In a directory that may be searched,
      [fs::exists] succeeds, [fs::file_size] of an existing regular file
      succeeds, and a file that exists can be read.
    - A write to a stream that is open and good succeeds. *)

From Stdlib Require Import ZArith String Ascii List Lia Bool DecimalString
  DecimalPos.
From stdpp Require Import gmap strings.

Local Open Scope string_scope.
Local Open Scope Z_scope.

(* stdpp freezes [String.append]; the formatting code below needs it to
   compute on literals. *)
#[local] Arguments String.append !s1 s2 : simpl nomatch.

(* ===================================================================== *)
(** * Strings and the standard-library functions the logger calls         *)
(* ===================================================================== *)

Definition NL : ascii := ascii_of_nat 10.
Definition BAR : ascii := "|"%char.
Definition nl : string := String NL EmptyString.

(** C++ exceptions that can reach the code of the logger. *)
Inductive exn : Type :=
| filesystem_error   (* std::filesystem::filesystem_error *)
| invalid_argument   (* std::invalid_argument *)
| out_of_range.      (* std::out_of_range *)

(** The result of an expression that may throw. *)
Inductive outcome (A : Type) : Type :=
| Val (a : A)
| Exc (e : exn).
Arguments Val {A} a.
Arguments Exc {A} e.

(** [getlines s]: the lines that successive calls of [std::getline] extract
    from a stream holding [s], up to the call that fails.  A call succeeds
    as soon as it extracts a character (the delimiter counts); at the end of
    the stream it extracts nothing and fails. *)
Fixpoint getlines (s : string) : list string :=
  match s with
  | EmptyString => []
  | String c s' =>
      if Ascii.eqb c NL then EmptyString :: getlines s'
      else match getlines s' with
           | [] => [String c EmptyString]
           | l :: ls => String c l :: ls
           end
  end.

(** [s.rfind(c)]: the last index of [c], [None] for [npos]. *)
Fixpoint rfind (c : ascii) (s : string) : option nat :=
  match s with
  | EmptyString => None
  | String a s' =>
      match rfind c s' with
      | Some i => Some (S i)
      | None => if Ascii.eqb a c then Some 0%nat else None
      end
  end.

Fixpoint string_drop (n : nat) (s : string) : string :=
  match n, s with
  | O, _ => s
  | S n', String _ s' => string_drop n' s'
  | S _, EmptyString => EmptyString
  end.

(** [s.substr(pos)]: throws [std::out_of_range] when [pos > s.size()]. *)
Definition substr (s : string) (pos : nat) : outcome string :=
  if (String.length s <? pos)%nat then Exc out_of_range
  else Val (string_drop pos s).

Definition INT_MIN : Z := - 2147483648.
Definition INT_MAX : Z := 2147483647.

(** Two's complement wrap-around of a 32-bit [int]. *)
Definition wrap_int (z : Z) : Z := (z + 2147483648) mod 4294967296 - 2147483648.

Definition isspace (c : ascii) : bool :=
  let n := nat_of_ascii c in
  (n =? 32)%nat || ((9 <=? n)%nat && (n <=? 13)%nat).

Definition isdigit (c : ascii) : bool :=
  let n := nat_of_ascii c in (48 <=? n)%nat && (n <=? 57)%nat.

Definition digit_value (c : ascii) : Z := Z.of_nat (nat_of_ascii c) - 48.

Fixpoint skip_space (s : string) : string :=
  match s with
  | String c s' => if isspace c then skip_space s' else s
  | EmptyString => EmptyString
  end.

(** The longest prefix of decimal digits, read as a number on top of [acc];
    [None] when no digit has been read yet. *)
Fixpoint read_digits (s : string) (acc : option Z) : option Z :=
  match s with
  | String c s' =>
      if isdigit c
      then read_digits s' (Some (10 * default 0 acc + digit_value c))
      else acc
  | EmptyString => acc
  end.

(** [std::stoi(s)] (base 10): skips leading white space, reads an optional
    sign and the longest run of digits; trailing characters are ignored.
    Throws [std::invalid_argument] when there is no digit, and
    [std::out_of_range] when the value does not fit an [int]. *)
Definition stoi (s : string) : outcome Z :=
  let s1 := skip_space s in
  let '(neg, s2) :=
    match s1 with
    | String "-"%char r => (true, r)
    | String "+"%char r => (false, r)
    | _ => (false, s1)
    end in
  match read_digits s2 None with
  | None => Exc invalid_argument
  | Some v =>
      let n := if neg : bool then - v else v in
      if (INT_MIN <=? n) && (n <=? INT_MAX) then Val n else Exc out_of_range
  end.

(** [std::to_string(int)] / the [{}] of [std::format] on an [int]. *)
Definition to_string (n : Z) : string := NilZero.string_of_int (Z.to_int n).

(* ===================================================================== *)
(** * The file system and output streams                                  *)
(* ===================================================================== *)

Record file : Type := File { content : string; writable : bool }.

(** The working directory, as the process can use it.  In a directory that
    may be searched the process reaches the regular files [entries], and
    [dir_writable] tells whether it may create, remove and rename entries.
    In a directory that may not be searched no name can be reached,
    whatever the directory holds, and nothing can be changed. *)
Inductive filesystem : Type :=
| FS (en : gmap string file) (dw : bool)
| Unsearchable.

Definition entries (d : filesystem) : gmap string file :=
  match d with
  | FS en _ => en
  | Unsearchable => ∅
  end.

Definition dir_writable (d : filesystem) : bool :=
  match d with
  | FS _ dw => dw
  | Unsearchable => false
  end.

(** A name can be looked up in the directory ([stat] does not fail). *)
Definition searchable (d : filesystem) : bool :=
  match d with
  | FS _ _ => true
  | Unsearchable => false
  end.

(** The directory with its files changed by [g]. *)
Definition map_entries (g : gmap string file -> gmap string file)
           (d : filesystem) : filesystem :=
  match d with
  | FS en dw => FS (g en) dw
  | Unsearchable => Unsearchable
  end.

(** A [std::ofstream]: the file it is associated with, and whether
    [failbit] or [badbit] is set ([good()] is the negation). *)
Record ofstream : Type := OFStream { opened : option string; failed : bool }.

Definition closed_stream : ofstream := OFStream None false.
Definition is_open (s : ofstream) : bool :=
  match opened s with Some _ => true | None => false end.
Definition good (s : ofstream) : bool := negb (failed s).

(** [s.open(p, std::ios::app)].  Opening a stream that is already open
    fails; so does opening a file that may not be written, or creating one
    in a directory that may not be written.  A failure sets [failbit] and
    leaves the association alone, a success clears the state. *)
Definition ofstream_open (p : string) (d : filesystem) (s : ofstream)
  : filesystem * ofstream :=
  if is_open s then (d, OFStream (opened s) true)
  else match entries d !! p with
       | Some f =>
           if writable f then (d, OFStream (Some p) false)
           else (d, OFStream None true)
       | None =>
           if dir_writable d
           then (FS (<[p := File EmptyString true]> (entries d)) (dir_writable d),
                 OFStream (Some p) false)
           else (d, OFStream None true)
       end.

Definition append_to (text : string) (f : file) : file :=
  File (content f ++ text) (writable f).

(** [s << text; s.flush()].  Nothing happens on a stream that is not good;
    a good stream without a file goes bad.  The returned flag tells whether
    the text reached the file. *)
Definition ofstream_write (text : string) (d : filesystem) (s : ofstream)
  : filesystem * ofstream * bool :=
  if failed s then (d, s, false)
  else match opened s with
       | Some p => (map_entries (alter (append_to text) p) d, s, true)
       | None => (d, OFStream None true, false)
       end.

(** Calls of [std::filesystem] and stream openings, in program order. *)
Inductive fs_call : Type :=
| CallExists (p : string)
| CallFileSize (p : string)
| CallRemove (p : string)
| CallRename (src dst : string)
| CallOpenAppend (p : string)
| CallOpenRead (p : string).

(* ===================================================================== *)
(** * The process state and the monad of member functions                 *)
(* ===================================================================== *)

(** The static members of [ScopeLogger]. *)
Record ScopeStatics : Type := MkScopeStatics {
  count_ : Z;                  (* std::atomic<int> count_{0} *)
  fout_ : ofstream;
  initialized_ : bool;
  crashedLastTime_ : bool;
  crashChecked_ : bool
}.

(** The static members of [Log] that its file sink uses. *)
Record LogStatics : Type := MkLogStatics {
  log_fout_ : ofstream;
  log_initialized_ : bool
}.

(** The state of the process and of its directory.  [written] and [calls]
    are ghost fields: the texts that reached the diagnostics file through
    [ScopeLogger::fout_], oldest first, and the file-system calls made. *)
Record World : Type := MkWorld {
  fs : filesystem;
  scope : ScopeStatics;
  logst : LogStatics;
  written : list string;
  calls : list fs_call
}.

Definition M (A : Type) : Type := World -> outcome A * World.

Definition ret {A} (a : A) : M A := fun w => (Val a, w).
Definition bind {A B} (m : M A) (k : A -> M B) : M B :=
  fun w => match m w with
           | (Val a, w') => k a w'
           | (Exc e, w') => (Exc e, w')
           end.

Declare Scope cpp_scope.
Delimit Scope cpp_scope with cpp.
Notation "x <- m ;; k" := (bind m (fun x => k))
  (at level 100, m at next level, right associativity) : cpp_scope.
Notation "m ;; k" := (bind m (fun _ => k))
  (at level 100, right associativity) : cpp_scope.
Local Open Scope cpp_scope.

Definition with_fs (d : filesystem) (w : World) : World :=
  MkWorld d (scope w) (logst w) (written w) (calls w).
Definition with_scope (s : ScopeStatics) (w : World) : World :=
  MkWorld (fs w) s (logst w) (written w) (calls w).
Definition with_logst (s : LogStatics) (w : World) : World :=
  MkWorld (fs w) (scope w) s (written w) (calls w).
Definition note_written (text : string) (w : World) : World :=
  MkWorld (fs w) (scope w) (logst w) (written w ++ [text]) (calls w).
Definition note_call (c : fs_call) (w : World) : World :=
  MkWorld (fs w) (scope w) (logst w) (written w) (calls w ++ [c]).

(** ** [std::filesystem] (the overloads that throw) *)

Definition has_file (d : filesystem) (p : string) : bool :=
  match entries d !! p with Some _ => true | None => false end.

(** [fs::exists(p)]: throws when the status of [p] cannot be had, which is
    the case in a directory that may not be searched. *)
Definition fs_exists (p : string) : M bool :=
  fun w =>
    (if searchable (fs w) then Val (has_file (fs w) p) else Exc filesystem_error,
     note_call (CallExists p) w).

Definition fs_file_size (p : string) : M Z :=
  fun w =>
    (match entries (fs w) !! p with
     | Some f => Val (Z.of_nat (String.length (content f)))
     | None => Exc filesystem_error
     end, note_call (CallFileSize p) w).

(** [fs::remove(p)]: [false] when there is nothing to remove; throws when
    the entry may not be unlinked. *)
Definition fs_remove (p : string) : M bool :=
  fun w =>
    let w1 := note_call (CallRemove p) w in
    match entries (fs w) !! p with
    | None => (if searchable (fs w) then Val false else Exc filesystem_error, w1)
    | Some _ =>
        if dir_writable (fs w)
        then (Val true, with_fs (FS (delete p (entries (fs w))) (dir_writable (fs w))) w1)
        else (Exc filesystem_error, w1)
    end.

(** [fs::rename(src, dst)]: replaces [dst]; throws when [src] is missing or
    the directory may not be changed. *)
Definition fs_rename (src dst : string) : M unit :=
  fun w =>
    let w1 := note_call (CallRename src dst) w in
    match entries (fs w) !! src with
    | None => (Exc filesystem_error, w1)
    | Some f =>
        if dir_writable (fs w)
        then (Val tt, with_fs (FS (<[dst := f]> (delete src (entries (fs w))))
                                  (dir_writable (fs w))) w1)
        else (Exc filesystem_error, w1)
    end.

(** The timestamp-free text of one diagnostics record is fixed by
    ["[{}] {}:{} {} |{}\n"]. *)
Definition format_record (ts label phase src : string) (n : Z) : string :=
  "[" ++ ts ++ "] " ++ label ++ ":" ++ phase ++ " " ++ src ++ " |"
      ++ to_string n ++ nl.

Definition crash_marker : string := "## CRASH POINT ##" ++ nl.

(* ===================================================================== *)
(** * class Log: the file sink                                            *)
(* ===================================================================== *)

Module Log.

Definition fileName : string := "output.log".

Definition rotateIfTooLarge (fname : string) (maxSize : Z) : M unit :=
  e <- fs_exists fname ;;
  if e : bool then
    sz <- fs_file_size fname ;;
    if sz >? maxSize then
      let backup := fname ++ ".old" in
      eb <- fs_exists backup ;;
      (if eb : bool then (_ <- fs_remove backup ;; ret tt) else ret tt) ;;
      fs_rename fname backup
    else ret tt
  else ret tt.

Definition fout_open (p : string) : M unit :=
  fun w =>
    let '(d, s) := ofstream_open p (fs w) (log_fout_ (logst w)) in
    (Val tt,
     note_call (CallOpenAppend p)
       (with_logst (MkLogStatics s (log_initialized_ (logst w))) (with_fs d w))).

Definition set_initialized (b : bool) : M unit :=
  fun w => (Val tt, with_logst (MkLogStatics (log_fout_ (logst w)) b) w).

Definition ensureFileOpen : M unit :=
  fun w =>
    if negb (log_initialized_ (logst w)) then
      (let fname := fileName in
       rotateIfTooLarge fname (5 * 1024 * 1024) ;;
       fout_open fname ;;
       set_initialized true) w
    else if negb (is_open (log_fout_ (logst w))) then
      fout_open fileName w
    else (Val tt, w).

End Log.

(* ===================================================================== *)
(** * class ScopeLogger (diagnostics.log)                                 *)
(* ===================================================================== *)

Record ScopeLogger : Type := MkScopeLogger {
  func_ : string;
  file_ : string;
  line_ : Z
}.

Module Scope.

Definition fileName : string := "diagnostics.log".

(** *** Access to the static members *)

Definition get {A} (proj : ScopeStatics -> A) : M A :=
  fun w => (Val (proj (scope w)), w).

Definition set_count (n : Z) : M unit :=
  fun w => let s := scope w in
    (Val tt, with_scope (MkScopeStatics n (fout_ s) (initialized_ s)
                           (crashedLastTime_ s) (crashChecked_ s)) w).
Definition set_initialized (b : bool) : M unit :=
  fun w => let s := scope w in
    (Val tt, with_scope (MkScopeStatics (count_ s) (fout_ s) b
                           (crashedLastTime_ s) (crashChecked_ s)) w).
Definition set_crashedLastTime (b : bool) : M unit :=
  fun w => let s := scope w in
    (Val tt, with_scope (MkScopeStatics (count_ s) (fout_ s) (initialized_ s)
                           b (crashChecked_ s)) w).
Definition set_crashChecked (b : bool) : M unit :=
  fun w => let s := scope w in
    (Val tt, with_scope (MkScopeStatics (count_ s) (fout_ s) (initialized_ s)
                           (crashedLastTime_ s) b) w).
Definition with_fout (f : ofstream) (w : World) : World :=
  let s := scope w in
  with_scope (MkScopeStatics (count_ s) f (initialized_ s)
                (crashedLastTime_ s) (crashChecked_ s)) w.

(** [fout_.open(p, std::ios::app)] *)
Definition fout_open (p : string) : M unit :=
  fun w =>
    let '(d, s) := ofstream_open p (fs w) (fout_ (scope w)) in
    (Val tt, note_call (CallOpenAppend p) (with_fout s (with_fs d w))).

(** [fout_ << text; fout_.flush()] *)
Definition fout_write (text : string) : M unit :=
  fun w =>
    let '(d, s, done) := ofstream_write text (fs w) (fout_ (scope w)) in
    let w1 := with_fout s (with_fs d w) in
    (Val tt, if done : bool then note_written text w1 else w1).

(** [count_++] and [count_--] on a [std::atomic<int>] *)
Definition count_incr : M unit := n <- get count_ ;; set_count (wrap_int (n + 1)).
Definition count_decr : M unit := n <- get count_ ;; set_count (wrap_int (n - 1)).

(** *** The private member functions *)

Definition rotateIfTooLarge (fname : string) (maxSize : Z) : M unit :=
  e <- fs_exists fname ;;
  if e : bool then
    sz <- fs_file_size fname ;;
    if maxSize <? sz then
      let backup := fname ++ ".old" in
      eb <- fs_exists backup ;;
      (if eb : bool then (_ <- fs_remove backup ;; ret tt) else ret tt) ;;
      fs_rename fname backup
    else ret tt
  else ret tt.

(** [while (std::getline(ifs, line)) last = line;] *)
Definition lastLine (fname : string) : M string :=
  fun w =>
    (Val match entries (fs w) !! fname with
         | None => EmptyString            (* !ifs.is_open() *)
         | Some f => fold_left (fun _ line => line) (getlines (content f)) EmptyString
         end,
     note_call (CallOpenRead fname) w).

Definition detectPreviousCrash : M bool :=
  checked <- get crashChecked_ ;;
  if checked : bool then get crashedLastTime_ else
  set_crashChecked true ;;
  let fname := fileName in
  e <- fs_exists fname ;;
  if negb e then ret false else
  line <- lastLine fname ;;
  match rfind BAR line with
  | None => ret false
  | Some pos =>
      (* try { ... } catch (...) { crashedLastTime_ = false; } *)
      match (match substr line (pos + 1) with
             | Val t => stoi t
             | Exc e => Exc e
             end) with
      | Val n => set_crashedLastTime (0 <? n)
      | Exc _ => set_crashedLastTime false
      end ;;
      get crashedLastTime_
  end.

Definition ensureFileOpen : M unit :=
  ini <- get initialized_ ;;
  if negb ini then
    let fname := fileName in
    rotateIfTooLarge fname (2 * 1024 * 1024) ;;
    fout_open fname ;;
    set_initialized true ;;
    crashed <- detectPreviousCrash ;;
    if crashed : bool then fout_write crash_marker else ret tt
  else
    o <- get (fun s => is_open (fout_ s)) ;;
    if negb o then fout_open fileName else ret tt.

Definition init : M unit := ensureFileOpen.

Definition log (self : ScopeLogger) (ts phase : string) : M unit :=
  ensureFileOpen ;;
  n <- get count_ ;;
  let msg := format_record ts (func_ self) phase (file_ self) n in
  g <- get (fun s => good (fout_ s)) ;;
  if g : bool then fout_write msg else ret tt.

(** *** The public interface *)

(** [ScopeLogger(func, file, line)] *)
Definition ctor (ts func file : string) (line : Z) : M ScopeLogger :=
  let self := MkScopeLogger func file line in
  init ;;
  log self ts "start..." ;;
  count_incr ;;
  ret self.

(** [ScopeLogger(func, name, file, line)] *)
Definition ctor_named (ts func name file : string) (line : Z) : M ScopeLogger :=
  let self := MkScopeLogger (func ++ ":" ++ name) file line in
  init ;;
  log self ts "start..." ;;
  count_incr ;;
  ret self.

(** [~ScopeLogger()] *)
Definition dtor (self : ScopeLogger) (ts : string) : M unit :=
  count_decr ;;
  log self ts "end!".

Definition here (self : ScopeLogger) (ts msg : string) : M unit :=
  log self ts msg.

End Scope.

(** The state of a process that has just started. *)
Definition boot (d : filesystem) : World :=
  MkWorld d (MkScopeStatics 0 closed_stream false false false)
            (MkLogStatics closed_stream false) [] [].

(* ===================================================================== *)
(** * Programs: nested scopes on one thread                               *)
(* ===================================================================== *)

(** What a thread does with the macros [LOG_START], [LOG_START1] and
    [LOG_HERE]; a scope ends when its block is left.  Each event carries the
    timestamp that [dateTime()] returns while it runs. *)
Inductive event : Type :=
| Enter (ts func file : string) (line : Z)
| EnterNamed (ts func name file : string) (line : Z)
| Annotate (ts msg : string)
| Leave (ts : string).

(** One event, on the stack of the live [_scopelog_] objects (innermost
    first).  [LOG_HERE] and the end of a block act on the innermost one. *)
Definition step (e : event) (stk : list ScopeLogger) : M (list ScopeLogger) :=
  match e with
  | Enter ts func file line =>
      self <- Scope.ctor ts func file line ;; ret (self :: stk)
  | EnterNamed ts func name file line =>
      self <- Scope.ctor_named ts func name file line ;; ret (self :: stk)
  | Annotate ts msg =>
      match stk with
      | self :: _ => Scope.here self ts msg ;; ret stk
      | [] => ret stk
      end
  | Leave ts =>
      match stk with
      | self :: rest => Scope.dtor self ts ;; ret rest
      | [] => ret stk
      end
  end.

(** A run stops at the first exception that escapes an operation. *)
Fixpoint run (tr : list event) (stk : list ScopeLogger) : M (list ScopeLogger) :=
  match tr with
  | [] => ret stk
  | e :: tr' => stk' <- step e stk ;; run tr' stk'
  end.

(** Proper nesting, from [depth] open scopes: nothing is annotated or left
    that has not been entered. *)
Fixpoint well_nested (tr : list event) (depth : nat) : bool :=
  match tr with
  | [] => true
  | Enter _ _ _ _ :: tr' | EnterNamed _ _ _ _ _ :: tr' => well_nested tr' (S depth)
  | Annotate _ _ :: tr' => (0 <? depth)%nat && well_nested tr' depth
  | Leave _ :: tr' =>
      match depth with
      | S d => well_nested tr' d
      | O => false
      end
  end.

(** The last line of a file, as the loop of [lastLine] leaves it in [last]. *)
Definition last_line (c : string) : string :=
  fold_left (fun _ line => line) (getlines c) EmptyString.

(** What the [try] block of [detectPreviousCrash] makes of the line read. *)
Definition line_says_crash (line : string) : bool :=
  match rfind BAR line with
  | None => false
  | Some pos =>
      match substr line (pos + 1) with
      | Val t => match stoi t with Val n => 0 <? n | Exc _ => false end
      | Exc _ => false
      end
  end.

(* ===================================================================== *)
(** * Notions used to state and prove the properties                      *)
(* ===================================================================== *)

(** ** Files and states *)

(** A string without a line feed is one line. *)
Fixpoint no_nl (s : string) : bool :=
  match s with
  | EmptyString => true
  | String c s' => negb (Ascii.eqb c NL) && no_nl s'
  end.

(** Opening the diagnostics file for appending would fail. *)
Definition cannot_open (d : filesystem) : Prop :=
  match entries d !! Scope.fileName with
  | Some f => writable f = false
  | None => dir_writable d = false
  end.

(** What an open may write ahead of the first record. *)
Definition marker_or_nothing (pre : list string) : Prop :=
  pre = [] \/ pre = [crash_marker].

(** The body shared by the two constructors. *)
Definition enter (self : ScopeLogger) (ts : string) : M ScopeLogger :=
  Scope.init ;; Scope.log self ts "start..." ;; Scope.count_incr ;; ret self.

(** The name [rotateIfTooLarge] gives to the backup of the diagnostics
    file. *)
Definition backupName : string := Scope.fileName ++ ".old".

(** [fs::file_size] of a file: the number of its bytes. *)
Definition file_size (f : file) : Z := Z.of_nat (String.length (content f)).

(** Nothing of [ScopeLogger] has run yet. *)
Definition fresh (w : World) : Prop :=
  initialized_ (scope w) = false /\
  crashChecked_ (scope w) = false /\
  crashedLastTime_ (scope w) = false /\
  fout_ (scope w) = closed_stream.

(** The static members after a first open: the stream is open and good, or
    it could not be opened. *)
Definition opened_scope (c : Z) (crashed : bool) : ScopeStatics :=
  MkScopeStatics c (OFStream (Some Scope.fileName) false) true crashed true.

Definition failed_scope (c : Z) (crashed : bool) : ScopeStatics :=
  MkScopeStatics c (OFStream None true) true crashed true.

(** The calls of a first open that rotates, of one whose rotation throws
    (at the removal of the old backup, or at the rename), and of one that
    does not rotate. *)
Definition rotation_calls (had_backup : bool) : list fs_call :=
  [CallExists Scope.fileName; CallFileSize Scope.fileName; CallExists backupName]
  ++ (if had_backup then [CallRemove backupName] else [])
  ++ [CallRename Scope.fileName backupName; CallOpenAppend Scope.fileName;
      CallExists Scope.fileName; CallOpenRead Scope.fileName].

Definition refused_calls (had_backup : bool) : list fs_call :=
  [CallExists Scope.fileName; CallFileSize Scope.fileName; CallExists backupName]
  ++ (if had_backup then [CallRemove backupName]
      else [CallRename Scope.fileName backupName]).

Definition kept_calls : list fs_call :=
  [CallExists Scope.fileName; CallFileSize Scope.fileName;
   CallOpenAppend Scope.fileName; CallExists Scope.fileName;
   CallOpenRead Scope.fileName].

(** The state between two operations, once the first open is over: the
    stream is open and good, or it is closed and failed, and opening it
    again would fail again. *)
Definition steady (w : World) : Prop :=
  initialized_ (scope w) = true /\
  (fout_ (scope w) = OFStream (Some Scope.fileName) false \/
   (fout_ (scope w) = OFStream None true /\ cannot_open (fs w))).

(** The directory after [text] has been appended to the diagnostics file. *)
Definition append_file (text : string) (d : filesystem) : filesystem :=
  map_entries (alter (append_to text) Scope.fileName) d.

(** The state after one call of [log] that has [text] to write. *)
Definition logged (text : string) (w : World) : World :=
  if good (fout_ (scope w))
  then MkWorld (append_file text (fs w)) (scope w) (logst w)
               (written w ++ [text]) (calls w)
  else MkWorld (fs w) (scope w) (logst w) (written w)
               (calls w ++ [CallOpenAppend Scope.fileName]).

(** The state with the counter set to [n]. *)
Definition with_count (n : Z) (w : World) : World :=
  MkWorld (fs w)
          (MkScopeStatics n (fout_ (scope w)) (initialized_ (scope w))
                          (crashedLastTime_ (scope w)) (crashChecked_ (scope w)))
          (logst w) (written w) (calls w).

(** ** Runs, summarised

    What one event does to the stack of live scopes and to the counter,
    and the record it sends to the stream; then the same for a run. *)
Definition stack_step (e : event) (stk : list ScopeLogger) : list ScopeLogger :=
  match e with
  | Enter _ func file line => MkScopeLogger func file line :: stk
  | EnterNamed _ func name file line =>
      MkScopeLogger (func ++ ":" ++ name) file line :: stk
  | Annotate _ _ => stk
  | Leave _ => tail stk
  end.

Definition count_step (e : event) (stk : list ScopeLogger) (c : Z) : Z :=
  match e, stk with
  | Enter _ _ _ _, _ | EnterNamed _ _ _ _ _, _ => wrap_int (c + 1)
  | Leave _, _ :: _ => wrap_int (c - 1)
  | _, _ => c
  end.

Definition record_of (e : event) (stk : list ScopeLogger) (c : Z) : list string :=
  match e, stk with
  | Enter ts func file _, _ => [format_record ts func "start..." file c]
  | EnterNamed ts func name file _, _ =>
      [format_record ts (func ++ ":" ++ name) "start..." file c]
  | Annotate ts msg, self :: _ =>
      [format_record ts (func_ self) msg (file_ self) c]
  | Leave ts, self :: _ =>
      [format_record ts (func_ self) "end!" (file_ self) (wrap_int (c - 1))]
  | _, [] => []
  end.

Fixpoint stack_after (tr : list event) (stk : list ScopeLogger) : list ScopeLogger :=
  match tr with
  | [] => stk
  | e :: tr' => stack_after tr' (stack_step e stk)
  end.

Fixpoint count_after (tr : list event) (stk : list ScopeLogger) (c : Z) : Z :=
  match tr with
  | [] => c
  | e :: tr' => count_after tr' (stack_step e stk) (count_step e stk c)
  end.

Fixpoint records_from (tr : list event) (stk : list ScopeLogger) (c : Z)
  : list string :=
  match tr with
  | [] => []
  | e :: tr' =>
      record_of e stk c ++ records_from tr' (stack_step e stk) (count_step e stk c)
  end.

(** The bytes of a list of texts written one after the other. *)
Fixpoint join (l : list string) : string :=
  match l with
  | [] => EmptyString
  | x :: l' => x ++ join l'
  end.

(** A call that only tries to open the diagnostics stream again. *)
Definition reopen (c : fs_call) : Prop := c = CallOpenAppend Scope.fileName.

(** [w1] is [w] after writing [recs] (when the stream is good) and with
    the counter at [n]. *)
Definition reaches (recs : list string) (n : Z) (w w1 : World) : Prop :=
  scope w1 = scope (with_count n w) /\
  logst w1 = logst w /\
  written w1 = (if good (fout_ (scope w)) then written w ++ recs else written w)%list /\
  fs w1 = (if good (fout_ (scope w)) then append_file (join recs) (fs w) else fs w) /\
  exists cs, calls w1 = (calls w ++ cs)%list /\ Forall reopen cs.

(** The state after calls that changed nothing. *)
Definition more_calls (cs : list fs_call) (w : World) : World :=
  MkWorld (fs w) (scope w) (logst w) (written w) (calls w ++ cs).

(** ** Line numbers

    A scope and an event with the line number blanked. *)
Definition erase_obj (self : ScopeLogger) : ScopeLogger :=
  MkScopeLogger (func_ self) (file_ self) 0.

Definition erase_line (e : event) : event :=
  match e with
  | Enter ts func file _ => Enter ts func file 0
  | EnterNamed ts func name file _ => EnterNamed ts func name file 0
  | Annotate ts msg => Annotate ts msg
  | Leave ts => Leave ts
  end.

Definition on_stack (f : list ScopeLogger -> list ScopeLogger)
           (r : outcome (list ScopeLogger)) : outcome (list ScopeLogger) :=
  match r with
  | Val stk => Val (f stk)
  | Exc e => Exc e
  end.

(** ** The scenario of one scope with one annotation *)
Definition scenario (ts1 ts2 ts3 : string) : list event :=
  [Enter ts1 "foo" "file.cpp" 10; Annotate ts2 "halfway"; Leave ts3].

(** ** Nesting depth

    One line of the diagnostics file, field by field. *)
Record record : Type := Rec {
  r_ts : string; r_label : string; r_phase : string; r_src : string;
  r_count : Z
}.

Definition print (r : record) : string :=
  format_record (r_ts r) (r_label r) (r_phase r) (r_src r) (r_count r).

(** The depth of the stack of scopes, as the specification counts it: up by
    exactly one per Start, down by exactly one per End. *)
Fixpoint depth_after (tr : list event) (depth : Z) : Z :=
  match tr with
  | [] => depth
  | Enter _ _ _ _ :: tr' | EnterNamed _ _ _ _ _ :: tr' => depth_after tr' (depth + 1)
  | Annotate _ _ :: tr' => depth_after tr' depth
  | Leave _ :: tr' => depth_after tr' (depth - 1)
  end.

(** The records of a run with the stack depth as their count: a Start shows
    the depth without the scope that starts, an annotation the current
    depth, an End the depth without the scope that ends. *)
Fixpoint nested_records (tr : list event) (stk : list ScopeLogger) (depth : Z)
  : list record :=
  match tr with
  | [] => []
  | Enter ts func file line :: tr' =>
      Rec ts func "start..." file depth
      :: nested_records tr' (MkScopeLogger func file line :: stk) (depth + 1)
  | EnterNamed ts func name file line :: tr' =>
      Rec ts (func ++ ":" ++ name) "start..." file depth
      :: nested_records tr' (MkScopeLogger (func ++ ":" ++ name) file line :: stk)
                        (depth + 1)
  | Annotate ts msg :: tr' =>
      match stk with
      | self :: _ => [Rec ts (func_ self) msg (file_ self) depth]
      | [] => []
      end ++ nested_records tr' stk depth
  | Leave ts :: tr' =>
      match stk with
      | self :: _ => [Rec ts (func_ self) "end!" (file_ self) (depth - 1)]
      | [] => []
      end ++ nested_records tr' (tail stk) (depth - 1)
  end.

(** The largest number of scopes open at once during a run. *)
Fixpoint peak (tr : list event) (depth : nat) : nat :=
  match tr with
  | [] => depth
  | Enter _ _ _ _ :: tr' | EnterNamed _ _ _ _ _ :: tr' => peak tr' (S depth)
  | Annotate _ _ :: tr' => peak tr' depth
  | Leave _ :: tr' => Nat.max depth (peak tr' (Nat.pred depth))
  end.

(** ** Example files and directories

    [n] bytes without a line feed. *)
Fixpoint filler (n : nat) : string :=
  match n with
  | O => EmptyString
  | S n' => String "x"%char (filler n')
  end.

(** The Start record of a scope that never ended. *)
Definition crashed_tail : string :=
  "[2026-11-02 23:59:59] main:start... main.cpp |1".

(** 3 MiB of earlier lines, then the record above. *)
Definition big_log : string :=
  filler (Z.to_nat (3 * 1024 * 1024)) ++ nl ++ crashed_tail ++ nl.

(** A directory that holds the large file; [movable] tells whether the
    directory may be changed. *)
Definition dir_with_big_log (movable : bool) : filesystem :=
  FS {[ Scope.fileName := File big_log true ]} movable.

(** Following the words of the specification: the last line of a file that
    is not empty. *)
Definition last_nonempty_line (c : string) : string :=
  fold_left (fun last line => if String.eqb line "" then last else line)
            (getlines c) EmptyString.

(** The process has opened [p] for reading. *)
Definition reads (p : string) (w : World) : Prop := In (CallOpenRead p) (calls w).

(** A directory with a small diagnostics file whose last record is the
    Start of a scope that never ended. *)
Definition crashed_log : file := File (crashed_tail ++ nl) true.

Definition dir_with_crashed_log : filesystem :=
  FS {[ Scope.fileName := crashed_log ]} true.

(** The event constructs a scope. *)
Definition is_enter (e : event) : bool :=
  match e with
  | Enter _ _ _ _ | EnterNamed _ _ _ _ _ => true
  | _ => false
  end.

(** ** Counting renames *)
Definition is_rename (c : fs_call) : bool :=
  match c with
  | CallRename _ _ => true
  | _ => false
  end.

(** How often [fs::rename] has been called. *)
Definition renames (cs : list fs_call) : nat := length (List.filter is_rename cs).

(** The name of the backup of the general log. *)
Definition log_backupName : string := Log.fileName ++ ".old".

(** A directory with the large diagnostics file, an older backup, and a
    small general log. *)
Definition dir_to_rotate : filesystem :=
  FS (<[ Scope.fileName := File big_log true ]>
        (<[ backupName := File "an older backup" true ]>
           {[ Log.fileName := File "hello" true ]}))
     true.

(* ===================================================================== *)
(** * class Log: messages                                                 *)
(* ===================================================================== *)

(** What is streamed into a [Log] with [operator<<]: text, an [int], or a
    [bool], which the [std::ostringstream] prints as [1] or [0]. *)
Inductive token : Type :=
| TText (s : string)
| TInt (n : Z)
| TBool (b : bool).

Definition render_token (t : token) : string :=
  match t with
  | TText s => s
  | TInt n => to_string n
  | TBool b => if b then "1" else "0"
  end.

(** The non-static members of a [Log]. *)
Record LogObj : Type := MkLog {
  toFile_ : bool;
  hasLog_ : bool;
  ss_ : string               (* the text held by std::ostringstream ss_ *)
}.

(** The process state together with what has been sent to [std::cout],
    one entry per statement. *)
Record Process : Type := MkProcess {
  world : World;
  console : list string
}.

Definition start_process (d : filesystem) : Process := MkProcess (boot d) [].

Definition DQ : string := String (ascii_of_nat 34) EmptyString.

(** The line that [commit] sends to the file: the timestamp in brackets,
    the thread id, and the message between double quotes. *)
Definition format_line (ts : string) (tid : Z) (msg : string) : string :=
  "[" ++ ts ++ "] tid=" ++ to_string tid ++ " " ++ DQ ++ msg ++ DQ.

(** [s.close()] *)
Definition ofstream_close (s : ofstream) : ofstream := OFStream None (failed s).

Module LogMsg.

(** [explicit Log(bool toFile = true)] *)
Definition ctor (toFile : bool) : LogObj := MkLog toFile false EmptyString.

(** [Log &operator<<(T &&val)] and [Log &operator<<(std::string_view sv)] *)
Definition shl (o : LogObj) (t : token) : LogObj :=
  MkLog (toFile_ o) true
        ((if hasLog_ o then ss_ o ++ " " else ss_ o) ++ render_token t).

Definition noquote (o : LogObj) : LogObj := o.

(** [fout_ << text; fout_.flush()] on the stream of [Log] *)
Definition fout_write (text : string) : M unit :=
  fun w =>
    let '(d, s, _) := ofstream_write text (fs w) (log_fout_ (logst w)) in
    (Val tt, with_logst (MkLogStatics s (log_initialized_ (logst w))) (with_fs d w)).

Definition fout_good : M bool := fun w => (Val (good (log_fout_ (logst w))), w).

(** [static void terminate()] *)
Definition terminate : M unit :=
  fun w =>
    if is_open (log_fout_ (logst w))
    then (Val tt, with_logst (MkLogStatics (ofstream_close (log_fout_ (logst w)))
                                           (log_initialized_ (logst w))) w)
    else (Val tt, w).

(** [void commit()]; [ts] and [tid] are what [dateTime()] and [threadId()]
    return.  The object is reset before anything is written, so it is reset
    also when the rotation throws. *)
Definition commit (ts : string) (tid : Z) (o : LogObj) (p : Process)
  : outcome unit * LogObj * Process :=
  if negb (hasLog_ o) then (Val tt, o, p)
  else
    let msg := ss_ o in
    let o' := MkLog (toFile_ o) false EmptyString in
    let line := format_line ts tid msg in
    match (if toFile_ o
           then (Log.ensureFileOpen ;;
                 g <- fout_good ;;
                 if g : bool then fout_write (line ++ nl) else ret tt)
           else ret tt) (world p) with
    | (Val _, w') => (Val tt, o', MkProcess w' (console p ++ [msg ++ nl]))
    | (Exc e, w') => (Exc e, o', MkProcess w' (console p))
    end.

(** [~Log() { commit(); }] *)
Definition dtor (ts : string) (tid : Z) (o : LogObj) (p : Process)
  : outcome unit * Process :=
  let '(r, _, p') := commit ts tid o p in (r, p').

(** The statement [LOG_MSG << t1 << ... << tn;] (with [toFile = true]) or
    [LOG_MSGNF << t1 << ... << tn;] (with [toFile = false]): a temporary is
    constructed, fed, and destroyed. *)
Definition log_msg (toFile : bool) (toks : list token) (ts : string) (tid : Z)
           (p : Process) : outcome unit * Process :=
  dtor ts tid (fold_left shl toks (ctor toFile)) p.

End LogMsg.

(** One logging statement: file flag, timestamp, thread id, tokens. *)
Record statement : Type := Stmt {
  st_toFile : bool; st_ts : string; st_tid : Z; st_tokens : list token
}.

(** What a thread does with [LOG_MSG], [LOG_MSGNF] and [Log::terminate]. *)
Inductive action : Type :=
| Say (st : statement)
| Terminate.

(** A sequence of such actions.  It stops at the first exception: the one
    that leaves [commit] leaves the destructor of the temporary, which ends
    the process. *)
Fixpoint perform (acts : list action) (p : Process) : outcome unit * Process :=
  match acts with
  | [] => (Val tt, p)
  | Say st :: acts' =>
      match LogMsg.log_msg (st_toFile st) (st_tokens st) (st_ts st) (st_tid st) p with
      | (Val _, p') => perform acts' p'
      | (Exc e, p') => (Exc e, p')
      end
  | Terminate :: acts' =>
      match LogMsg.terminate (world p) with
      | (Val _, w') => perform acts' (MkProcess w' (console p))
      | (Exc e, w') => (Exc e, MkProcess w' (console p))
      end
  end.

(** The message of a statement: its tokens as they print, with one blank
    between two of them. *)
Definition message (toks : list token) : string :=
  String.concat " " (map render_token toks).

(** The statement has streamed something. *)
Definition says (toks : list token) : bool :=
  match toks with [] => false | _ :: _ => true end.

(** What a sequence of actions sends to the console, and what it sends to
    the general log when every line reaches it. *)
Fixpoint console_of (acts : list action) : list string :=
  match acts with
  | [] => []
  | Say st :: acts' =>
      (if says (st_tokens st) then [message (st_tokens st) ++ nl] else [])
        ++ console_of acts'
  | Terminate :: acts' => console_of acts'
  end.

Fixpoint file_text_of (acts : list action) : string :=
  match acts with
  | [] => EmptyString
  | Say st :: acts' =>
      (if says (st_tokens st) && st_toFile st
       then format_line (st_ts st) (st_tid st) (message (st_tokens st)) ++ nl
       else EmptyString) ++ file_text_of acts'
  | Terminate :: acts' => file_text_of acts'
  end.

(** The content of the file [p], nothing when there is no such file. *)
Definition content_of (d : filesystem) (p : string) : string :=
  match entries d !! p with
  | Some f => content f
  | None => EmptyString
  end.

(** The general log can be opened for appending and is not rotated. *)
Definition log_usable (d : filesystem) : Prop :=
  match entries d !! Log.fileName with
  | Some f => writable f = true /\ file_size f <= 5 * 1024 * 1024
  | None => dir_writable d = true
  end.

(** The general log cannot be opened for appending and is not rotated. *)
Definition log_unusable (d : filesystem) : Prop :=
  match entries d !! Log.fileName with
  | Some f => writable f = false /\ file_size f <= 5 * 1024 * 1024
  | None => dir_writable d = false
  end.

(** The states of the sink of [Log] between two actions, when the file is
    usable: nothing has been opened yet; or the stream is open on the file;
    or it has been closed by [terminate]. *)
Definition log_ready (w : World) : Prop :=
  (logst w = MkLogStatics closed_stream false /\ log_usable (fs w)) \/
  (log_initialized_ (logst w) = true /\
   (log_fout_ (logst w) = OFStream (Some Log.fileName) false \/
    log_fout_ (logst w) = OFStream None false) /\
   exists c, entries (fs w) !! Log.fileName = Some (File c true)).

(** The same when the file is not usable, in a directory that may be
    searched: the stream has failed. *)
Definition log_stuck (w : World) : Prop :=
  searchable (fs w) = true /\
  log_unusable (fs w) /\
  (logst w = MkLogStatics closed_stream false \/
   logst w = MkLogStatics (OFStream None true) true).

(** The stream of [Log] is closed, or open on the general log. *)
Definition own_log_stream (w : World) : Prop :=
  opened (log_fout_ (logst w)) = None \/
  opened (log_fout_ (logst w)) = Some Log.fileName.

(** [w'] differs from [w] at most in the general log, its backup, the
    static members of [Log] and the calls made. *)
Definition log_same_elsewhere (w w' : World) : Prop :=
  (forall p, p <> Log.fileName -> p <> log_backupName ->
             entries (fs w') !! p = entries (fs w) !! p) /\
  dir_writable (fs w') = dir_writable (fs w) /\
  scope w' = scope w /\
  written w' = written w.

(** ** Decimal numerals *)

(** The number a decimal numeral denotes, on top of [acc]. *)
Fixpoint uint_value (d : Decimal.uint) (acc : Z) : Z :=
  match d with
  | Decimal.Nil => acc
  | Decimal.D0 d' => uint_value d' (10 * acc + 0)
  | Decimal.D1 d' => uint_value d' (10 * acc + 1)
  | Decimal.D2 d' => uint_value d' (10 * acc + 2)
  | Decimal.D3 d' => uint_value d' (10 * acc + 3)
  | Decimal.D4 d' => uint_value d' (10 * acc + 4)
  | Decimal.D5 d' => uint_value d' (10 * acc + 5)
  | Decimal.D6 d' => uint_value d' (10 * acc + 6)
  | Decimal.D7 d' => uint_value d' (10 * acc + 7)
  | Decimal.D8 d' => uint_value d' (10 * acc + 8)
  | Decimal.D9 d' => uint_value d' (10 * acc + 9)
  end.

(** The text does not go on with a digit. *)
Definition no_leading_digit (s : string) : bool :=
  match s with
  | String c _ => negb (isdigit c)
  | EmptyString => true
  end.

(** ** The next start *)

(** The process that starts on the directory an earlier process has left
    (by a clean exit or by a crash between two operations). *)
Definition restart (w : World) : World := boot (fs w).

(** The event ends a scope. *)
Definition is_leave (e : event) : bool :=
  match e with
  | Leave _ => true
  | _ => false
  end.

(** The depth that the record of [e] shows, when [depth] scopes are open
    before it: an End shows the depth without the scope that ends. *)
Definition shown_depth (e : event) (depth : Z) : Z :=
  if is_leave e then depth - 1 else depth.

(** ** Which files a channel touches *)

(** The diagnostics stream is closed, or open on the diagnostics file. *)
Definition own_stream (w : World) : Prop :=
  opened (fout_ (scope w)) = None \/
  opened (fout_ (scope w)) = Some Scope.fileName.

(** [w'] differs from [w] at most in the diagnostics file, its backup, and
    the static members of [ScopeLogger]. *)
Definition same_elsewhere (w w' : World) : Prop :=
  (forall p, p <> Scope.fileName -> p <> backupName ->
             entries (fs w') !! p = entries (fs w) !! p) /\
  dir_writable (fs w') = dir_writable (fs w) /\
  logst w' = logst w.

(** 6 MiB of earlier lines of the general log. *)
Definition large_output : string := filler (Z.to_nat (6 * 1024 * 1024)).

(** A directory that holds the large general log; [movable] tells whether
    the directory may be changed. *)
Definition dir_with_large_output (movable : bool) : filesystem :=
  FS {[ Log.fileName := File large_output true ]} movable.

(** Three statements and a [terminate] between them. *)
Definition chatter : list action :=
  [Say (Stmt true "10:00:00" 42 [TText "Doing stuff"; TInt 123; TBool true]);
   Terminate;
   Say (Stmt false "10:00:01" 42 [TText "only console"]);
   Say (Stmt true "10:00:02" 7 [TText "again"])].

(** The stream of [ScopeLogger] is open on the diagnostics file and good,
    as the first open of a process leaves it when it succeeds. *)
Definition stream_open (w : World) : Prop :=
  initialized_ (scope w) = true /\
  fout_ (scope w) = OFStream (Some Scope.fileName) false.

(* ===================================================================== *)
(** * Facts about strings                                                 *)
(* ===================================================================== *)

Section StringFacts.

Lemma length_append (a b : string) :
  String.length (a ++ b) = (String.length a + String.length b)%nat.
Proof. induction a as [|c a IH]; simpl; [reflexivity | now rewrite IH]. Qed.

Lemma append_assoc (a b c : string) : (a ++ b) ++ c = a ++ (b ++ c).
Proof. induction a as [|x a IH]; simpl; [reflexivity | now rewrite IH]. Qed.

Lemma append_nil_r (a : string) : a ++ "" = a.
Proof. induction a as [|x a IH]; simpl; [reflexivity | now rewrite IH]. Qed.

Lemma getlines_nl_nonempty (a : string) : getlines (a ++ nl) <> [].
Proof.
  induction a as [|c a IH]; cbn [getlines String.append]; [discriminate |].
  destruct (Ascii.eqb c NL); [discriminate |].
  destruct (getlines (a ++ nl)); [contradiction | discriminate].
Qed.

Lemma getlines_app_nl (a b : string) :
  getlines (a ++ nl ++ b) = (getlines (a ++ nl) ++ getlines b)%list.
Proof.
  induction a as [|c a IH]; cbn [getlines String.append]; [reflexivity |].
  destruct (Ascii.eqb c NL); [now rewrite IH |].
  rewrite IH. pose proof (getlines_nl_nonempty a) as Hne.
  destruct (getlines (a ++ nl)); [contradiction | reflexivity].
Qed.

Lemma getlines_one_line (l : string) :
  no_nl l = true -> getlines (l ++ nl) = [l].
Proof.
  induction l as [|c l IH]; cbn [getlines String.append no_nl];
    [reflexivity |].
  destruct (Ascii.eqb c NL); cbn [negb andb]; [discriminate |].
  intros H. now rewrite (IH H).
Qed.

Lemma fold_left_last {A} (l : list A) (x d : A) :
  fold_left (fun _ y => y) (l ++ [x])%list d = x.
Proof. now rewrite fold_left_app. Qed.

Lemma last_line_end (l : string) :
  no_nl l = true -> last_line (l ++ nl) = l.
Proof. intros H. unfold last_line. now rewrite (getlines_one_line l H). Qed.

Lemma last_line_app (pre l : string) :
  no_nl l = true -> last_line (pre ++ nl ++ l ++ nl) = l.
Proof.
  intros H. unfold last_line.
  rewrite getlines_app_nl, (getlines_one_line l H). apply fold_left_last.
Qed.

Lemma last_line_empty : last_line "" = "".
Proof. reflexivity. Qed.

Lemma rfind_app_bar (pre suf : string) :
  rfind BAR suf = None ->
  rfind BAR (pre ++ "|" ++ suf) = Some (String.length pre).
Proof.
  intros H. induction pre as [|c pre IH]; simpl.
  - now rewrite H.
  - simpl in IH. now rewrite IH.
Qed.

Lemma string_drop_app (pre suf : string) :
  string_drop (String.length pre) (pre ++ suf) = suf.
Proof. induction pre as [|c pre IH]; simpl; [reflexivity | exact IH]. Qed.

Lemma substr_after_bar (pre suf : string) :
  substr (pre ++ "|" ++ suf) (String.length pre + 1) = Val suf.
Proof.
  unfold substr. rewrite length_append. simpl String.length.
  destruct (Nat.ltb_spec (String.length pre + S (String.length suf))
                         (String.length pre + 1)) as [Hlt|_]; [lia |].
  f_equal. replace (String.length pre + 1)%nat
    with (String.length (pre ++ "|")) by (rewrite length_append; reflexivity).
  rewrite <- append_assoc. apply string_drop_app.
Qed.

(** The line is split at its last bar: the count field is what follows. *)
Lemma line_says_crash_field (pre suf : string) :
  rfind BAR suf = None ->
  line_says_crash (pre ++ "|" ++ suf)
  = match stoi suf with Val n => 0 <? n | Exc _ => false end.
Proof.
  intros H. unfold line_says_crash.
  now rewrite (rfind_app_bar pre suf H), substr_after_bar.
Qed.

Lemma line_says_crash_no_bar (line : string) :
  rfind BAR line = None -> line_says_crash line = false.
Proof. intros H. unfold line_says_crash. now rewrite H. Qed.

Lemma format_record_head (ts label phase src : string) (n : Z) :
  exists rest, format_record ts label phase src n = String "["%char rest.
Proof. unfold format_record. simpl. eauto. Qed.

Lemma format_record_not_marker (ts label phase src : string) (n : Z) :
  format_record ts label phase src n <> crash_marker.
Proof.
  destruct (format_record_head ts label phase src n) as [rest ->].
  discriminate.
Qed.

End StringFacts.

(* ===================================================================== *)
(** * What one operation may change                                       *)
(* ===================================================================== *)

(** Unfolds a member function down to the primitives, on a state given by
    its fields, and splits on every test the code makes. *)
Ltac unfold_members :=
  unfold Scope.ctor, Scope.ctor_named, Scope.dtor, Scope.here, Scope.log,
    Scope.init, Scope.ensureFileOpen, Scope.detectPreviousCrash,
    Scope.rotateIfTooLarge, Scope.lastLine, Scope.fout_open, Scope.fout_write,
    Scope.count_incr, Scope.count_decr, Scope.set_count,
    Scope.set_initialized, Scope.set_crashedLastTime, Scope.set_crashChecked,
    Scope.get, Scope.with_fout, fs_exists, fs_file_size, fs_remove, fs_rename,
    ofstream_open, ofstream_write, bind, ret, has_file, is_open, good,
    note_call, note_written, with_fs, with_scope, with_logst.

Ltac split_tests :=
  repeat match goal with
         | |- context [match ?x with _ => _ end] =>
             lazymatch x with
             | context [match _ with _ => _ end] => fail
             | _ => destruct x eqn:?; cbn in *
             end
         end.

Ltac list_eq := rewrite <- ?app_assoc, ?app_nil_r; cbn; reflexivity.

Lemma backup_ne_file : Scope.fileName ++ ".old" <> Scope.fileName.
Proof. discriminate. Qed.

Lemma file_ne_backup : Scope.fileName <> Scope.fileName ++ ".old".
Proof. discriminate. Qed.

(** Looks entries up through the updates of a rotation. *)
Ltac map_facts :=
  repeat match goal with
         | H : context [delete ?i ?m !! ?i] |- _ =>
             rewrite (lookup_delete_eq m i) in H
         | H : context [<[?i := ?x]> ?m !! ?i] |- _ =>
             rewrite (lookup_insert_eq m i x) in H
         | H : context [delete (Scope.fileName ++ ".old") ?m !! Scope.fileName] |- _ =>
             rewrite (lookup_delete_ne m _ _ backup_ne_file) in H
         | H : context [<[Scope.fileName ++ ".old" := ?x]> ?m !! Scope.fileName] |- _ =>
             rewrite (lookup_insert_ne m _ _ x backup_ne_file) in H
         | H : context [delete Scope.fileName ?m !! (Scope.fileName ++ ".old")] |- _ =>
             rewrite (lookup_delete_ne m _ _ file_ne_backup) in H
         | H : context [<[Scope.fileName := ?x]> ?m !! (Scope.fileName ++ ".old")] |- _ =>
             rewrite (lookup_insert_ne m _ _ x file_ne_backup) in H
         end.

Ltac bool_facts :=
  repeat match goal with
         | H : negb ?b = _ |- _ => destruct b; cbn in H; try discriminate H
         end.

(** Closes the case of a directory that may not be searched, when a
    hypothesis names one of its files or says that it may be changed. *)
Ltac not_unsearchable :=
  exfalso; cbn in *;
  match goal with
  | H : ∅ !! _ = Some _ |- _ => rewrite lookup_empty in H; discriminate H
  | H : false = true |- _ => discriminate H
  end.

#[local] Arguments crash_marker : simpl never.
#[local] Arguments format_record : simpl never.
#[local] Arguments to_string : simpl never.
#[local] Arguments wrap_int : simpl never.
#[local] Arguments Scope.fileName : simpl never.
#[local] Arguments Log.fileName : simpl never.
#[local] Arguments Z.mul : simpl never.

Section Directories.

Lemma entries_map_alter (g : file -> file) (p : string) (d : filesystem) :
  entries (map_entries (alter g p) d) = alter g p (entries d).
Proof.
  destruct d as [en dw|]; [reflexivity |]. cbn.
  apply map_eq. intros j. destruct (decide (p = j)) as [<-|Hne].
  - now rewrite lookup_alter_eq, lookup_empty.
  - now rewrite lookup_alter_ne by exact Hne.
Qed.

Lemma dir_writable_map_entries (g : gmap string file -> gmap string file)
      (d : filesystem) :
  dir_writable (map_entries g d) = dir_writable d.
Proof. now destruct d. Qed.

Lemma searchable_map_entries (g : gmap string file -> gmap string file)
      (d : filesystem) :
  searchable (map_entries g d) = searchable d.
Proof. now destruct d. Qed.

Lemma entries_append_file (text : string) (d : filesystem) :
  entries (append_file text d) = alter (append_to text) Scope.fileName (entries d).
Proof. apply entries_map_alter. Qed.

End Directories.

Section Frames.

Lemma ensureFileOpen_frame (w : World) :
  match Scope.ensureFileOpen w with
  | (Val _, w') =>
      count_ (scope w') = count_ (scope w) /\
      logst w' = logst w /\
      initialized_ (scope w') = true /\
      (is_open (fout_ (scope w')) = true \/ failed (fout_ (scope w')) = true) /\
      (initialized_ (scope w) = true -> is_open (fout_ (scope w)) = true ->
       w' = w) /\
      (is_open (fout_ (scope w')) = false ->
       fout_ (scope w') = OFStream None true /\ cannot_open (fs w')) /\
      (written w' = written w \/
       (written w' = (written w ++ [crash_marker])%list /\
        failed (fout_ (scope w')) = false /\
        is_open (fout_ (scope w')) = true /\
        initialized_ (scope w) = false))
  | (Exc e, w') =>
      e = filesystem_error /\
      scope w' = scope w /\ logst w' = logst w /\ fs w' = fs w /\
      written w' = written w /\
      initialized_ (scope w) = false /\ dir_writable (fs w) = false
  end.
Proof.
  destruct w as [[en dw|] [c [o f] i cl ck] lg wr cs];
    unfold cannot_open; unfold_members; cbn; rewrite ?lookup_empty; cbn;
    split_tests; try discriminate; bool_facts; map_facts;
    try congruence; intuition (auto; try congruence).
Qed.

Lemma log_frame (self : ScopeLogger) (ts phase : string) (w : World) :
  match Scope.log self ts phase w with
  | (Val _, w') =>
      count_ (scope w') = count_ (scope w) /\
      logst w' = logst w /\
      initialized_ (scope w') = true /\
      (is_open (fout_ (scope w')) = true \/ failed (fout_ (scope w')) = true) /\
      (initialized_ (scope w) = true -> is_open (fout_ (scope w)) = true ->
       fout_ (scope w') = fout_ (scope w)) /\
      exists pre,
        marker_or_nothing pre /\
        (initialized_ (scope w) = true -> pre = []) /\
        written w' =
          if good (fout_ (scope w'))
          then (written w ++ pre ++
                [format_record ts (func_ self) phase (file_ self) (count_ (scope w))])%list
          else written w
  | (Exc e, w') =>
      e = filesystem_error /\
      scope w' = scope w /\ logst w' = logst w /\ fs w' = fs w /\
      written w' = written w /\
      initialized_ (scope w) = false /\ dir_writable (fs w) = false
  end.
Proof.
  unfold Scope.log, bind at 1.
  pose proof (ensureFileOpen_frame w) as F.
  destruct (Scope.ensureFileOpen w) as [[[]|e] w1]; [| exact F].
  destruct F as (Hc & Hl & Hi & Hof & Hsame & _ & Hw).
  destruct w1 as [d1 [c [o f] i cl ck] lg wr cs].
  unfold_members. cbn in *. subst c lg i.
  destruct f; cbn.
  - (* the stream is not good: nothing is written *)
    repeat split; auto.
    + intros H1 H2. specialize (Hsame H1 H2). now rewrite <- Hsame.
    + exists []. split; [now left |]. split; [reflexivity |].
      destruct Hw as [Hw | (_ & Hf & _)]; [exact Hw | discriminate Hf].
  - destruct o as [p|]; cbn.
    + repeat split; auto.
      * intros H1 H2. specialize (Hsame H1 H2). now rewrite <- Hsame.
      * destruct Hw as [Hw | (Hw & _ & _ & Hini)].
        -- exists []. split; [now left |]. split; [reflexivity |].
           rewrite Hw. reflexivity.
        -- exists [crash_marker]. split; [now right |].
           split; [intros Ht; rewrite Ht in Hini; discriminate |].
           rewrite Hw. list_eq.
    + destruct Hof as [Hof | Hof]; discriminate Hof.
Qed.

End Frames.

(* ===================================================================== *)
(** * Construction and destruction: which count a record carries          *)
(* ===================================================================== *)

Section Counts.

Lemma ctor_enter ts func file line :
  Scope.ctor ts func file line = enter (MkScopeLogger func file line) ts.
Proof. reflexivity. Qed.

Lemma ctor_named_enter ts func name file line :
  Scope.ctor_named ts func name file line
  = enter (MkScopeLogger (func ++ ":" ++ name) file line) ts.
Proof. reflexivity. Qed.

Lemma enter_frame (self : ScopeLogger) (ts : string) (w : World) :
  match enter self ts w with
  | (Val self', w') =>
      self' = self /\
      count_ (scope w') = wrap_int (count_ (scope w) + 1) /\
      logst w' = logst w /\
      initialized_ (scope w') = true /\
      (is_open (fout_ (scope w')) = true \/ failed (fout_ (scope w')) = true) /\
      exists pre,
        marker_or_nothing pre /\
        (initialized_ (scope w) = true -> pre = []) /\
        written w' =
          if good (fout_ (scope w'))
          then (written w ++ pre ++
                [format_record ts (func_ self) "start..." (file_ self)
                               (count_ (scope w))])%list
          else written w
  | (Exc e, w') =>
      e = filesystem_error /\
      scope w' = scope w /\ logst w' = logst w /\ fs w' = fs w /\
      written w' = written w /\
      initialized_ (scope w) = false /\ dir_writable (fs w) = false
  end.
Proof.
  unfold enter, Scope.init, bind at 1.
  pose proof (ensureFileOpen_frame w) as F.
  destruct (Scope.ensureFileOpen w) as [[[]|e] w1]; [| exact F].
  destruct F as (Hc & Hl & Hi & Hof & _ & _ & Hw).
  unfold bind at 1.
  pose proof (log_frame self ts "start..." w1) as G.
  destruct (Scope.log self ts "start..." w1) as [[[]|e] w2].
  2:{ destruct G as (_ & _ & _ & _ & _ & G & _). congruence. }
  destruct G as (Hc2 & Hl2 & Hi2 & Hof2 & Hkeep & pre & _ & Hpre & Hw2).
  specialize (Hpre Hi). subst pre.
  destruct w2 as [d2 [c2 s2 i2 cl2 ck2] lg2 wr2 cs2].
  unfold_members. cbn in *. subst.
  repeat split; auto; try congruence.
  destruct Hw as [Hw | (Hw & Hgood & Hopen & Hini)].
  - exists []. split; [now left |]. split; [reflexivity |].
    now rewrite Hw, Hc.
  - exists [crash_marker]. split; [now right |].
    split; [intros Ht; rewrite Ht in Hini; discriminate |].
    rewrite (Hkeep Hi Hopen). unfold good. rewrite Hgood, Hw, Hc. cbn. list_eq.
Qed.

Lemma dtor_frame (self : ScopeLogger) (ts : string) (w : World) :
  match Scope.dtor self ts w with
  | (Val _, w') =>
      count_ (scope w') = wrap_int (count_ (scope w) - 1) /\
      logst w' = logst w /\
      initialized_ (scope w') = true /\
      (is_open (fout_ (scope w')) = true \/ failed (fout_ (scope w')) = true) /\
      (initialized_ (scope w) = true -> is_open (fout_ (scope w)) = true ->
       fout_ (scope w') = fout_ (scope w)) /\
      exists pre,
        marker_or_nothing pre /\
        (initialized_ (scope w) = true -> pre = []) /\
        written w' =
          if good (fout_ (scope w'))
          then (written w ++ pre ++
                [format_record ts (func_ self) "end!" (file_ self)
                               (count_ (scope w'))])%list
          else written w
  | (Exc e, w') =>
      e = filesystem_error /\
      count_ (scope w') = wrap_int (count_ (scope w) - 1) /\
      fs w' = fs w /\ written w' = written w /\
      initialized_ (scope w) = false /\ dir_writable (fs w) = false
  end.
Proof.
  unfold Scope.dtor, bind at 1.
  destruct w as [d [c s i cl ck] lg wr cs].
  unfold Scope.count_decr, Scope.get, Scope.set_count, bind, with_scope.
  cbn [scope count_ fout_ initialized_ crashedLastTime_ crashChecked_
       fs logst written calls].
  match goal with
  | |- context [Scope.log self ts "end!" ?w0] =>
      pose proof (log_frame self ts "end!" w0) as G;
      destruct (Scope.log self ts "end!" w0) as [[[]|e] w2]
  end; cbn in G.
  - destruct G as (Hc2 & Hl2 & Hi2 & Hof2 & Hkeep & pre & Hm & Hpre & Hw2).
    cbn. rewrite Hc2. repeat split; auto.
    exists pre. repeat split; auto.
  - destruct G as (He & Hs & Hl & Hf & Hw & Hi & Hd).
    rewrite Hs. cbn. repeat split; auto.
Qed.

End Counts.

(* ===================================================================== *)
(** * The first open of a process                                         *)
(* ===================================================================== *)

Section FirstOpen.

Lemma fresh_boot (d : filesystem) : fresh (boot d).
Proof. repeat split. Qed.

(** The diagnostics file is too large and may not be moved: the rename
    throws, and nothing has changed. *)
Lemma first_open_refused (w : World) (f : file) :
  fresh w ->
  entries (fs w) !! Scope.fileName = Some f ->
  2 * 1024 * 1024 < file_size f ->
  dir_writable (fs w) = false ->
  Scope.ensureFileOpen w
  = (Exc filesystem_error,
     more_calls (refused_calls (has_file (fs w) backupName)) w).
Proof.
  intros (Hi & Hk & Hcl & Hf) He Hsz Hd.
  destruct w as [[en dw|] [c s i cl ck] lg wr cs].
  2: not_unsearchable.
  cbn in *. subst. apply Z.ltb_lt in Hsz. unfold file_size in Hsz.
  unfold more_calls, refused_calls, backupName.
  unfold_members. cbn. rewrite He. cbn. rewrite He, Hsz. cbn.
  destruct (en !! (Scope.fileName ++ ".old")) eqn:Hb; cbn.
  - rewrite Hb. cbn. rewrite <- !app_assoc. reflexivity.
  - rewrite He. cbn. rewrite <- !app_assoc. reflexivity.
Qed.

(** The diagnostics file is too large and is moved to the backup name; a
    new, empty file is opened, and that is the file the crash check
    reads. *)
Lemma first_open_rotated (w : World) (f : file) :
  fresh w ->
  entries (fs w) !! Scope.fileName = Some f ->
  2 * 1024 * 1024 < file_size f ->
  dir_writable (fs w) = true ->
  Scope.ensureFileOpen w
  = (Val tt,
     MkWorld (FS (<[Scope.fileName := File EmptyString true]>
                    (<[backupName := f]> (delete Scope.fileName (entries (fs w)))))
                 true)
             (opened_scope (count_ (scope w)) false) (logst w) (written w)
             (calls w ++ rotation_calls (has_file (fs w) backupName))).
Proof.
  intros (Hi & Hk & Hcl & Hf) He Hsz Hd.
  destruct w as [[en dw|] [c s i cl ck] lg wr cs].
  2: not_unsearchable.
  cbn in *. subst. apply Z.ltb_lt in Hsz. unfold file_size in Hsz.
  unfold backupName, rotation_calls, opened_scope.
  unfold_members. cbn. rewrite He. cbn. rewrite He, Hsz. cbn.
  destruct (en !! (Scope.fileName ++ ".old")) eqn:Hb; cbn.
  - rewrite Hb. cbn.
    rewrite (lookup_delete_ne en _ _ backup_ne_file), He. cbn.
    rewrite (lookup_insert_ne _ _ _ f backup_ne_file), lookup_delete_eq. cbn.
    rewrite lookup_insert_eq. cbn.
    rewrite lookup_insert_eq. cbn.
    rewrite (delete_delete en), insert_delete_eq.
    rewrite <- !app_assoc. reflexivity.
  - rewrite He. cbn.
    rewrite (lookup_insert_ne _ _ _ f backup_ne_file), lookup_delete_eq. cbn.
    rewrite lookup_insert_eq. cbn.
    rewrite lookup_insert_eq. cbn.
    rewrite <- !app_assoc. reflexivity.
Qed.

Lemma detect_on_line (line : string) (w : World) :
  (match rfind BAR line with
   | Some pos =>
       (match match substr line (pos + 1) with
              | Val t => stoi t
              | Exc e => Exc e
              end with
        | Val n => Scope.set_crashedLastTime (0 <? n)
        | Exc _ => Scope.set_crashedLastTime false
        end ;; Scope.get crashedLastTime_)
   | None => ret false
   end) w
  = (Val (line_says_crash line),
     match rfind BAR line with
     | Some _ => snd (Scope.set_crashedLastTime (line_says_crash line) w)
     | None => w
     end).
Proof.
  unfold line_says_crash.
  destruct (rfind BAR line) as [pos|]; [| reflexivity].
  destruct (substr line (pos + 1)) as [t|e]; [destruct (stoi t) as [n|e] |];
    reflexivity.
Qed.

(** The diagnostics file stays where it is (it is small enough) and is
    opened for appending; the crash check reads its last line. *)
Lemma first_open_kept (w : World) (f : file) :
  fresh w ->
  entries (fs w) !! Scope.fileName = Some f ->
  file_size f <= 2 * 1024 * 1024 ->
  writable f = true ->
  let crash := line_says_crash (last_line (content f)) in
  Scope.ensureFileOpen w
  = (Val tt,
     MkWorld (if crash
              then FS (alter (append_to crash_marker) Scope.fileName (entries (fs w)))
                      (dir_writable (fs w))
              else fs w)
             (opened_scope (count_ (scope w)) crash) (logst w)
             (written w ++ if crash then [crash_marker] else [])
             (calls w ++ kept_calls)).
Proof.
  intros (Hi & Hk & Hcl & Hf) He Hsz Hwr crash.
  destruct w as [[en dw|] [c s i cl ck] lg wr cs].
  2: not_unsearchable.
  cbn in *. subst. apply Z.ltb_ge in Hsz. unfold file_size in Hsz.
  unfold kept_calls, opened_scope.
  unfold Scope.ensureFileOpen, Scope.rotateIfTooLarge, Scope.detectPreviousCrash.
  unfold Scope.lastLine, Scope.fout_open, Scope.set_initialized,
    Scope.set_crashChecked, Scope.get, Scope.with_fout, fs_exists,
    fs_file_size, ofstream_open, bind at 1 2 3 4 5 6 7 8 9 10 11 12, ret,
    has_file, is_open, note_call, with_fs, with_scope.
  cbn. rewrite He. cbn. rewrite He, Hsz. cbn. rewrite He, Hwr. cbn.
  rewrite He. cbn. rewrite He. cbn.
  fold (last_line (content f)).
  unfold bind at 1. rewrite detect_on_line. fold crash.
  destruct (rfind BAR (last_line (content f))) eqn:Hr.
  - destruct crash; cbn; rewrite <- ?app_assoc, ?app_nil_r; reflexivity.
  - assert (crash = false) as -> by (now apply line_says_crash_no_bar).
    cbn. rewrite <- ?app_assoc, ?app_nil_r. reflexivity.
Qed.

(** The same, for a file that may not be written: the open fails, the
    check still reads the file, the marker is dropped. *)
Lemma first_open_readonly (w : World) (f : file) :
  fresh w ->
  entries (fs w) !! Scope.fileName = Some f ->
  file_size f <= 2 * 1024 * 1024 ->
  writable f = false ->
  Scope.ensureFileOpen w
  = (Val tt,
     MkWorld (fs w)
             (failed_scope (count_ (scope w))
                           (line_says_crash (last_line (content f))))
             (logst w) (written w) (calls w ++ kept_calls)).
Proof.
  intros (Hi & Hk & Hcl & Hf) He Hsz Hwr.
  destruct w as [[en dw|] [c s i cl ck] lg wr cs].
  2: not_unsearchable.
  cbn in *. subst. apply Z.ltb_ge in Hsz. unfold file_size in Hsz.
  unfold kept_calls, failed_scope.
  unfold Scope.ensureFileOpen, Scope.rotateIfTooLarge, Scope.detectPreviousCrash.
  unfold Scope.lastLine, Scope.fout_open, Scope.set_initialized,
    Scope.set_crashChecked, Scope.get, Scope.with_fout, fs_exists,
    fs_file_size, ofstream_open, bind at 1 2 3 4 5 6 7 8 9 10 11 12, ret,
    has_file, is_open, note_call, with_fs, with_scope.
  cbn. rewrite He. cbn. rewrite He, Hsz. cbn. rewrite He, Hwr. cbn.
  rewrite He. cbn. rewrite He. cbn.
  fold (last_line (content f)).
  unfold bind at 1. rewrite detect_on_line.
  destruct (rfind BAR (last_line (content f))) eqn:Hr.
  - destruct (line_says_crash (last_line (content f))); cbn;
      rewrite <- ?app_assoc, ?app_nil_r; reflexivity.
  - rewrite (line_says_crash_no_bar _ Hr).
    cbn. rewrite <- ?app_assoc, ?app_nil_r. reflexivity.
Qed.

(** There is no diagnostics file yet: it is created, empty. *)
Lemma first_open_created (w : World) :
  fresh w ->
  entries (fs w) !! Scope.fileName = None ->
  dir_writable (fs w) = true ->
  Scope.ensureFileOpen w
  = (Val tt,
     MkWorld (FS (<[Scope.fileName := File EmptyString true]> (entries (fs w))) true)
             (opened_scope (count_ (scope w)) false) (logst w) (written w)
             (calls w ++ [CallExists Scope.fileName; CallOpenAppend Scope.fileName;
                          CallExists Scope.fileName; CallOpenRead Scope.fileName])).
Proof.
  intros (Hi & Hk & Hcl & Hf) He Hd.
  destruct w as [[en dw|] [c s i cl ck] lg wr cs].
  2: not_unsearchable.
  cbn in *. subst. unfold opened_scope.
  unfold_members. cbn. rewrite He. cbn. rewrite He. cbn.
  rewrite lookup_insert_eq. cbn. rewrite lookup_insert_eq. cbn.
  rewrite <- !app_assoc. reflexivity.
Qed.

(** There is no diagnostics file and none can be created. *)
Lemma first_open_denied (w : World) :
  fresh w ->
  searchable (fs w) = true ->
  entries (fs w) !! Scope.fileName = None ->
  dir_writable (fs w) = false ->
  Scope.ensureFileOpen w
  = (Val tt,
     MkWorld (fs w) (failed_scope (count_ (scope w)) false) (logst w) (written w)
             (calls w ++ [CallExists Scope.fileName; CallOpenAppend Scope.fileName;
                          CallExists Scope.fileName])).
Proof.
  intros (Hi & Hk & Hcl & Hf) Hs He Hd.
  destruct w as [[en dw|] [c s i cl ck] lg wr cs]; [| discriminate Hs].
  cbn in *. subst. unfold failed_scope.
  unfold_members. cbn. rewrite He. cbn. rewrite He. cbn. rewrite He. cbn.
  rewrite <- !app_assoc. reflexivity.
Qed.

(** The directory may not be searched: the first call of [fs::exists]
    throws, and nothing has changed. *)
Lemma first_open_unsearchable (w : World) :
  fresh w ->
  searchable (fs w) = false ->
  Scope.ensureFileOpen w
  = (Exc filesystem_error, more_calls [CallExists Scope.fileName] w).
Proof.
  intros (Hi & Hk & Hcl & Hf) Hs.
  destruct w as [[en dw|] [c s i cl ck] lg wr cs]; [discriminate Hs |].
  cbn in *. subst. reflexivity.
Qed.

End FirstOpen.

(* ===================================================================== *)
(** * After the first open                                                *)
(* ===================================================================== *)

Section Steady.

Lemma cannot_open_fails (d : filesystem) :
  cannot_open d ->
  ofstream_open Scope.fileName d (OFStream None true) = (d, OFStream None true).
Proof.
  unfold cannot_open, ofstream_open. cbn.
  destruct (entries d !! Scope.fileName) as [f|]; intros ->; reflexivity.
Qed.

Lemma ensureFileOpen_steady (w : World) :
  steady w ->
  Scope.ensureFileOpen w
  = (Val tt,
     if good (fout_ (scope w)) then w
     else MkWorld (fs w) (scope w) (logst w) (written w)
                  (calls w ++ [CallOpenAppend Scope.fileName])).
Proof.
  intros (Hi & [Hf | (Hf & Hc)]);
    destruct w as [d [c s i cl ck] lg wr cs]; cbn in *; subst.
  - reflexivity.
  - unfold Scope.ensureFileOpen, Scope.fout_open, Scope.get, bind, ret.
    cbn -[ofstream_open]. rewrite (cannot_open_fails d Hc). reflexivity.
Qed.

Lemma ensureFileOpen_steady_keeps (w : World) :
  steady w -> steady (snd (Scope.ensureFileOpen w)).
Proof.
  intros H. rewrite (ensureFileOpen_steady w H). cbn.
  destruct (good (fout_ (scope w))); [exact H |].
  destruct H as (Hi & H). split; assumption.
Qed.

Lemma log_steady (self : ScopeLogger) (ts phase : string) (w : World) :
  steady w ->
  Scope.log self ts phase w
  = (Val tt,
     logged (format_record ts (func_ self) phase (file_ self) (count_ (scope w))) w).
Proof.
  intros H. unfold Scope.log, bind at 1.
  rewrite (ensureFileOpen_steady w H).
  destruct H as (Hi & [Hf | (Hf & Hc)]);
    destruct w as [d [c s i cl ck] lg wr cs]; cbn in *; subst; reflexivity.
Qed.

Lemma logged_steady (text : string) (w : World) :
  steady w -> steady (logged text w).
Proof.
  intros (Hi & [Hf | (Hf & Hc)]); unfold logged, good; rewrite Hf; cbn.
  - split; [exact Hi | now left].
  - split; [exact Hi | right; now split].
Qed.

Lemma with_count_steady (n : Z) (w : World) : steady w -> steady (with_count n w).
Proof. intros H. exact H. Qed.

Lemma enter_steady (self : ScopeLogger) (ts : string) (w : World) :
  steady w ->
  enter self ts w
  = (Val self,
     with_count (wrap_int (count_ (scope w) + 1))
       (logged (format_record ts (func_ self) "start..." (file_ self)
                              (count_ (scope w)))
               (snd (Scope.ensureFileOpen w)))).
Proof.
  intros H. unfold enter, Scope.init, bind at 1.
  pose proof (ensureFileOpen_steady_keeps w H) as H1.
  rewrite (ensureFileOpen_steady w H) in *. cbn [snd] in *.
  unfold bind at 1. rewrite (log_steady self ts _ _ H1).
  destruct (good (fout_ (scope w))) eqn:Hg.
  - unfold logged. rewrite Hg. reflexivity.
  - unfold logged. cbn. unfold good in *. cbn. rewrite Hg. reflexivity.
Qed.

Lemma dtor_steady (self : ScopeLogger) (ts : string) (w : World) :
  steady w ->
  Scope.dtor self ts w
  = (Val tt,
     logged (format_record ts (func_ self) "end!" (file_ self)
                           (wrap_int (count_ (scope w) - 1)))
            (with_count (wrap_int (count_ (scope w) - 1)) w)).
Proof.
  intros H. unfold Scope.dtor, bind at 1.
  unfold Scope.count_decr, Scope.get, Scope.set_count, bind. cbn.
  apply (log_steady self ts "end!" (with_count _ w)), with_count_steady, H.
Qed.

End Steady.

(* ===================================================================== *)
(** * Runs of nested scopes                                               *)
(* ===================================================================== *)

Ltac steady_cases H w :=
  let Hi := fresh "Hi" in
  let Hf := fresh "Hf" in
  let Hc := fresh "Hc" in
  destruct H as (Hi & [Hf | (Hf & Hc)]);
  destruct w as [d0 [c0 s0 i0 cl0 ck0] lg0 wr0 cs0]; cbn in Hi, Hf; subst.

Ltac reopened :=
  eexists; split; [repeat rewrite <- app_assoc; reflexivity |];
  repeat constructor.

Section Runs.

Lemma join_app (a b : list string) : join (a ++ b) = join a ++ join b.
Proof.
  induction a as [|x a IH]; cbn [join app]; [reflexivity |].
  now rewrite IH, append_assoc.
Qed.

Lemma append_file_nil (d : filesystem) : append_file "" d = d.
Proof.
  destruct d as [en dw|]; [| reflexivity]. unfold append_file. cbn. f_equal.
  apply map_eq. intros j. rewrite lookup_alter.
  destruct (decide (Scope.fileName = j)) as [<-|]; [| reflexivity].
  destruct (en !! Scope.fileName) as [[c wr]|]; [| reflexivity].
  cbn. unfold append_to. cbn. now rewrite append_nil_r.
Qed.

Lemma append_file_app (a b : string) (d : filesystem) :
  append_file b (append_file a d) = append_file (a ++ b) d.
Proof.
  destruct d as [en dw|]; [| reflexivity]. unfold append_file. cbn. f_equal.
  apply map_eq. intros j.
  destruct (decide (Scope.fileName = j)) as [<-|Hne].
  - rewrite !lookup_alter_eq.
    destruct (en !! Scope.fileName) as [[c wr]|]; [| reflexivity].
    cbn. unfold append_to. cbn. now rewrite append_assoc.
  - now rewrite !lookup_alter_ne by exact Hne.
Qed.

Lemma cannot_open_append (text : string) (d : filesystem) :
  cannot_open d -> cannot_open (append_file text d).
Proof.
  unfold cannot_open, append_file.
  rewrite entries_map_alter, dir_writable_map_entries, lookup_alter_eq.
  destruct (entries d !! Scope.fileName) as [[c wr]|]; cbn; auto.
Qed.

Lemma reaches_refl (w : World) : reaches [] (count_ (scope w)) w w.
Proof.
  destruct w as [d [c s i cl ck] lg wr cs]. unfold reaches. cbn.
  repeat split.
  - destruct (good s); [now rewrite app_nil_r | reflexivity].
  - destruct (good s); [now rewrite append_file_nil | reflexivity].
  - exists []. split; [now rewrite app_nil_r | constructor].
Qed.

Lemma reaches_trans (r1 r2 : list string) (n1 n2 : Z) (w w1 w2 : World) :
  reaches r1 n1 w w1 -> reaches r2 n2 w1 w2 -> reaches (r1 ++ r2) n2 w w2.
Proof.
  intros (Hs1 & Hl1 & Hw1 & Hf1 & cs1 & Hc1 & HF1)
         (Hs2 & Hl2 & Hw2 & Hf2 & cs2 & Hc2 & HF2).
  assert (fout_ (scope w1) = fout_ (scope w)) as Hfo by now rewrite Hs1.
  rewrite Hfo in *.
  unfold reaches. repeat split.
  - rewrite Hs2. unfold with_count. cbn. rewrite Hs1. reflexivity.
  - congruence.
  - rewrite Hw2, Hw1. destruct (good (fout_ (scope w))); [| reflexivity].
    now rewrite app_assoc.
  - rewrite Hf2, Hf1. destruct (good (fout_ (scope w))); [| reflexivity].
    now rewrite append_file_app, join_app.
  - exists (cs1 ++ cs2)%list. split.
    + now rewrite Hc2, Hc1, app_assoc.
    + now apply Forall_app.
Qed.

Lemma reaches_steady (recs : list string) (n : Z) (w w1 : World) :
  steady w -> reaches recs n w w1 -> steady w1.
Proof.
  intros (Hi & Hst) (Hs & _ & _ & Hf & _). unfold steady.
  rewrite Hs. cbn. split; [exact Hi |].
  destruct Hst as [Hg | (Hg & Hc)]; [now left | right].
  split; [exact Hg |]. rewrite Hf. unfold good. rewrite Hg. exact Hc.
Qed.

Lemma join_one (text : string) : join [text] = text.
Proof. cbn [join]. apply append_nil_r. Qed.

Lemma enter_reaches (self : ScopeLogger) (ts : string) (w : World) :
  steady w ->
  exists w1,
    enter self ts w = (Val self, w1) /\
    reaches [format_record ts (func_ self) "start..." (file_ self) (count_ (scope w))]
            (wrap_int (count_ (scope w) + 1)) w w1.
Proof.
  intros H. eexists. split; [apply (enter_steady self ts w H) |].
  rewrite (ensureFileOpen_steady w H). unfold reaches, logged.
  steady_cases H w; cbn; rewrite ?append_nil_r; repeat apply conj;
    try reflexivity.
  - exists []. split; [now rewrite app_nil_r | constructor].
  - reopened.
Qed.

Lemma log_reaches (self : ScopeLogger) (ts phase : string) (w : World) :
  steady w ->
  exists w1,
    Scope.log self ts phase w = (Val tt, w1) /\
    reaches [format_record ts (func_ self) phase (file_ self) (count_ (scope w))]
            (count_ (scope w)) w w1.
Proof.
  intros H. eexists. split; [apply (log_steady self ts phase w H) |].
  unfold reaches, logged.
  steady_cases H w; cbn; rewrite ?append_nil_r; repeat apply conj;
    try reflexivity.
  - exists []. split; [now rewrite app_nil_r | constructor].
  - reopened.
Qed.

Lemma dtor_reaches (self : ScopeLogger) (ts : string) (w : World) :
  steady w ->
  exists w1,
    Scope.dtor self ts w = (Val tt, w1) /\
    reaches [format_record ts (func_ self) "end!" (file_ self)
                           (wrap_int (count_ (scope w) - 1))]
            (wrap_int (count_ (scope w) - 1)) w w1.
Proof.
  intros H. eexists. split; [apply (dtor_steady self ts w H) |].
  unfold reaches, logged.
  steady_cases H w; cbn; rewrite ?append_nil_r; repeat apply conj;
    try reflexivity.
  - exists []. split; [now rewrite app_nil_r | constructor].
  - reopened.
Qed.

Lemma step_steady (e : event) (stk : list ScopeLogger) (w : World) :
  steady w ->
  exists w1,
    step e stk w = (Val (stack_step e stk), w1) /\
    reaches (record_of e stk (count_ (scope w)))
            (count_step e stk (count_ (scope w))) w w1.
Proof.
  intros H. destruct e as [ts func file line | ts func name file line | ts msg | ts];
    cbn [step stack_step record_of count_step].
  - rewrite ctor_enter.
    destruct (enter_reaches (MkScopeLogger func file line) ts w H) as (w1 & E & R).
    exists w1. unfold bind. rewrite E. split; [reflexivity | exact R].
  - rewrite ctor_named_enter.
    destruct (enter_reaches (MkScopeLogger (func ++ ":" ++ name) file line) ts w H)
      as (w1 & E & R).
    exists w1. unfold bind. rewrite E. split; [reflexivity | exact R].
  - destruct stk as [|self rest].
    + exists w. split; [reflexivity | apply reaches_refl].
    + destruct (log_reaches self ts msg w H) as (w1 & E & R).
      exists w1. unfold bind, Scope.here. rewrite E. split; [reflexivity | exact R].
  - destruct stk as [|self rest].
    + exists w. split; [reflexivity | apply reaches_refl].
    + destruct (dtor_reaches self ts w H) as (w1 & E & R).
      exists w1. unfold bind. rewrite E. split; [reflexivity | exact R].
Qed.

(** A run that starts after the first open never throws; it writes the
    records of its events, or nothing at all when the stream has failed. *)
Lemma run_steady (tr : list event) (stk : list ScopeLogger) (w : World) :
  steady w ->
  exists w1,
    run tr stk w = (Val (stack_after tr stk), w1) /\
    reaches (records_from tr stk (count_ (scope w)))
            (count_after tr stk (count_ (scope w))) w w1.
Proof.
  revert stk w. induction tr as [|e tr IH]; intros stk w H.
  - exists w. split; [reflexivity | apply reaches_refl].
  - destruct (step_steady e stk w H) as (w1 & E & R).
    pose proof (reaches_steady _ _ _ _ H R) as H1.
    destruct (IH (stack_step e stk) w1 H1) as (w2 & E2 & R2).
    exists w2. cbn [run records_from count_after stack_after].
    unfold bind. rewrite E. split; [exact E2 |].
    assert (count_ (scope w1) = count_step e stk (count_ (scope w))) as Hc
      by (destruct R as (-> & _); reflexivity).
    rewrite Hc in R2. exact (reaches_trans _ _ _ _ _ _ _ R R2).
Qed.

End Runs.

(* ===================================================================== *)
(** * Runs of a process that has just started                             *)
(* ===================================================================== *)

Section FromBoot.

(** The first open either throws, out of the first look at the directory
    or out of the rotation, leaving everything as it was, or ends in a
    steady state. *)
Lemma first_open_cases (w : World) :
  fresh w ->
  (exists cs, Scope.ensureFileOpen w = (Exc filesystem_error, more_calls cs w)) \/
  (exists w0, Scope.ensureFileOpen w = (Val tt, w0) /\ steady w0 /\
              count_ (scope w0) = count_ (scope w)).
Proof.
  intros Hf.
  destruct (searchable (fs w)) eqn:Hs;
    [| left; eexists; apply (first_open_unsearchable w Hf Hs)].
  destruct (entries (fs w) !! Scope.fileName) as [f|] eqn:He.
  - destruct (Z.lt_ge_cases (2 * 1024 * 1024) (file_size f)) as [Hbig | Hsmall].
    + destruct (dir_writable (fs w)) eqn:Hd.
      * right. eexists. split; [apply (first_open_rotated w f Hf He Hbig Hd) |].
        split; [| reflexivity]. split; [reflexivity | now left].
      * left. eexists. apply (first_open_refused w f Hf He Hbig Hd).
    + destruct (writable f) eqn:Hw.
      * right. eexists. split; [apply (first_open_kept w f Hf He Hsmall Hw) |].
        split; [| reflexivity]. split; [reflexivity | now left].
      * right. eexists. split; [apply (first_open_readonly w f Hf He Hsmall Hw) |].
        split; [| reflexivity]. split; [reflexivity | right].
        split; [reflexivity |]. unfold cannot_open. cbn. now rewrite He.
  - destruct (dir_writable (fs w)) eqn:Hd.
    + right. eexists. split; [apply (first_open_created w Hf He Hd) |].
      split; [| reflexivity]. split; [reflexivity | now left].
    + right. eexists. split; [apply (first_open_denied w Hf Hs He Hd) |].
      split; [| reflexivity]. split; [reflexivity | right].
      split; [reflexivity |]. unfold cannot_open. cbn. now rewrite He.
Qed.

Lemma enter_after_open (self : ScopeLogger) (ts : string) (w w0 : World) :
  Scope.ensureFileOpen w = (Val tt, w0) ->
  steady w0 ->
  exists w1,
    enter self ts w = (Val self, w1) /\
    reaches [format_record ts (func_ self) "start..." (file_ self) (count_ (scope w0))]
            (wrap_int (count_ (scope w0) + 1)) w0 w1.
Proof.
  intros E H. unfold enter, Scope.init, bind at 1. rewrite E.
  unfold bind at 1. rewrite (log_steady self ts _ _ H).
  unfold logged, reaches. steady_cases H w0; cbn.
  - eexists. split; [reflexivity |]. cbn. rewrite ?append_nil_r.
    repeat apply conj; try reflexivity.
    exists []. split; [now rewrite app_nil_r | constructor].
  - eexists. split; [reflexivity |]. cbn.
    repeat apply conj; try reflexivity. reopened.
Qed.

Lemma enter_refused (self : ScopeLogger) (ts : string) (w w' : World) (e : exn) :
  Scope.ensureFileOpen w = (Exc e, w') -> enter self ts w = (Exc e, w').
Proof. intros E. unfold enter, Scope.init, bind at 1. now rewrite E. Qed.

Lemma run_cons_val (e : event) (tr : list event) (stk stk' : list ScopeLogger)
      (w w' : World) :
  step e stk w = (Val stk', w') -> run (e :: tr) stk w = run tr stk' w'.
Proof. intros E. cbn [run]. unfold bind. now rewrite E. Qed.

Lemma run_cons_exc (e : event) (tr : list event) (stk : list ScopeLogger)
      (w w' : World) (x : exn) :
  step e stk w = (Exc x, w') -> run (e :: tr) stk w = (Exc x, w').
Proof. intros E. cbn [run]. unfold bind. now rewrite E. Qed.

(** Every run of a fresh process, from the empty stack: nothing is
    entered and nothing happens; or the first open throws, which ends the
    run; or the first open succeeds and the run goes on from the steady
    state it leaves. *)
Lemma run_fresh (tr : list event) (w : World) :
  fresh w ->
  let c := count_ (scope w) in
  (run tr [] w = (Val (stack_after tr []), w) /\
   records_from tr [] c = [] /\ count_after tr [] c = c)
  \/
  (exists cs,
      Scope.ensureFileOpen w = (Exc filesystem_error, more_calls cs w) /\
      run tr [] w = (Exc filesystem_error, more_calls cs w))
  \/
  (exists w0 w1,
      Scope.ensureFileOpen w = (Val tt, w0) /\ steady w0 /\
      count_ (scope w0) = c /\
      run tr [] w = (Val (stack_after tr []), w1) /\
      reaches (records_from tr [] c) (count_after tr [] c) w0 w1).
Proof.
  intros Hf c. induction tr as [|e tr IH].
  - left. repeat split.
  - assert (Hskip : step e [] w = (Val [], w) -> stack_step e [] = [] ->
                    record_of e [] c = [] -> count_step e [] c = c ->
                    (run (e :: tr) [] w = (Val (stack_after (e :: tr) []), w) /\
                     records_from (e :: tr) [] c = [] /\
                     count_after (e :: tr) [] c = c)
                    \/
                    (exists cs,
                        Scope.ensureFileOpen w = (Exc filesystem_error, more_calls cs w) /\
                        run (e :: tr) [] w = (Exc filesystem_error, more_calls cs w))
                    \/
                    (exists w0 w1,
                        Scope.ensureFileOpen w = (Val tt, w0) /\ steady w0 /\
                        count_ (scope w0) = c /\
                        run (e :: tr) [] w = (Val (stack_after (e :: tr) []), w1) /\
                        reaches (records_from (e :: tr) [] c)
                                (count_after (e :: tr) [] c) w0 w1)).
    { intros Es Hs Hr Hc.
      rewrite (run_cons_val e tr [] [] w w Es).
      cbn [stack_after records_from count_after].
      rewrite Hs, Hr, Hc. exact IH. }
    assert (Henter : forall self ts,
               step e [] w = (self' <- enter self ts ;; ret (self' :: [])) w ->
               stack_step e [] = [self] ->
               record_of e [] c = [format_record ts (func_ self) "start..." (file_ self) c] ->
               count_step e [] c = wrap_int (c + 1) ->
               (exists cs,
                   Scope.ensureFileOpen w = (Exc filesystem_error, more_calls cs w) /\
                   run (e :: tr) [] w = (Exc filesystem_error, more_calls cs w))
               \/
               (exists w0 w1,
                   Scope.ensureFileOpen w = (Val tt, w0) /\ steady w0 /\
                   count_ (scope w0) = c /\
                   run (e :: tr) [] w = (Val (stack_after (e :: tr) []), w1) /\
                   reaches (records_from (e :: tr) [] c)
                           (count_after (e :: tr) [] c) w0 w1)).
    { intros self ts Es Hs Hr Hc.
      cbn [stack_after records_from count_after].
      rewrite Hs, Hr, Hc.
      destruct (first_open_cases w Hf) as [(cs & E) | (w0 & E & H0 & Hc0)].
      - left. exists cs. split; [exact E |].
        apply run_cons_exc. rewrite Es. unfold bind.
        now rewrite (enter_refused self ts w _ _ E).
      - right. exists w0.
        destruct (enter_after_open self ts w w0 E H0) as (w1 & E1 & R1).
        pose proof (reaches_steady _ _ _ _ H0 R1) as H1.
        destruct (run_steady tr [self] w1 H1) as (w2 & E2 & R2).
        exists w2. split; [exact E |]. split; [exact H0 |]. split; [exact Hc0 |].
        assert (Es' : step e [] w = (Val [self], w1))
          by (rewrite Es; unfold bind; now rewrite E1).
        rewrite (run_cons_val e tr [] [self] w w1 Es').
        split; [exact E2 |].
        assert (count_ (scope w1) = wrap_int (c + 1)) as Hc1.
        { destruct R1 as (-> & _). cbn. now rewrite Hc0. }
        rewrite Hc1 in R2. fold c in Hc0. rewrite Hc0 in R1.
        exact (reaches_trans _ _ _ _ _ _ _ R1 R2). }
    destruct e as [ts func file line | ts func name file line | ts msg | ts].
    + right. apply (Henter (MkScopeLogger func file line) ts); reflexivity.
    + right. apply (Henter (MkScopeLogger (func ++ ":" ++ name) file line) ts);
        reflexivity.
    + apply Hskip; reflexivity.
    + apply Hskip; reflexivity.
Qed.

End FromBoot.

(* ===================================================================== *)
(** * The properties of the diagnostics subsystem                         *)
(* ===================================================================== *)

Section OpenStream.

Lemma stream_open_steady (w : World) : stream_open w -> steady w.
Proof. intros (Hi & Hf). split; [exact Hi | now left]. Qed.

(** What an operation that ends in [reaches] has done, when the stream is
    open and good: the counter, the text written, and the file. *)
Lemma reaches_open (recs : list string) (n : Z) (w w1 : World) (f : file) :
  stream_open w ->
  entries (fs w) !! Scope.fileName = Some f ->
  reaches recs n w w1 ->
  count_ (scope w1) = n /\
  written w1 = (written w ++ recs)%list /\
  entries (fs w1) !! Scope.fileName
  = Some (File (content f ++ join recs) (writable f)).
Proof.
  intros (_ & Hf) He (Hs & _ & Hw & Hfs & _).
  rewrite Hf in Hw, Hfs. cbn [good failed negb] in Hw, Hfs.
  split; [now rewrite Hs |]. split; [exact Hw |].
  now rewrite Hfs, entries_append_file, lookup_alter_eq, He.
Qed.

End OpenStream.

(** C1.  In every state of the process, a constructor of [ScopeLogger]
    writes its Start record with the value the shared counter has before
    the increment, and the destructor writes its End record with the value
    the counter has after the decrement.  The record is the only thing
    written, apart from the crash marker of a first open, and it is written
    exactly when the stream is good; the counter moves by one (as an [int])
    in every case in which the operation returns.  When the stream is open
    on the diagnostics file and good, the operation does return, the
    record is what it adds to what has been written, and the record is
    appended to the file. *)
Theorem start_count_before_increment_end_count_after_decrement :
  (forall ts func file line w,
      match Scope.ctor ts func file line w with
      | (Val self, w') =>
          count_ (scope w') = wrap_int (count_ (scope w) + 1) /\
          exists pre,
            marker_or_nothing pre /\
            written w' =
              if good (fout_ (scope w'))
              then (written w ++ pre ++
                    [format_record ts func "start..." file (count_ (scope w))])%list
              else written w
      | (Exc _, w') =>
          count_ (scope w') = count_ (scope w) /\ written w' = written w
      end) /\
  (forall ts func name file line w,
      match Scope.ctor_named ts func name file line w with
      | (Val self, w') =>
          count_ (scope w') = wrap_int (count_ (scope w) + 1) /\
          exists pre,
            marker_or_nothing pre /\
            written w' =
              if good (fout_ (scope w'))
              then (written w ++ pre ++
                    [format_record ts (func ++ ":" ++ name) "start..." file
                                   (count_ (scope w))])%list
              else written w
      | (Exc _, w') =>
          count_ (scope w') = count_ (scope w) /\ written w' = written w
      end) /\
  (forall self ts w,
      match Scope.dtor self ts w with
      | (Val _, w') =>
          count_ (scope w') = wrap_int (count_ (scope w) - 1) /\
          exists pre,
            marker_or_nothing pre /\
            written w' =
              if good (fout_ (scope w'))
              then (written w ++ pre ++
                    [format_record ts (func_ self) "end!" (file_ self)
                                   (count_ (scope w'))])%list
              else written w
      | (Exc _, w') =>
          count_ (scope w') = wrap_int (count_ (scope w) - 1) /\
          written w' = written w
      end) /\
  (forall ts func file line w f,
      stream_open w ->
      entries (fs w) !! Scope.fileName = Some f ->
      let start := format_record ts func "start..." file (count_ (scope w)) in
      exists w',
        Scope.ctor ts func file line w = (Val (MkScopeLogger func file line), w') /\
        count_ (scope w') = wrap_int (count_ (scope w) + 1) /\
        written w' = (written w ++ [start])%list /\
        entries (fs w') !! Scope.fileName
        = Some (File (content f ++ start) (writable f))) /\
  (forall ts func name file line w f,
      stream_open w ->
      entries (fs w) !! Scope.fileName = Some f ->
      let start := format_record ts (func ++ ":" ++ name) "start..." file
                                 (count_ (scope w)) in
      exists w',
        Scope.ctor_named ts func name file line w
        = (Val (MkScopeLogger (func ++ ":" ++ name) file line), w') /\
        count_ (scope w') = wrap_int (count_ (scope w) + 1) /\
        written w' = (written w ++ [start])%list /\
        entries (fs w') !! Scope.fileName
        = Some (File (content f ++ start) (writable f))) /\
  (forall self ts w f,
      stream_open w ->
      entries (fs w) !! Scope.fileName = Some f ->
      let finish := format_record ts (func_ self) "end!" (file_ self)
                                  (wrap_int (count_ (scope w) - 1)) in
      exists w',
        Scope.dtor self ts w = (Val tt, w') /\
        count_ (scope w') = wrap_int (count_ (scope w) - 1) /\
        written w' = (written w ++ [finish])%list /\
        entries (fs w') !! Scope.fileName
        = Some (File (content f ++ finish) (writable f))).
Proof.
  repeat apply conj.
  - intros ts func file line w. rewrite ctor_enter.
    pose proof (enter_frame (MkScopeLogger func file line) ts w) as F.
    destruct (enter _ ts w) as [[self|e] w'].
    + destruct F as (_ & Hc & _ & _ & _ & pre & Hm & _ & Hw).
      split; [exact Hc |]. exists pre. split; [exact Hm | exact Hw].
    + destruct F as (_ & Hs & _ & _ & Hw & _). now rewrite Hs.
  - intros ts func name file line w. rewrite ctor_named_enter.
    pose proof (enter_frame (MkScopeLogger (func ++ ":" ++ name) file line) ts w) as F.
    destruct (enter _ ts w) as [[self|e] w'].
    + destruct F as (_ & Hc & _ & _ & _ & pre & Hm & _ & Hw).
      split; [exact Hc |]. exists pre. split; [exact Hm | exact Hw].
    + destruct F as (_ & Hs & _ & _ & Hw & _). now rewrite Hs.
  - intros self ts w. pose proof (dtor_frame self ts w) as F.
    destruct (Scope.dtor self ts w) as [[[]|e] w'].
    + destruct F as (Hc & _ & _ & _ & _ & pre & Hm & _ & Hw).
      split; [exact Hc |]. exists pre. split; [exact Hm | exact Hw].
    + destruct F as (_ & Hc & _ & Hw & _). split; assumption.
  - intros ts func file line w f Ho He start. rewrite ctor_enter.
    destruct (enter_reaches (MkScopeLogger func file line) ts w
                (stream_open_steady w Ho)) as (w' & E & R).
    exists w'. split; [exact E |].
    destruct (reaches_open _ _ w w' f Ho He R) as (Hc & Hw & Hf).
    rewrite join_one in Hf. repeat split; assumption.
  - intros ts func name file line w f Ho He start. rewrite ctor_named_enter.
    destruct (enter_reaches (MkScopeLogger (func ++ ":" ++ name) file line) ts w
                (stream_open_steady w Ho)) as (w' & E & R).
    exists w'. split; [exact E |].
    destruct (reaches_open _ _ w w' f Ho He R) as (Hc & Hw & Hf).
    rewrite join_one in Hf. repeat split; assumption.
  - intros self ts w f Ho He finish.
    destruct (dtor_reaches self ts w (stream_open_steady w Ho)) as (w' & E & R).
    exists w'. split; [exact E |].
    destruct (reaches_open _ _ w w' f Ho He R) as (Hc & Hw & Hf).
    rewrite join_one in Hf. repeat split; assumption.
Qed.

(** A scope inside the first one of a process, in an empty directory: the
    Start record shows the count 1 and is appended to the file. *)
Lemma start_count_before_increment_end_count_after_decrement_witness :
  let w := snd (run [Enter "10:00:00" "main" "main.cpp" 3] [] (boot (FS ∅ true))) in
  let f := File (format_record "10:00:00" "main" "start..." "main.cpp" 0) true in
  let start := format_record "10:00:01" "work" "start..." "work.cpp" 1 in
  exists w',
    Scope.ctor "10:00:01" "work" "work.cpp" 7 w
    = (Val (MkScopeLogger "work" "work.cpp" 7), w') /\
    count_ (scope w') = 2 /\
    written w' = (written w ++ [start])%list /\
    entries (fs w') !! Scope.fileName = Some (File (content f ++ start) (writable f)).
Proof.
  intros w f start.
  destruct start_count_before_increment_end_count_after_decrement
    as (_ & _ & _ & H & _).
  apply (H "10:00:01" "work" "work.cpp" 7 w f).
  - split; reflexivity.
  - vm_compute. reflexivity.
Defined.

(** C7.  [ensureFileOpen] is idempotent.  Once a call has returned, the
    one-time flag is set, and a second call returns as well, makes no call
    of [std::filesystem] (no existence or size check, no remove, no
    rename), and leaves the directory, the static members and what has
    been written as they are; it does nothing at all when the stream is
    open, and otherwise only tries to open the stream once more. *)
Theorem ensureFileOpen_idempotent (w w1 : World) :
  Scope.ensureFileOpen w = (Val tt, w1) ->
  initialized_ (scope w1) = true /\
  exists w2,
    Scope.ensureFileOpen w1 = (Val tt, w2) /\
    fs w2 = fs w1 /\ scope w2 = scope w1 /\ logst w2 = logst w1 /\
    written w2 = written w1 /\
    (exists cs, calls w2 = (calls w1 ++ cs)%list /\ Forall reopen cs) /\
    (is_open (fout_ (scope w1)) = true -> w2 = w1).
Proof.
  intros E. pose proof (ensureFileOpen_frame w) as F. rewrite E in F.
  destruct F as (_ & _ & Hi & _ & _ & Hclosed & _).
  split; [exact Hi |].
  destruct (is_open (fout_ (scope w1))) eqn:Ho.
  - pose proof (ensureFileOpen_frame w1) as F1.
    destruct (Scope.ensureFileOpen w1) as [[[]|e] w2].
    + destruct F1 as (_ & _ & _ & _ & Hsame & _).
      rewrite (Hsame Hi Ho). exists w1. repeat apply conj; try reflexivity.
      * exists []. split; [now rewrite app_nil_r | constructor].
    + destruct F1 as (_ & _ & _ & _ & _ & F1 & _). congruence.
  - destruct (Hclosed eq_refl) as (Hf & Hc).
    assert (H1 : steady w1) by (split; [exact Hi | right; now split]).
    rewrite (ensureFileOpen_steady w1 H1). unfold good. rewrite Hf. cbn.
    eexists. split; [reflexivity |]. cbn.
    repeat apply conj; try reflexivity.
    + exists [CallOpenAppend Scope.fileName]. split; [reflexivity |].
      repeat constructor.
    + discriminate.
Qed.

(** The theorem at a process that starts in an empty, writable directory. *)
Lemma ensureFileOpen_idempotent_witness :
  exists w1 w2,
    Scope.ensureFileOpen (boot (FS ∅ true)) = (Val tt, w1) /\
    Scope.ensureFileOpen w1 = (Val tt, w2) /\ w2 = w1.
Proof.
  assert (E : Scope.ensureFileOpen (boot (FS ∅ true))
              = (Val tt, snd (Scope.ensureFileOpen (boot (FS ∅ true)))))
    by (vm_compute; reflexivity).
  destruct (ensureFileOpen_idempotent _ _ E)
    as (_ & w2 & E2 & _ & _ & _ & _ & _ & Hsame).
  exists (snd (Scope.ensureFileOpen (boot (FS ∅ true)))), w2.
  split; [exact E |]. split; [exact E2 |].
  apply Hsame. vm_compute. reflexivity.
Defined.

(** ** The line number of a scope *)

Section LineNumbers.

Lemma log_ignores_line (self : ScopeLogger) :
  Scope.log (erase_obj self) = Scope.log self.
Proof. reflexivity. Qed.

Lemma enter_ignores_line (self : ScopeLogger) (ts : string) (w : World) :
  snd (enter (erase_obj self) ts w) = snd (enter self ts w) /\
  match fst (enter (erase_obj self) ts w), fst (enter self ts w) with
  | Val a, Val b => a = erase_obj self /\ b = self
  | Exc x, Exc y => x = y
  | _, _ => False
  end.
Proof.
  unfold enter, bind. rewrite log_ignores_line.
  destruct (Scope.init w) as [[[]|x] w1]; [| cbn; auto].
  destruct (Scope.log self ts "start..." w1) as [[[]|x] w2]; [| cbn; auto].
  destruct (Scope.count_incr w2) as [[[]|x] w3]; cbn; auto.
Qed.

Lemma step_ignores_line (e : event) (stk : list ScopeLogger) (w : World) :
  step (erase_line e) (map erase_obj stk) w
  = (on_stack (map erase_obj) (fst (step e stk w)), snd (step e stk w)).
Proof.
  destruct e as [ts func file line | ts func name file line | ts msg | ts];
    cbn [step erase_line].
  - rewrite !ctor_enter.
    destruct (enter_ignores_line (MkScopeLogger func file line) ts w) as (Hw & Hr).
    unfold erase_obj in *. cbn [func_ file_] in *. unfold bind.
    destruct (enter (MkScopeLogger func file 0) ts w) as [[a|x] w1];
      destruct (enter (MkScopeLogger func file line) ts w) as [[b|y] w2];
      cbn in *; subst; try contradiction; [destruct Hr as (-> & ->) |];
      reflexivity.
  - rewrite !ctor_named_enter.
    destruct (enter_ignores_line (MkScopeLogger (func ++ ":" ++ name) file line) ts w)
      as (Hw & Hr).
    unfold erase_obj in *. cbn [func_ file_] in *. unfold bind.
    destruct (enter (MkScopeLogger (func ++ ":" ++ name) file 0) ts w) as [[a|x] w1];
      destruct (enter (MkScopeLogger (func ++ ":" ++ name) file line) ts w)
        as [[b|y] w2];
      cbn in *; subst; try contradiction; [destruct Hr as (-> & ->) |];
      reflexivity.
  - destruct stk as [|self rest]; [reflexivity |].
    cbn [map]. unfold Scope.here, bind. rewrite log_ignores_line.
    destruct (Scope.log self ts msg w) as [[[]|x] w1]; reflexivity.
  - destruct stk as [|self rest]; [reflexivity |].
    cbn [map]. unfold Scope.dtor, bind. rewrite log_ignores_line.
    destruct (Scope.count_decr w) as [[[]|x] w1]; [| reflexivity].
    destruct (Scope.log self ts "end!" w1) as [[[]|x] w2]; reflexivity.
Qed.

Lemma run_ignores_line (tr : list event) (stk : list ScopeLogger) (w : World) :
  run (map erase_line tr) (map erase_obj stk) w
  = (on_stack (map erase_obj) (fst (run tr stk w)), snd (run tr stk w)).
Proof.
  revert stk w. induction tr as [|e tr IH]; intros stk w; [reflexivity |].
  cbn [run map]. unfold bind. rewrite step_ignores_line.
  destruct (step e stk w) as [[stk1|x] w1]; cbn [fst snd on_stack];
    [apply IH | reflexivity].
Qed.

End LineNumbers.

(** C10.  No record depends on the [line] argument of a constructor: two
    runs that differ only in the line numbers passed to the constructors
    (and in the line numbers stored in the scopes that are already open)
    leave the same process state (the same diagnostics file, the same
    texts written, the same counter) and the same stack of open scopes up
    to the stored line numbers. *)
Theorem records_independent_of_line
        (tr1 tr2 : list event) (stk1 stk2 : list ScopeLogger) (w : World) :
  map erase_line tr1 = map erase_line tr2 ->
  map erase_obj stk1 = map erase_obj stk2 ->
  snd (run tr1 stk1 w) = snd (run tr2 stk2 w) /\
  written (snd (run tr1 stk1 w)) = written (snd (run tr2 stk2 w)) /\
  fs (snd (run tr1 stk1 w)) = fs (snd (run tr2 stk2 w)) /\
  on_stack (map erase_obj) (fst (run tr1 stk1 w))
  = on_stack (map erase_obj) (fst (run tr2 stk2 w)).
Proof.
  intros Ht Hs.
  pose proof (run_ignores_line tr1 stk1 w) as H1.
  pose proof (run_ignores_line tr2 stk2 w) as H2.
  rewrite Ht, Hs, H2 in H1. injection H1 as Hr Hw.
  rewrite <- Hw. repeat split; congruence.
Qed.

(** The same scope, entered from line 10 and from line 99. *)
Lemma records_independent_of_line_witness :
  let tr l := [Enter "2026-11-03 10:00:00" "foo" "file.cpp" l;
               Annotate "2026-11-03 10:00:01" "halfway";
               Leave "2026-11-03 10:00:02"] in
  written (snd (run (tr 10) [] (boot (FS ∅ true))))
  = written (snd (run (tr 99) [] (boot (FS ∅ true)))).
Proof.
  intros tr.
  apply (records_independent_of_line (tr 10) (tr 99) [] [] (boot (FS ∅ true)));
    reflexivity.
Defined.

(** ** What a whole run writes *)

Section WholeRuns.

Lemma record_of_not_marker (e : event) (stk : list ScopeLogger) (c : Z) :
  ~ In crash_marker (record_of e stk c).
Proof.
  destruct e as [ts func file line | ts func name file line | ts msg | ts];
    destruct stk as [|self rest]; cbn [record_of In];
    try (intros [H | []]; exact (format_record_not_marker _ _ _ _ _ H));
    intros [].
Qed.

Lemma records_not_marker (tr : list event) (stk : list ScopeLogger) (c : Z) :
  ~ In crash_marker (records_from tr stk c).
Proof.
  revert stk c. induction tr as [|e tr IH]; intros stk c; cbn [records_from].
  - intros [].
  - intros H. apply in_app_or in H as [H | H].
    + exact (record_of_not_marker e stk c H).
    + exact (IH _ _ H).
Qed.

(** A run of a process that has just started, from the empty stack. *)
Lemma run_boot (d : filesystem) (tr : list event) :
  match run tr [] (boot d) with
  | (Val stk, w') =>
      stk = stack_after tr [] /\
      count_ (scope w') = count_after tr [] 0 /\
      exists pre,
        marker_or_nothing pre /\
        written w' = if good (fout_ (scope w'))
                     then (pre ++ records_from tr [] 0)%list
                     else []
  | (Exc e, w') =>
      e = filesystem_error /\ written w' = [] /\ count_ (scope w') = 0 /\ fs w' = d
  end.
Proof.
  destruct (run_fresh tr (boot d) (fresh_boot d))
    as [(E & Hr & Hc) | [(cs & _ & E) | (w0 & w1 & E0 & H0 & Hc0 & E & R)]];
    rewrite E.
  - cbn in Hr, Hc. rewrite Hr, Hc. repeat split. exists []. split; [now left |].
    reflexivity.
  - repeat split.
  - cbn in R. destruct R as (Hs & _ & Hw & _).
    split; [reflexivity |]. split; [now rewrite Hs |].
    pose proof (ensureFileOpen_frame (boot d)) as F. rewrite E0 in F.
    destruct F as (_ & _ & _ & _ & _ & _ & F). cbn in F.
    assert (Hg : good (fout_ (scope w1)) = good (fout_ (scope w0)))
      by now rewrite Hs.
    rewrite Hg, Hw.
    destruct F as [F | (F & Hgood & _)].
    + exists []. split; [now left |]. rewrite F.
      destruct (good (fout_ (scope w0))); reflexivity.
    + exists [crash_marker]. split; [now right |]. rewrite F.
      unfold good. rewrite Hgood. reflexivity.
Qed.

End WholeRuns.



(** ** Nesting depth *)

Section Nesting.

Lemma peak_ge (tr : list event) (depth : nat) : (depth <= peak tr depth)%nat.
Proof.
  revert depth. induction tr as [|e tr IH]; intros depth; cbn [peak]; [lia |].
  destruct e;
    [specialize (IH (S depth)); lia | specialize (IH (S depth)); lia
    | apply IH | lia].
Qed.

Lemma wrap_int_small (z : Z) : INT_MIN <= z <= INT_MAX -> wrap_int z = z.
Proof.
  unfold INT_MIN, INT_MAX, wrap_int. intros H.
  rewrite Z.mod_small by lia. lia.
Qed.

Lemma wrap_int_add (a b : Z) : wrap_int (wrap_int a + b) = wrap_int (a + b).
Proof.
  unfold wrap_int. f_equal.
  replace ((a + 2147483648) mod 4294967296 - 2147483648 + b + 2147483648)
    with ((a + 2147483648) mod 4294967296 + b) by lia.
  rewrite Zplus_mod_idemp_l. f_equal. lia.
Qed.

(** Within the range of [int], the counter is the stack depth. *)
Lemma records_from_nested (tr : list event) (stk : list ScopeLogger) :
  well_nested tr (length stk) = true ->
  Z.of_nat (peak tr (length stk)) <= INT_MAX ->
  let depth := Z.of_nat (length stk) in
  records_from tr stk depth = map print (nested_records tr stk depth) /\
  count_after tr stk depth = depth_after tr depth /\
  0 <= depth_after tr depth /\
  Forall (fun r => 0 <= r_count r) (nested_records tr stk depth).
Proof.
  revert stk. induction tr as [|e tr IH]; intros stk Hwn Hpk depth.
  - cbn. repeat split; [subst depth; lia | constructor].
  - assert (Hd : (length stk <= peak (e :: tr) (length stk))%nat) by apply peak_ge.
    assert (Hr : INT_MIN <= depth <= INT_MAX)
      by (subst depth; unfold INT_MIN, INT_MAX in *; lia).
    destruct e as [ts func file line | ts func name file line | ts msg | ts];
      cbn [well_nested peak] in Hwn, Hpk;
      cbn [records_from count_after depth_after nested_records record_of
           stack_step count_step map].
    + assert (Hs : (S (length stk) <= peak tr (S (length stk)))%nat) by apply peak_ge.
      rewrite (wrap_int_small (depth + 1))
        by (subst depth; unfold INT_MIN, INT_MAX in *; lia).
      replace (depth + 1) with (Z.of_nat (length (MkScopeLogger func file line :: stk)))
        by (subst depth; cbn [length]; lia).
      destruct (IH (MkScopeLogger func file line :: stk) Hwn Hpk) as (H1 & H2 & H3 & H4).
      cbn [app]. rewrite H1. repeat split; auto.
      constructor; [cbn; subst depth; lia | exact H4].
    + assert (Hs : (S (length stk) <= peak tr (S (length stk)))%nat) by apply peak_ge.
      rewrite (wrap_int_small (depth + 1))
        by (subst depth; unfold INT_MIN, INT_MAX in *; lia).
      replace (depth + 1)
        with (Z.of_nat (length (MkScopeLogger (func ++ ":" ++ name) file line :: stk)))
        by (subst depth; cbn [length]; lia).
      destruct (IH (MkScopeLogger (func ++ ":" ++ name) file line :: stk) Hwn Hpk)
        as (H1 & H2 & H3 & H4).
      cbn [app]. rewrite H1. repeat split; auto.
      constructor; [cbn; subst depth; lia | exact H4].
    + apply andb_prop in Hwn as (Hpos & Hwn).
      destruct (IH stk Hwn Hpk) as (H1 & H2 & H3 & H4). fold depth in H1, H2, H3, H4.
      destruct stk as [|self rest]; [discriminate Hpos |].
      rewrite H1. cbn [app map]. repeat split; auto.
      constructor; [cbn; subst depth; lia | exact H4].
    + destruct stk as [|self rest]; [discriminate Hwn |].
      cbn [length Nat.pred tail] in *.
      rewrite (wrap_int_small (depth - 1))
        by (subst depth; cbn [length]; unfold INT_MIN, INT_MAX in *; lia).
      replace (depth - 1) with (Z.of_nat (length rest))
        by (subst depth; cbn [length]; lia).
      assert (Hpk' : Z.of_nat (peak tr (length rest)) <= INT_MAX) by lia.
      destruct (IH rest Hwn Hpk') as (H1 & H2 & H3 & H4).
      rewrite H1. cbn [app map]. repeat split; auto.
      constructor; [cbn; lia | exact H4].
Qed.

End Nesting.

Section DeepNesting.

Variables (ts func file : string) (line : Z).

Local Abbreviation start := (Enter ts func file line).

Lemma well_nested_repeat_enter (n depth : nat) :
  well_nested (repeat start n) depth = true.
Proof.
  revert depth. induction n as [|n IH]; intros depth; [reflexivity | apply IH].
Qed.

Lemma depth_after_repeat_enter (n : nat) (depth : Z) :
  depth_after (repeat start n) depth = depth + Z.of_nat n.
Proof.
  revert depth. induction n as [|n IH]; intros depth;
    cbn [repeat depth_after].
  - lia.
  - rewrite IH. lia.
Qed.

Lemma count_after_repeat_enter (n : nat) (stk : list ScopeLogger) (c : Z) :
  count_after (repeat start n) stk (wrap_int c) = wrap_int (c + Z.of_nat n).
Proof.
  revert stk c. induction n as [|n IH]; intros stk c;
    cbn [repeat count_after count_step stack_step].
  - f_equal. lia.
  - rewrite wrap_int_add, IH. f_equal. lia.
Qed.

Lemma records_from_repeat_enter (n k : nat) (stk : list ScopeLogger) (c : Z) :
  (k < n)%nat ->
  In (format_record ts func "start..." file (wrap_int (c + Z.of_nat k)))
     (records_from (repeat start n) stk (wrap_int c)).
Proof.
  revert k stk c. induction n as [|n IH]; intros k stk c Hk; [lia |].
  cbn [repeat records_from record_of count_step stack_step app].
  destruct k as [|k].
  - left. do 2 f_equal. lia.
  - right. rewrite wrap_int_add.
    replace (c + Z.of_nat (S k)) with (c + 1 + Z.of_nat k) by lia.
    apply IH. lia.
Qed.

(** [n] scopes entered one inside the other, in a process that starts in an
    empty directory. *)
Lemma run_repeat_enter (n k : nat) :
  (k < n)%nat ->
  let w := snd (run (repeat start n) [] (boot (FS ∅ true))) in
  count_ (scope w) = wrap_int (Z.of_nat n) /\
  In (format_record ts func "start..." file (wrap_int (Z.of_nat k))) (written w).
Proof.
  intros Hk w. subst w.
  pose proof (records_from_repeat_enter n k [] 0 Hk) as Hin.
  change (wrap_int 0) with 0 in Hin.
  pose proof (count_after_repeat_enter n [] 0) as Hc.
  change (wrap_int 0) with 0 in Hc.
  assert (E0 : Scope.ensureFileOpen (boot (FS ∅ true))
               = (Val tt, snd (Scope.ensureFileOpen (boot (FS ∅ true)))))
    by (vm_compute; reflexivity).
  destruct (run_fresh (repeat start n) (boot (FS ∅ true)) (fresh_boot _))
    as [(_ & Hr & _) | [(cs & E & _) | (w0 & w1 & E & _ & _ & -> & R)]].
  - cbn [boot scope count_] in Hr. rewrite Hr in Hin. destruct Hin.
  - rewrite E0 in E. discriminate E.
  - rewrite E0 in E. injection E as <-.
    destruct R as (Hs & _ & Hw & _). cbn [snd].
    cbn [boot scope count_] in Hs, Hw. rewrite Hs, Hw.
    split; [exact Hc |].
    change (good (fout_ (scope (snd (Scope.ensureFileOpen (boot (FS ∅ true)))))))
      with true.
    cbn iota. apply in_or_app. right. exact Hin.
Qed.

End DeepNesting.

(** C5, as stated, fails: the counter is an [int].  In a process that
    starts with the counter at 0, 2^31 + 1 scopes entered one inside the
    other are properly nested, yet the counter does not end at 2^31 + 1,
    and the Start record of the last scope carries a negative count. *)
Lemma deep_nesting_wraps_the_counter :
  let deep := repeat (Enter "10:00:00" "f" "a.cpp" 1) (Z.to_nat 2147483649) in
  let w := snd (run deep [] (boot (FS ∅ true))) in
  well_nested deep 0 = true /\
  count_ (scope (boot (FS ∅ true))) = 0 /\
  depth_after deep 0 = 2147483649 /\
  count_ (scope w) <> depth_after deep 0 /\
  exists n, n < 0 /\ In (format_record "10:00:00" "f" "start..." "a.cpp" n) (written w).
Proof.
  intros deep w.
  assert (Hk : (Z.to_nat 2147483648 < Z.to_nat 2147483649)%nat)
    by (apply Z2Nat.inj_lt; lia).
  destruct (run_repeat_enter "10:00:00" "f" "a.cpp" 1 _ _ Hk) as (Hc & Hin).
  fold deep in Hc, Hin. fold w in Hc, Hin.
  rewrite Z2Nat.id in Hc, Hin by lia.
  change (wrap_int 2147483649) with (-2147483647) in Hc.
  change (wrap_int 2147483648) with (-2147483648) in Hin.
  assert (Hd : depth_after deep 0 = 2147483649).
  { unfold deep. rewrite depth_after_repeat_enter, Z2Nat.id by lia. reflexivity. }
  split; [apply well_nested_repeat_enter |].
  split; [reflexivity |]. split; [exact Hd |].
  split; [rewrite Hc, Hd; discriminate |].
  exists (-2147483648). split; [lia | exact Hin].
Qed.

(** C5, amended.  For every properly nested run on one thread, in a process
    that starts with the counter at 0, in which at most 2^31 - 1 scopes are
    open at once: the counter ends at the stack depth (one up per
    construction, one down per destruction), it is not negative, and the
    records written are those of the run with the stack depth as their
    count, none of which is negative.  (Nothing is written when the stream
    could not be opened or the rotation throws.) *)
Theorem counter_matches_nesting_depth (d : filesystem) (tr : list event) :
  well_nested tr 0 = true ->
  Z.of_nat (peak tr 0) <= INT_MAX ->
  match run tr [] (boot d) with
  | (Val stk, w') =>
      count_ (scope w') = depth_after tr 0 /\
      0 <= count_ (scope w') /\
      Forall (fun r => 0 <= r_count r) (nested_records tr [] 0) /\
      exists pre,
        marker_or_nothing pre /\
        written w' = if good (fout_ (scope w'))
                     then (pre ++ map print (nested_records tr [] 0))%list
                     else []
  | (Exc _, w') => written w' = [] /\ count_ (scope w') = 0
  end.
Proof.
  intros Hwn Hpk.
  destruct (records_from_nested tr [] Hwn Hpk) as (H1 & H2 & H3 & H4).
  cbn [length] in H1, H2, H3, H4.
  change (Z.of_nat 0) with 0 in H1, H2, H3, H4.
  pose proof (run_boot d tr) as H.
  destruct (run tr [] (boot d)) as [[stk|e] w'].
  - destruct H as (_ & Hc & pre & Hm & Hw).
    rewrite Hc, H2. repeat apply conj; auto.
    exists pre. split; [exact Hm |]. now rewrite Hw, H1.
  - destruct H as (_ & Hw & Hc & _). now split.
Qed.

(** Two scopes, one inside the other, the inner one annotated. *)
Lemma counter_matches_nesting_depth_witness :
  let tr := [Enter "10:00:00" "main" "main.cpp" 3;
             EnterNamed "10:00:01" "main" "loop" "main.cpp" 5;
             Annotate "10:00:02" "halfway";
             Leave "10:00:03"; Leave "10:00:04"] in
  match run tr [] (boot (FS ∅ true)) with
  | (Val stk, w') =>
      count_ (scope w') = depth_after tr 0 /\
      0 <= count_ (scope w') /\
      Forall (fun r => 0 <= r_count r) (nested_records tr [] 0) /\
      exists pre,
        marker_or_nothing pre /\
        written w' = if good (fout_ (scope w'))
                     then (pre ++ map print (nested_records tr [] 0))%list
                     else []
  | (Exc _, w') => written w' = [] /\ count_ (scope w') = 0
  end.
Proof.
  intros tr.
  apply (counter_matches_nesting_depth (FS ∅ true) tr);
    [reflexivity | vm_compute; discriminate].
Defined.

(** ** A diagnostics file of more than 2 MiB, left by a run that crashed *)

Section LargeFile.

Lemma length_filler (n : nat) : String.length (filler n) = n.
Proof. induction n as [|n IH]; cbn [filler String.length]; [reflexivity | now rewrite IH]. Qed.

Lemma big_log_size : 2 * 1024 * 1024 < file_size (File big_log true).
Proof.
  unfold file_size, big_log. cbn [content].
  rewrite length_append, length_filler, Nat2Z.inj_add, Z2Nat.id by lia. lia.
Qed.

Lemma big_log_last_line : last_line big_log = crashed_tail.
Proof. unfold big_log. apply last_line_app. reflexivity. Qed.

Lemma crashed_tail_says_crash : line_says_crash crashed_tail = true.
Proof. vm_compute. reflexivity. Qed.

End LargeFile.

#[local] Opaque big_log.

Lemma dir_with_big_log_lookup (movable : bool) :
  entries (fs (boot (dir_with_big_log movable))) !! Scope.fileName
  = Some (File big_log true).
Proof. apply lookup_singleton_eq. Qed.

(** ** Failures *)

Section Failures.

(** The rotation throws whenever the file is too large and the directory
    may not be changed, and the exception leaves the constructor. *)
Lemma ctor_raises_when_rename_refused (w : World) (f : file)
      (ts func file : string) (line : Z) :
  fresh w ->
  entries (fs w) !! Scope.fileName = Some f ->
  2 * 1024 * 1024 < file_size f ->
  dir_writable (fs w) = false ->
  fst (Scope.ctor ts func file line w) = Exc filesystem_error /\
  scope (snd (Scope.ctor ts func file line w)) = scope w.
Proof.
  intros Hf He Hsz Hd.
  pose proof (first_open_refused w f Hf He Hsz Hd) as E.
  rewrite ctor_enter, (enter_refused _ ts w _ _ E). split; reflexivity.
Qed.

(** When the stream has failed, records are dropped and the counter still
    moves. *)
Lemma failed_stream_drops_records_keeps_counting
      (self : ScopeLogger) (ts msg : string) (w : World) :
  steady w ->
  failed (fout_ (scope w)) = true ->
  (exists w1, enter self ts w = (Val self, w1) /\
              count_ (scope w1) = wrap_int (count_ (scope w) + 1) /\
              written w1 = written w /\ fs w1 = fs w) /\
  (exists w1, Scope.here self ts msg w = (Val tt, w1) /\
              count_ (scope w1) = count_ (scope w) /\
              written w1 = written w /\ fs w1 = fs w) /\
  (exists w1, Scope.dtor self ts w = (Val tt, w1) /\
              count_ (scope w1) = wrap_int (count_ (scope w) - 1) /\
              written w1 = written w /\ fs w1 = fs w).
Proof.
  intros H Hfail.
  assert (Hg : good (fout_ (scope w)) = false) by (unfold good; now rewrite Hfail).
  split; [| split].
  - destruct (enter_reaches self ts w H) as (w1 & E & Hs & _ & Hw & Hfs & _).
    exists w1. rewrite Hg in Hw, Hfs. rewrite Hs. repeat split; auto.
  - destruct (log_reaches self ts msg w H) as (w1 & E & Hs & _ & Hw & Hfs & _).
    exists w1. rewrite Hg in Hw, Hfs. rewrite Hs. repeat split; auto.
  - destruct (dtor_reaches self ts w H) as (w1 & E & Hs & _ & Hw & Hfs & _).
    exists w1. rewrite Hg in Hw, Hfs. rewrite Hs. repeat split; auto.
Qed.

(** A count field that [std::stoi] rejects means no crash. *)
Lemma malformed_count_is_no_crash (pre suf : string) (e : exn) :
  rfind BAR suf = None ->
  stoi suf = Exc e ->
  line_says_crash (pre ++ "|" ++ suf) = false.
Proof. intros Hb Hs. now rewrite (line_says_crash_field pre suf Hb), Hs. Qed.

End Failures.

(** C9 fails on the code.  A process starts in a directory that may not be
    changed and that holds a diagnostics file of more than 2 MiB: the first
    [ScopeLogger("foo", "file.cpp", 10)] does not return, the
    [std::filesystem::filesystem_error] of [fs::rename] leaves the
    constructor, and the counter has not been incremented. *)
Theorem constructor_raises_filesystem_error :
  let w := boot (dir_with_big_log false) in
  fst (Scope.ctor "2026-11-03 10:00:00" "foo" "file.cpp" 10 w)
  = Exc filesystem_error /\
  count_ (scope (snd (Scope.ctor "2026-11-03 10:00:00" "foo" "file.cpp" 10 w))) = 0.
Proof.
  intros w.
  destruct (ctor_raises_when_rename_refused w (File big_log true)
              "2026-11-03 10:00:00" "foo" "file.cpp" 10
              (fresh_boot _) (dir_with_big_log_lookup false)
              big_log_size eq_refl) as (E & Hs).
  split; [exact E | now rewrite Hs].
Qed.

(** ** Which file the crash check reads *)

Section WhichFile.

Lemma rotation_calls_no_backup_read (b : bool) :
  ~ In (CallOpenRead backupName) (rotation_calls b).
Proof.
  unfold rotation_calls. destruct b; cbn [app In];
    intros H; repeat (destruct H as [H | H]; [discriminate H |]); exact H.
Qed.

Lemma refused_calls_no_read (b : bool) (p : string) :
  ~ In (CallOpenRead p) (refused_calls b).
Proof.
  unfold refused_calls. destruct b; cbn [app In];
    intros H; repeat (destruct H as [H | H]; [discriminate H |]); exact H.
Qed.

Lemma kept_calls_no_backup_read : ~ In (CallOpenRead backupName) kept_calls.
Proof.
  unfold kept_calls. cbn [In].
  intros H; repeat (destruct H as [H | H]; [discriminate H |]); exact H.
Qed.

End WhichFile.

(** C3, as stated, fails.  First: the previous run crashed with a scope
    open and left a diagnostics file of more than 2 MiB.  The first open
    moves that file to the backup name and the crash check then reads the
    new, empty diagnostics file: no crash is detected, no marker is
    written, and the backup is never read.  Second: for a file that ends
    with an empty line, the check reads that empty line, not the last
    non-empty one. *)
Lemma crash_check_misses_the_rotated_file :
  (line_says_crash (last_line big_log) = true /\
   exists w0,
     Scope.ensureFileOpen (boot (dir_with_big_log true)) = (Val tt, w0) /\
     crashedLastTime_ (scope w0) = false /\
     written w0 = [] /\
     entries (fs w0) !! backupName = Some (File big_log true) /\
     entries (fs w0) !! Scope.fileName = Some (File "" true) /\
     ~ reads backupName w0) /\
  (let c := crashed_tail ++ nl ++ nl in
   line_says_crash (last_nonempty_line c) = true /\
   exists w0,
     Scope.ensureFileOpen (boot (FS {[ Scope.fileName := File c true ]} true))
     = (Val tt, w0) /\
     crashedLastTime_ (scope w0) = false /\ written w0 = []).
Proof.
  split.
  - split; [rewrite big_log_last_line; apply crashed_tail_says_crash |].
    eexists. split.
    + apply (first_open_rotated _ (File big_log true) (fresh_boot _)
               (dir_with_big_log_lookup true) big_log_size eq_refl).
    + cbn [scope fs entries written calls opened_scope crashedLastTime_ boot].
      split; [reflexivity |]. split; [reflexivity |].
      split; [| split].
      * unfold backupName.
        rewrite (lookup_insert_ne _ _ _ _ file_ne_backup). apply lookup_insert_eq.
      * apply lookup_insert_eq.
      * unfold reads. cbn [calls app]. apply rotation_calls_no_backup_read.
  - intros c. split; [vm_compute; reflexivity |].
    eexists. split; [vm_compute; reflexivity |]. split; reflexivity.
Qed.

(** C3, amended.  The crash check reads the file that is found under the
    diagnostics name once the first open of the process has rotated and
    opened it, and never the backup.  When the pre-existing file is not
    rotated (at most 2 MiB) that is the pre-existing file, and the verdict
    comes from its last line as [std::getline] yields it (the empty line,
    if the file ends with one).  When the pre-existing file is rotated, the
    file read is the new, empty one, and the verdict is "no crash".  When
    the rotation throws, nothing is read. *)
Theorem crash_check_reads_the_file_after_rotation (d : filesystem) (f : file) :
  entries d !! Scope.fileName = Some f ->
  match Scope.ensureFileOpen (boot d) with
  | (Val _, w0) =>
      ~ reads backupName w0 /\
      if 2 * 1024 * 1024 <? file_size f
      then calls w0 = rotation_calls (has_file d backupName) /\
           entries (fs w0) !! backupName = Some f /\
           entries (fs w0) !! Scope.fileName = Some (File "" true) /\
           crashedLastTime_ (scope w0) = false /\
           written w0 = []
      else calls w0 = kept_calls /\
           crashedLastTime_ (scope w0) = line_says_crash (last_line (content f))
  | (Exc _, w0) =>
      2 * 1024 * 1024 < file_size f /\ dir_writable d = false /\
      ~ reads backupName w0 /\ ~ reads Scope.fileName w0
  end.
Proof.
  intros He.
  pose proof (fresh_boot d) as Hf.
  destruct (Z.ltb_spec (2 * 1024 * 1024) (file_size f)) as [Hbig | Hsmall].
  - destruct (dir_writable d) eqn:Hd.
    + rewrite (first_open_rotated (boot d) f Hf He Hbig Hd).
      cbn [scope fs entries written calls opened_scope crashedLastTime_ boot app].
      split; [apply rotation_calls_no_backup_read |].
      split; [reflexivity |]. split; [| split; [| split; reflexivity]].
      * unfold backupName.
        rewrite (lookup_insert_ne _ _ _ _ file_ne_backup). apply lookup_insert_eq.
      * apply lookup_insert_eq.
    + rewrite (first_open_refused (boot d) f Hf He Hbig Hd).
      split; [exact Hbig |]. split; [reflexivity |].
      unfold reads, more_calls. cbn [calls boot app].
      split; apply refused_calls_no_read.
  - destruct (writable f) eqn:Hw.
    + rewrite (first_open_kept (boot d) f Hf He Hsmall Hw).
      cbn [scope fs entries written calls opened_scope crashedLastTime_ boot app].
      split; [apply kept_calls_no_backup_read | split; reflexivity].
    + rewrite (first_open_readonly (boot d) f Hf He Hsmall Hw).
      cbn [scope fs entries written calls failed_scope crashedLastTime_ boot app].
      split; [apply kept_calls_no_backup_read | split; reflexivity].
Qed.

Lemma crash_check_reads_the_file_after_rotation_witness :
  entries dir_with_crashed_log !! Scope.fileName = Some crashed_log /\
  match Scope.ensureFileOpen (boot dir_with_crashed_log) with
  | (Val _, w0) =>
      ~ reads backupName w0 /\
      if 2 * 1024 * 1024 <? file_size crashed_log
      then calls w0 = rotation_calls (has_file dir_with_crashed_log backupName) /\
           entries (fs w0) !! backupName = Some crashed_log /\
           entries (fs w0) !! Scope.fileName = Some (File "" true) /\
           crashedLastTime_ (scope w0) = false /\
           written w0 = []
      else calls w0 = kept_calls /\
           crashedLastTime_ (scope w0)
           = line_says_crash (last_line (content crashed_log))
  | (Exc _, w0) =>
      2 * 1024 * 1024 < file_size crashed_log /\
      dir_writable dir_with_crashed_log = false /\
      ~ reads backupName w0 /\ ~ reads Scope.fileName w0
  end.
Proof.
  split; [reflexivity |].
  apply (crash_check_reads_the_file_after_rotation
           dir_with_crashed_log crashed_log).
  reflexivity.
Defined.

(** ** The verdict of the crash check and the crash marker *)

Section Verdict.

(** The check itself, before it has run, on a state in which the file is
    there. *)
Lemma detect_unchecked (w : World) (f : file) :
  crashChecked_ (scope w) = false ->
  entries (fs w) !! Scope.fileName = Some f ->
  fst (Scope.detectPreviousCrash w) = Val (line_says_crash (last_line (content f))).
Proof.
  intros Hk He. destruct w as [[en dw|] [c s i cl ck] lg wr cs].
  2: not_unsearchable.
  cbn in *. subst.
  unfold Scope.detectPreviousCrash.
  unfold Scope.lastLine, Scope.set_crashChecked, Scope.get, fs_exists,
    bind at 1 2 3 4, ret, has_file, note_call, with_scope.
  cbn. rewrite He. cbn. rewrite He.
  fold (last_line (content f)). rewrite detect_on_line. reflexivity.
Qed.

(** What the first open of a process concludes, when it returns. *)
Lemma first_open_verdict (d : filesystem) (f : file) (w0 : World) :
  entries d !! Scope.fileName = Some f ->
  Scope.ensureFileOpen (boot d) = (Val tt, w0) ->
  crashedLastTime_ (scope w0)
  = (if 2 * 1024 * 1024 <? file_size f then false
     else line_says_crash (last_line (content f))) /\
  (written w0 = [] \/
   (written w0 = [crash_marker] /\ crashedLastTime_ (scope w0) = true)).
Proof.
  intros He E. pose proof (fresh_boot d) as Hf.
  destruct (Z.ltb_spec (2 * 1024 * 1024) (file_size f)) as [Hbig | Hsmall].
  - destruct (dir_writable d) eqn:Hd.
    + rewrite (first_open_rotated (boot d) f Hf He Hbig Hd) in E.
      injection E as <-. split; [reflexivity | now left].
    + rewrite (first_open_refused (boot d) f Hf He Hbig Hd) in E.
      discriminate E.
  - destruct (writable f) eqn:Hw.
    + rewrite (first_open_kept (boot d) f Hf He Hsmall Hw) in E.
      injection E as <-. split; [reflexivity |].
      cbn [written boot app scope opened_scope crashedLastTime_].
      destruct (line_says_crash (last_line (content f))); [right | left]; auto.
    + rewrite (first_open_readonly (boot d) f Hf He Hsmall Hw) in E.
      injection E as <-. split; [reflexivity | now left].
Qed.

Lemma marker_line_says_no_crash : line_says_crash "## CRASH POINT ##" = false.
Proof. vm_compute. reflexivity. Qed.

End Verdict.

Section VerdictOfARun.





End VerdictOfARun.




(** C8.  When the last line of the diagnostics file the previous run left
    is exactly the crash marker, the crash check says "no crash", and no
    crash marker is written in the whole run of the process. *)
Theorem trailing_crash_marker_is_no_crash
        (d : filesystem) (f : file) (tr : list event) :
  entries d !! Scope.fileName = Some f ->
  last_line (content f) = "## CRASH POINT ##" ->
  fst (Scope.detectPreviousCrash (boot d)) = Val false /\
  crashedLastTime_ (scope (snd (run tr [] (boot d)))) = false /\
  ~ In crash_marker (written (snd (run tr [] (boot d)))).
Proof.
  intros He Hl.
  split.
  { rewrite (detect_unchecked (boot d) f eq_refl He), Hl.
    now rewrite marker_line_says_no_crash. }
  destruct (run_fresh tr (boot d) (fresh_boot d))
    as [(E & _) | [(cs & _ & E) | (w0 & w1 & E0 & _ & _ & E & R)]];
    rewrite E; cbn [snd].
  - split; [reflexivity | intros []].
  - split; [reflexivity | intros []].
  - destruct (first_open_verdict d f w0 He E0) as (Hv & Hw0).
    rewrite Hl, marker_line_says_no_crash in Hv.
    assert (Hc0 : crashedLastTime_ (scope w0) = false)
      by (rewrite Hv; now destruct (2 * 1024 * 1024 <? file_size f)).
    destruct Hw0 as [Hw0 | (_ & Hbad)]; [| congruence].
    destruct R as (Hs & _ & Hw & _).
    split; [now rewrite Hs |].
    rewrite Hw, Hw0.
    destruct (good (fout_ (scope w0))); [| intros []].
    cbn [app]. apply records_not_marker.
Qed.

(** A file that ends with the crash marker of an earlier start. *)
Lemma trailing_crash_marker_is_no_crash_witness :
  let c := crashed_tail ++ nl ++ crash_marker in
  let d := FS {[ Scope.fileName := File c true ]} true in
  let tr := scenario "10:00:00" "10:00:01" "10:00:02" in
  fst (Scope.detectPreviousCrash (boot d)) = Val false /\
  crashedLastTime_ (scope (snd (run tr [] (boot d)))) = false /\
  ~ In crash_marker (written (snd (run tr [] (boot d)))).
Proof.
  intros c d tr.
  apply (trailing_crash_marker_is_no_crash d (File c true) tr); reflexivity.
Defined.

(** ** Rotation *)

Section Rotation.

#[local] Arguments renames : simpl never.

Lemma renames_app (a b : list fs_call) :
  renames (a ++ b) = (renames a + renames b)%nat.
Proof. unfold renames. now rewrite List.filter_app, length_app. Qed.

Lemma renames_reopen (cs : list fs_call) : Forall reopen cs -> renames cs = 0%nat.
Proof.
  induction 1 as [|c cs Hc _ IH]; [reflexivity |].
  unfold renames in *. cbn [List.filter]. rewrite Hc. exact IH.
Qed.

Lemma renames_rotation_calls (b : bool) : renames (rotation_calls b) = 1%nat.
Proof. destruct b; reflexivity. Qed.

Lemma append_file_keeps_backup (text : string) (d : filesystem) :
  entries (append_file text d) !! backupName = entries d !! backupName.
Proof. rewrite entries_append_file. apply lookup_alter_ne, file_ne_backup. Qed.

Lemma log_backup_ne_file : Log.fileName ++ ".old" <> Log.fileName.
Proof. discriminate. Qed.

(** The first open of the general log. *)
Lemma log_first_open (d : filesystem) (g : file) :
  entries d !! Log.fileName = Some g ->
  dir_writable d = true ->
  exists w0,
    Log.ensureFileOpen (boot d) = (Val tt, w0) /\
    log_initialized_ (logst w0) = true /\
    if 5 * 1024 * 1024 <? file_size g
    then renames (calls w0) = 1%nat /\
         In (CallRename Log.fileName log_backupName) (calls w0) /\
         entries (fs w0) !! log_backupName = Some g /\
         entries (fs w0) !! Log.fileName = Some (File "" true)
    else renames (calls w0) = 0%nat /\ fs w0 = d.
Proof.
  intros He Hd. destruct d as [en dw|].
  2: not_unsearchable.
  cbn in He, Hd. subst dw.
  unfold Log.ensureFileOpen, Log.rotateIfTooLarge, Log.fout_open,
    Log.set_initialized, fs_exists, fs_file_size, fs_remove, fs_rename,
    ofstream_open, bind, ret, has_file, is_open, note_call, with_fs, with_logst,
    boot, file_size, log_backupName.
  remember (Log.fileName ++ ".old") as bk eqn:Hbk.
  assert (Hne : bk <> Log.fileName) by (subst bk; discriminate).
  assert (Hne' : Log.fileName <> bk) by (intros H; exact (Hne (eq_sym H))).
  cbn. rewrite He. cbn. rewrite He. cbn.
  rewrite Z.gtb_ltb.
  destruct (5 * 1024 * 1024 <? Z.of_nat (String.length (content g))) eqn:Hsz; cbn.
  - assert (Hfin : forall m : gmap string file,
               m !! Log.fileName = Some g ->
               <[Log.fileName := File "" true]> (<[bk := g]> (delete Log.fileName m)) !! bk
               = Some g /\
               <[Log.fileName := File "" true]> (<[bk := g]> (delete Log.fileName m))
                 !! Log.fileName = Some (File "" true)).
    { intros m _. split; [| apply lookup_insert_eq].
      rewrite (lookup_insert_ne _ _ _ _ Hne'). apply lookup_insert_eq. }
    destruct (en !! bk) eqn:Hb; cbn; rewrite ?Hb; cbn.
    + rewrite (lookup_delete_ne en bk Log.fileName Hne), He. cbn.
      rewrite (lookup_insert_ne _ bk Log.fileName g Hne), lookup_delete_eq. cbn.
      eexists. split; [reflexivity |]. cbn.
      split; [reflexivity |]. split; [reflexivity |].
      split; [auto 10 |].
      apply Hfin. now rewrite (lookup_delete_ne en bk Log.fileName Hne).
    + rewrite He. cbn.
      rewrite (lookup_insert_ne _ bk Log.fileName g Hne), lookup_delete_eq. cbn.
      eexists. split; [reflexivity |]. cbn.
      split; [reflexivity |]. split; [reflexivity |].
      split; [auto 10 |].
      apply Hfin, He.
  - rewrite He. cbn.
    destruct (writable g); cbn;
      (eexists; split; [reflexivity |]; cbn; repeat split).
Qed.

(** A later open of the general log moves nothing. *)
Lemma log_second_open (w0 : World) :
  log_initialized_ (logst w0) = true ->
  fst (Log.ensureFileOpen w0) = Val tt /\
  renames (calls (snd (Log.ensureFileOpen w0))) = renames (calls w0) /\
  entries (fs (snd (Log.ensureFileOpen w0))) !! log_backupName
  = entries (fs w0) !! log_backupName.
Proof.
  intros Hi. destruct w0 as [[en dw|] sc [[o fl] i] wr cs]; cbn in Hi; subst i;
    unfold Log.ensureFileOpen, Log.fout_open, ofstream_open, is_open, note_call,
      with_fs, with_logst;
    cbn; (destruct o as [p|]; cbn; [repeat split |]).
  2: { rewrite lookup_empty. cbn. rewrite renames_app.
       change (renames [CallOpenAppend Log.fileName]) with 0%nat.
       repeat split; lia. }
  destruct (en !! Log.fileName) as [g|] eqn:He; cbn.
  - destruct (writable g); cbn; rewrite renames_app;
      change (renames [CallOpenAppend Log.fileName]) with 0%nat;
      repeat split; lia.
  - destruct dw; cbn; rewrite renames_app;
      change (renames [CallOpenAppend Log.fileName]) with 0%nat;
      repeat split; try lia.
    apply lookup_insert_ne. intros H. exact (log_backup_ne_file (eq_sym H)).
Qed.

End Rotation.

Section RotationOnce.

(** The first open of the diagnostics file, in a directory that may be
    changed. *)
Lemma first_open_rotation (d : filesystem) (f : file) :
  entries d !! Scope.fileName = Some f ->
  dir_writable d = true ->
  exists w0,
    Scope.ensureFileOpen (boot d) = (Val tt, w0) /\
    if 2 * 1024 * 1024 <? file_size f
    then renames (calls w0) = 1%nat /\
         In (CallRename Scope.fileName backupName) (calls w0) /\
         entries (fs w0) !! backupName = Some f /\
         entries (fs w0) !! Scope.fileName = Some (File "" true)
    else renames (calls w0) = 0%nat /\
         entries (fs w0) !! backupName = entries d !! backupName /\
         exists tail,
           entries (fs w0) !! Scope.fileName
           = Some (File (content f ++ tail) (writable f)).
Proof.
  intros He Hd. pose proof (fresh_boot d) as Hf.
  destruct (Z.ltb_spec (2 * 1024 * 1024) (file_size f)) as [Hbig | Hsmall].
  - eexists. split; [apply (first_open_rotated (boot d) f Hf He Hbig Hd) |].
    cbn [fs calls entries boot app].
    split; [apply renames_rotation_calls |].
    split; [unfold rotation_calls; destruct (has_file d backupName); cbn; auto 10 |].
    split; [| apply lookup_insert_eq].
    unfold backupName.
    rewrite (lookup_insert_ne _ _ _ _ file_ne_backup). apply lookup_insert_eq.
  - destruct (writable f) eqn:Hw.
    + eexists. split; [apply (first_open_kept (boot d) f Hf He Hsmall Hw) |].
      cbn [fs calls entries boot app].
      split; [reflexivity |].
      destruct (line_says_crash (last_line (content f))).
      * cbn [entries]. split; [apply lookup_alter_ne, file_ne_backup |].
        exists crash_marker. rewrite lookup_alter_eq, He. cbn.
        unfold append_to. now rewrite Hw.
      * split; [reflexivity |]. exists "". rewrite append_nil_r, He.
        destruct f as [c wr]. cbn in Hw. now subst wr.
    + eexists. split; [apply (first_open_readonly (boot d) f Hf He Hsmall Hw) |].
      cbn [fs calls entries boot app].
      split; [reflexivity |]. split; [reflexivity |].
      exists "". rewrite append_nil_r, He. destruct f as [c wr]. cbn in Hw.
      now subst wr.
Qed.

End RotationOnce.

(** C6.  In a directory that may be changed: at the first open of the
    diagnostics file, a file of more than 2 MiB (strictly) is renamed to
    ["diagnostics.log.old"]; the backup then is that very file, whatever a
    backup held before (it is replaced, not appended to), and a new, empty
    diagnostics file is opened.  A file of at most 2 MiB is not renamed:
    no rename is called, the backup entry is untouched, the file keeps its
    content.  In the whole run of a process [fs::rename] is called at most
    once, and not at all when the file is small.  The same holds for the
    general log, with 5 MiB and ["output.log.old"]. *)
Theorem rotation_at_first_open_only
        (d : filesystem) (f g : file) (tr : list event) :
  entries d !! Scope.fileName = Some f ->
  entries d !! Log.fileName = Some g ->
  dir_writable d = true ->
  (exists w0,
      Scope.ensureFileOpen (boot d) = (Val tt, w0) /\
      if 2 * 1024 * 1024 <? file_size f
      then renames (calls w0) = 1%nat /\
           In (CallRename Scope.fileName backupName) (calls w0) /\
           entries (fs w0) !! backupName = Some f /\
           entries (fs w0) !! Scope.fileName = Some (File "" true)
      else renames (calls w0) = 0%nat /\
           entries (fs w0) !! backupName = entries d !! backupName /\
           exists tail,
             entries (fs w0) !! Scope.fileName
             = Some (File (content f ++ tail) (writable f))) /\
  ((renames (calls (snd (run tr [] (boot d)))) <= 1)%nat /\
   (file_size f <= 2 * 1024 * 1024 ->
    renames (calls (snd (run tr [] (boot d)))) = 0%nat /\
    entries (fs (snd (run tr [] (boot d)))) !! backupName = entries d !! backupName)) /\
  (exists w0,
      Log.ensureFileOpen (boot d) = (Val tt, w0) /\
      (if 5 * 1024 * 1024 <? file_size g
       then renames (calls w0) = 1%nat /\
            In (CallRename Log.fileName log_backupName) (calls w0) /\
            entries (fs w0) !! log_backupName = Some g /\
            entries (fs w0) !! Log.fileName = Some (File "" true)
       else renames (calls w0) = 0%nat /\ fs w0 = d) /\
      fst (Log.ensureFileOpen w0) = Val tt /\
      renames (calls (snd (Log.ensureFileOpen w0))) = renames (calls w0) /\
      entries (fs (snd (Log.ensureFileOpen w0))) !! log_backupName
      = entries (fs w0) !! log_backupName).
Proof.
  intros He Hg Hd.
  destruct (first_open_rotation d f He Hd) as (w0 & E0 & H0).
  split; [exists w0; split; assumption |].
  split.
  - destruct (run_fresh tr (boot d) (fresh_boot d))
      as [(E & _) | [(cs & E' & _) | (w0' & w1 & E' & _ & _ & E & R)]].
    + rewrite E. cbn. split; [lia |]. intros _. split; reflexivity.
    + rewrite E0 in E'. discriminate E'.
    + rewrite E0 in E'. injection E' as <-. rewrite E. cbn [snd].
      destruct R as (_ & _ & _ & Hfs & cs & Hcs & Hre).
      rewrite Hcs, renames_app, (renames_reopen cs Hre), Nat.add_0_r.
      assert (Hbk : entries (fs w1) !! backupName = entries (fs w0) !! backupName).
      { rewrite Hfs. destruct (good (fout_ (scope w0))); [| reflexivity].
        apply append_file_keeps_backup. }
      destruct (Z.ltb_spec (2 * 1024 * 1024) (file_size f)) as [Hbig | Hsmall].
      * destruct H0 as (Hr & _). split; [lia |]. intros Hle. lia.
      * destruct H0 as (Hr & Hb & _). split; [lia |]. intros _.
        split; [exact Hr | now rewrite Hbk].
  - destruct (log_first_open d g Hg Hd) as (l0 & El & Hi & Hl).
    exists l0. split; [exact El |]. split; [exact Hl |].
    apply log_second_open, Hi.
Qed.

Lemma rotation_at_first_open_only_witness :
  (exists w0,
      Scope.ensureFileOpen (boot dir_to_rotate) = (Val tt, w0) /\
      entries (fs w0) !! backupName = Some (File big_log true) /\
      entries (fs w0) !! Scope.fileName = Some (File "" true)) /\
  (renames (calls (snd (run (scenario "10:00:00" "10:00:01" "10:00:02") []
                            (boot dir_to_rotate)))) <= 1)%nat.
Proof.
  destruct (rotation_at_first_open_only
              dir_to_rotate (File big_log true) (File "hello" true)
              (scenario "10:00:00" "10:00:01" "10:00:02"))
    as ((w0 & E & H) & (Hr & _) & _).
  - apply lookup_insert_eq.
  - reflexivity.
  - reflexivity.
  - split; [| exact Hr].
    exists w0. split; [exact E |].
    pose proof big_log_size as Hbig. apply Z.ltb_lt in Hbig.
    rewrite Hbig in H. destruct H as (_ & _ & Hb & Hn). split; assumption.
Defined.

(* ===================================================================== *)
(** * Further properties: the count field                                 *)
(* ===================================================================== *)

Section CountField.

Lemma uint_value_of_lu (d d' : Decimal.uint) :
  uint_value d (Z.of_N (Unsigned.of_lu d'))
  = Z.of_N (Unsigned.of_lu (Decimal.revapp d d')).
Proof.
  revert d'. induction d as [|d IH|d IH|d IH|d IH|d IH|d IH|d IH|d IH|d IH|d IH];
    intros d'; cbn [uint_value Decimal.revapp]; [reflexivity | ..];
    rewrite <- IH; f_equal;
    match goal with
    | |- _ = Z.of_N (Unsigned.of_lu ?x) => rewrite (Unsigned.of_lu_eqn x)
    end;
    cbn [Unsigned.hd Unsigned.tl]; lia.
Qed.

Lemma uint_value_of_uint (d : Decimal.uint) : uint_value d 0 = Z.of_uint d.
Proof.
  unfold Z.of_uint. rewrite Unsigned.of_uint_alt. unfold Decimal.rev.
  rewrite <- uint_value_of_lu. reflexivity.
Qed.

Lemma read_digits_uint (d : Decimal.uint) (rest : string) (acc : Z) :
  read_digits (NilEmpty.string_of_uint d ++ rest) (Some acc)
  = read_digits rest (Some (uint_value d acc)).
Proof.
  revert acc. induction d as [|d IH|d IH|d IH|d IH|d IH|d IH|d IH|d IH|d IH|d IH];
    intros acc; cbn [NilEmpty.string_of_uint String.append uint_value];
    [reflexivity | ..];
    cbn [read_digits]; rewrite <- IH; reflexivity.
Qed.

Lemma read_digits_stop (rest : string) (v : Z) :
  no_leading_digit rest = true -> read_digits rest (Some v) = Some v.
Proof.
  destruct rest as [|c rest]; [reflexivity |].
  cbn [no_leading_digit read_digits]. now destruct (isdigit c).
Qed.

(** [std::stoi] on a numeral, with or without a minus sign, followed by
    text that does not go on with a digit. *)
Lemma stoi_numeral (u : Decimal.uint) (rest : string) :
  u <> Decimal.Nil ->
  no_leading_digit rest = true ->
  let v := Z.of_uint u in
  stoi (NilEmpty.string_of_uint u ++ rest)
  = (if (INT_MIN <=? v) && (v <=? INT_MAX) then Val v else Exc out_of_range) /\
  stoi ("-" ++ NilEmpty.string_of_uint u ++ rest)
  = (if (INT_MIN <=? - v) && (- v <=? INT_MAX) then Val (- v) else Exc out_of_range).
Proof.
  intros Hu Hrest v. subst v. rewrite <- uint_value_of_uint.
  destruct u as [|u|u|u|u|u|u|u|u|u|u]; [contradiction | ..];
    unfold stoi;
    cbn [NilEmpty.string_of_uint String.append skip_space uint_value];
    repeat match goal with
           | |- context [isspace ?c] => change (isspace c) with false
           end;
    cbn iota beta zeta; cbn [read_digits];
    repeat match goal with
           | |- context [isdigit ?c] => change (isdigit c) with true
           end;
    cbn iota;
    (split; rewrite read_digits_uint, (read_digits_stop rest _ Hrest);
     reflexivity).
Qed.

(** Round trip: what [std::to_string] prints for an [int], [std::stoi]
    reads back, also when other text follows the digits. *)
Lemma stoi_to_string_then (n : Z) (rest : string) :
  INT_MIN <= n <= INT_MAX ->
  no_leading_digit rest = true ->
  stoi (to_string n ++ rest) = Val n.
Proof.
  intros Hn Hrest. unfold to_string.
  assert (Hr : (INT_MIN <=? n) && (n <=? INT_MAX) = true).
  { apply andb_true_intro. split; apply Z.leb_le; lia. }
  destruct n as [|p|p]; cbn [Z.to_int NilZero.string_of_int].
  - destruct (stoi_numeral (Decimal.D0 Decimal.Nil) rest) as (H & _);
      [discriminate | exact Hrest |]. exact H.
  - pose proof (Unsigned.to_uint_nonnil p) as Hnn.
    destruct (stoi_numeral (Pos.to_uint p) rest Hnn Hrest) as (H & _).
    unfold Z.of_uint in H. rewrite Unsigned.of_to in H. cbn [Z.of_N] in H.
    rewrite Hr in H.
    unfold NilZero.string_of_uint.
    destruct (Pos.to_uint p); [contradiction | exact H ..].
  - pose proof (Unsigned.to_uint_nonnil p) as Hnn.
    destruct (stoi_numeral (Pos.to_uint p) rest Hnn Hrest) as (_ & H).
    unfold Z.of_uint in H. rewrite Unsigned.of_to in H.
    change (- Z.of_N (N.pos p)) with (Z.neg p) in H.
    rewrite Hr in H.
    unfold NilZero.string_of_uint.
    destruct (Pos.to_uint p); [contradiction | exact H ..].
Qed.

End CountField.

Section RecordTail.

Lemma numeral_chars (u : Decimal.uint) :
  no_nl (NilEmpty.string_of_uint u) = true /\
  rfind BAR (NilEmpty.string_of_uint u) = None.
Proof.
  induction u as [|u [IH1 IH2]|u [IH1 IH2]|u [IH1 IH2]|u [IH1 IH2]|u [IH1 IH2]
                  |u [IH1 IH2]|u [IH1 IH2]|u [IH1 IH2]|u [IH1 IH2]|u [IH1 IH2]];
    cbn [NilEmpty.string_of_uint no_nl rfind]; [split; reflexivity | ..];
    rewrite IH1, IH2; split; reflexivity.
Qed.

Lemma to_string_chars (n : Z) :
  no_nl (to_string n) = true /\ rfind BAR (to_string n) = None.
Proof.
  unfold to_string.
  destruct n as [|p|p]; cbn [Z.to_int NilZero.string_of_int];
    [split; reflexivity | ..];
    pose proof (Unsigned.to_uint_nonnil p) as Hnn;
    destruct (numeral_chars (Pos.to_uint p)) as (H1 & H2);
    unfold NilZero.string_of_uint;
    destruct (Pos.to_uint p); try contradiction;
    cbn [no_nl rfind] in *; rewrite ?H1, ?H2; split; reflexivity.
Qed.

Lemma last_of_nonempty (ls : list string) (a b : string) :
  ls <> [] ->
  fold_left (fun _ y : string => y) ls a = fold_left (fun _ y : string => y) ls b.
Proof. destruct ls as [|y ls]; [contradiction | reflexivity]. Qed.

(** The last line of a text that ends with [t] and a line feed ends with
    [t], whatever comes before. *)
Lemma last_line_tail (a t : string) :
  no_nl t = true -> exists x, last_line (a ++ t ++ nl) = x ++ t.
Proof.
  intros Ht. induction a as [|c a (x & IH)].
  - exists "". cbn [String.append]. apply last_line_end, Ht.
  - assert (Hne : getlines (a ++ t ++ nl) <> [])
      by (rewrite <- append_assoc; apply getlines_nl_nonempty).
    unfold last_line in *. cbn [String.append getlines].
    destruct (Ascii.eqb c NL).
    + exists x. exact IH.
    + destruct (getlines (a ++ t ++ nl)) as [|l ls]; [contradiction |].
      cbn [fold_left] in *. destruct ls as [|l' ls].
      * exists (String c x). cbn [fold_left] in *. now rewrite IH.
      * exists x. exact IH.
Qed.

Lemma wrap_int_range (z : Z) : INT_MIN <= wrap_int z <= INT_MAX.
Proof.
  unfold wrap_int, INT_MIN, INT_MAX.
  pose proof (Z.mod_pos_bound (z + 2147483648) 4294967296 eq_refl). lia.
Qed.

(** What the crash check makes of a file whose last text is a record: the
    verdict is "crash" exactly when the count of the record is positive. *)
Lemma record_verdict (c ts label phase src : string) (n : Z) :
  INT_MIN <= n <= INT_MAX ->
  line_says_crash (last_line (c ++ format_record ts label phase src n))
  = (0 <? n).
Proof.
  intros Hn. destruct (to_string_chars n) as (Hnl & Hbar).
  assert (Ht : no_nl ("|" ++ to_string n) = true) by (cbn [String.append no_nl]; exact Hnl).
  destruct (last_line_tail
              (c ++ "[" ++ ts ++ "] " ++ label ++ ":" ++ phase ++ " " ++ src ++ " ")
              ("|" ++ to_string n) Ht) as (x & Hx).
  assert (E : c ++ format_record ts label phase src n
              = (c ++ "[" ++ ts ++ "] " ++ label ++ ":" ++ phase ++ " " ++ src ++ " ")
                  ++ ("|" ++ to_string n) ++ nl).
  { unfold format_record. rewrite !append_assoc. reflexivity. }
  rewrite E, Hx, (line_says_crash_field x (to_string n) Hbar).
  rewrite <- (append_nil_r (to_string n)) at 1.
  now rewrite (stoi_to_string_then n "" Hn eq_refl).
Qed.

End RecordTail.

(* ===================================================================== *)
(** * Further properties: one run after the other                         *)
(* ===================================================================== *)

Section Restart.

(** After a first open that left the stream good, the diagnostics file
    ends with what has been written. *)
Lemma first_open_good_file (d : filesystem) (w0 : World) :
  Scope.ensureFileOpen (boot d) = (Val tt, w0) ->
  good (fout_ (scope w0)) = true ->
  exists c0,
    entries (fs w0) !! Scope.fileName = Some (File (c0 ++ join (written w0)) true).
Proof.
  intros E Hg. pose proof (fresh_boot d) as Hf.
  destruct (searchable d) eqn:Hs;
    [| rewrite (first_open_unsearchable (boot d) Hf Hs) in E; discriminate E].
  destruct (entries d !! Scope.fileName) as [f|] eqn:He.
  - destruct (Z.lt_ge_cases (2 * 1024 * 1024) (file_size f)) as [Hbig | Hsmall].
    + destruct (dir_writable d) eqn:Hd.
      * rewrite (first_open_rotated (boot d) f Hf He Hbig Hd) in E.
        injection E as <-. exists "". cbn [fs entries written boot join].
        apply lookup_insert_eq.
      * rewrite (first_open_refused (boot d) f Hf He Hbig Hd) in E. discriminate E.
    + destruct (writable f) eqn:Hw.
      * rewrite (first_open_kept (boot d) f Hf He Hsmall Hw) in E.
        injection E as <-. exists (content f).
        cbn [fs entries written boot app].
        destruct (line_says_crash (last_line (content f))).
        -- cbn [entries join]. rewrite lookup_alter_eq, He. cbn.
           unfold append_to. now rewrite Hw, append_nil_r.
        -- cbn [join]. rewrite append_nil_r, He. destruct f as [c wr].
           cbn in Hw. now subst wr.
      * rewrite (first_open_readonly (boot d) f Hf He Hsmall Hw) in E.
        injection E as <-. discriminate Hg.
  - destruct (dir_writable d) eqn:Hd.
    + rewrite (first_open_created (boot d) Hf He Hd) in E.
      injection E as <-. exists "". cbn [fs entries written boot join].
      apply lookup_insert_eq.
    + rewrite (first_open_denied (boot d) Hf Hs He Hd) in E.
      injection E as <-. discriminate Hg.
Qed.

(** The same after a whole run. *)
Lemma run_good_file (d : filesystem) (e : event) (tr : list event)
      (stk : list ScopeLogger) (w1 : World) :
  is_enter e = true ->
  run (e :: tr) [] (boot d) = (Val stk, w1) ->
  good (fout_ (scope w1)) = true ->
  exists c0,
    entries (fs w1) !! Scope.fileName = Some (File (c0 ++ join (written w1)) true).
Proof.
  intros Hen E Hg.
  destruct (run_fresh (e :: tr) (boot d) (fresh_boot d))
    as [(_ & Hr & _) | [(cs & _ & E') | (w0 & w1' & E0 & _ & _ & E' & R)]].
  - destruct e; try discriminate Hen; discriminate Hr.
  - rewrite E' in E. discriminate E.
  - rewrite E' in E. injection E as _ <-.
    destruct R as (Hs & _ & Hw & Hfs & _).
    assert (Hg0 : good (fout_ (scope w0)) = true) by (rewrite Hs in Hg; exact Hg).
    destruct (first_open_good_file d w0 E0 Hg0) as (c0 & H0).
    rewrite Hg0 in Hw, Hfs. exists c0.
    rewrite Hfs, Hw, join_app, entries_append_file.
    rewrite lookup_alter_eq, H0. cbn. unfold append_to. cbn.
    now rewrite append_assoc.
Qed.

End Restart.

(** X1.  Round trip through the diagnostics file.  A process has run with a
    good stream, and the last text it wrote is a record with the count [n];
    the file it leaves is at most 2 MiB.  Then the next process opens the
    file, its crash check says "crash" exactly when [n] is positive, and it
    writes the crash marker exactly in that case, as the first thing. *)
Theorem restart_detects_positive_last_count
        (d : filesystem) (e : event) (tr : list event)
        (stk : list ScopeLogger) (w1 : World)
        (ws : list string) (ts label phase src : string) (n : Z) :
  is_enter e = true ->
  run (e :: tr) [] (boot d) = (Val stk, w1) ->
  good (fout_ (scope w1)) = true ->
  written w1 = (ws ++ [format_record ts label phase src n])%list ->
  INT_MIN <= n <= INT_MAX ->
  (forall f, entries (fs w1) !! Scope.fileName = Some f ->
             file_size f <= 2 * 1024 * 1024) ->
  exists w2,
    Scope.ensureFileOpen (restart w1) = (Val tt, w2) /\
    crashedLastTime_ (scope w2) = (0 <? n) /\
    written w2 = (if 0 <? n then [crash_marker] else []).
Proof.
  intros Hen E Hg Hw Hn Hsz.
  destruct (run_good_file d e tr stk w1 Hen E Hg) as (c0 & Hfile).
  pose proof (first_open_kept (restart w1) _ (fresh_boot _) Hfile
                (Hsz _ Hfile) eq_refl) as E2.
  cbn zeta in E2. cbn [content] in E2.
  assert (Hv : line_says_crash (last_line (c0 ++ join (written w1))) = (0 <? n)).
  { rewrite Hw, join_app. cbn [join]. rewrite append_nil_r, <- append_assoc.
    apply record_verdict, Hn. }
  rewrite Hv in E2. eexists. split; [exact E2 |].
  cbn [scope written opened_scope crashedLastTime_ restart boot app].
  split; reflexivity.
Qed.

(** A process that is killed right after an annotation inside its only
    scope, in an empty directory. *)
Lemma restart_detects_positive_last_count_witness :
  let tr := [Enter "10:00:00" "main" "main.cpp" 3; Annotate "10:00:01" "halfway"] in
  exists w2,
    Scope.ensureFileOpen (restart (snd (run tr [] (boot (FS ∅ true))))) = (Val tt, w2) /\
    crashedLastTime_ (scope w2) = true /\
    written w2 = [crash_marker].
Proof.
  intros tr.
  apply (restart_detects_positive_last_count
           (FS ∅ true) (Enter "10:00:00" "main" "main.cpp" 3)
           [Annotate "10:00:01" "halfway"]
           [MkScopeLogger "main" "main.cpp" 3] (snd (run tr [] (boot (FS ∅ true))))
           [format_record "10:00:00" "main" "start..." "main.cpp" 0]
           "10:00:01" "main" "halfway" "main.cpp" 1).
  - reflexivity.
  - vm_compute. reflexivity.
  - reflexivity.
  - reflexivity.
  - unfold INT_MIN, INT_MAX. lia.
  - intros f Hf. vm_compute in Hf. injection Hf as <-. vm_compute. discriminate.
Defined.

Section LastRecord.

Lemma nested_records_app (a b : list event) (stk : list ScopeLogger) (k : Z) :
  nested_records (a ++ b) stk k
  = (nested_records a stk k
     ++ nested_records b (stack_after a stk) (depth_after a k))%list.
Proof.
  revert stk k. induction a as [|e a IH]; intros stk k; [reflexivity |].
  destruct e as [ts func file line | ts func name file line | ts msg | ts];
    cbn [app nested_records stack_after stack_step depth_after];
    rewrite IH; rewrite <- ?app_assoc; reflexivity.
Qed.

Lemma well_nested_app (a b : list event) (stk : list ScopeLogger) :
  well_nested (a ++ b) (length stk) = true ->
  well_nested b (length (stack_after a stk)) = true /\
  Z.of_nat (length (stack_after a stk)) = depth_after a (Z.of_nat (length stk)).
Proof.
  revert stk. induction a as [|e a IH]; intros stk H; [split; [exact H | reflexivity] |].
  destruct e as [ts func file line | ts func name file line | ts msg | ts];
    cbn [app well_nested stack_after stack_step depth_after] in *.
  - destruct (IH (MkScopeLogger func file line :: stk) H) as (H1 & H2).
    split; [exact H1 |]. rewrite H2. cbn [length]. f_equal. lia.
  - destruct (IH (MkScopeLogger (func ++ ":" ++ name) file line :: stk) H) as (H1 & H2).
    split; [exact H1 |]. rewrite H2. cbn [length]. f_equal. lia.
  - apply andb_prop in H as (_ & H). exact (IH stk H).
  - destruct stk as [|self rest]; [discriminate H |]. cbn [length tail] in *.
    destruct (IH rest H) as (H1 & H2).
    split; [exact H1 |]. rewrite H2. f_equal. lia.
Qed.

(** The last record of a properly nested run shows the depth at its last
    event. *)
Lemma last_nested_record (tr : list event) (ev : event) :
  well_nested (tr ++ [ev]) 0 = true ->
  exists recs ts label phase src,
    nested_records (tr ++ [ev]) [] 0
    = (recs ++ [Rec ts label phase src (shown_depth ev (depth_after tr 0))])%list.
Proof.
  intros H. destruct (well_nested_app tr [ev] [] H) as (Hev & Hd).
  cbn [length] in Hd. change (Z.of_nat 0) with 0 in Hd.
  rewrite nested_records_app.
  destruct ev as [ts func file line | ts func name file line | ts msg | ts];
    cbn [well_nested nested_records shown_depth is_leave] in *.
  - exists (nested_records tr [] 0). eauto 10.
  - exists (nested_records tr [] 0). eauto 10.
  - destruct (stack_after tr []) as [|self rest]; [discriminate Hev |].
    exists (nested_records tr [] 0). cbn [app]. eauto 10.
  - destruct (stack_after tr []) as [|self rest]; [discriminate Hev |].
    exists (nested_records tr [] 0). cbn [app]. eauto 10.
Qed.

Lemma stack_below_peak (a b : list event) (stk : list ScopeLogger) :
  well_nested (a ++ b) (length stk) = true ->
  (length (stack_after a stk) <= peak (a ++ b) (length stk))%nat.
Proof.
  revert stk. induction a as [|x a IH]; intros stk Hw.
  - apply peak_ge.
  - destruct x; cbn [app well_nested stack_after stack_step peak] in *.
    + exact (IH (_ :: stk) Hw).
    + exact (IH (_ :: stk) Hw).
    + apply andb_prop in Hw as (_ & Hw). exact (IH stk Hw).
    + destruct stk as [|s0 rest]; [discriminate Hw |].
      cbn [length tail Nat.pred] in *.
      specialize (IH rest Hw). lia.
Qed.

Lemma well_nested_starts_with_enter (tr : list event) :
  well_nested tr 0 = true -> tr <> [] ->
  exists e tr', tr = e :: tr' /\ is_enter e = true.
Proof.
  destruct tr as [|e tr']; [contradiction |]. intros H _.
  exists e, tr'. split; [reflexivity |].
  destruct e; try reflexivity; discriminate H.
Qed.

(** The next start, on a diagnostics file that is kept and can be written. *)
Lemma restart_on_file (w1 : World) (c : string) :
  entries (fs w1) !! Scope.fileName = Some (File c true) ->
  file_size (File c true) <= 2 * 1024 * 1024 ->
  exists w2,
    Scope.ensureFileOpen (restart w1) = (Val tt, w2) /\
    crashedLastTime_ (scope w2) = line_says_crash (last_line c) /\
    written w2 = (if line_says_crash (last_line c) then [crash_marker] else []).
Proof.
  intros Hfile Hsz.
  pose proof (first_open_kept (restart w1) _ (fresh_boot _) Hfile Hsz eq_refl) as E2.
  cbn zeta in E2. cbn [content] in E2.
  eexists. split; [exact E2 |].
  cbn [scope written opened_scope crashedLastTime_ restart boot app].
  split; reflexivity.
Qed.

End LastRecord.

(** X2.  The same in terms of nesting.  A properly nested run (at most
    2^31 - 1 scopes open at once) with a good stream ends, cleanly or by a
    crash, after the event [ev]; the file it leaves is at most 2 MiB.  The
    next process reports a crash exactly when the depth that the record of
    [ev] shows is positive.  So a run that has closed all its scopes is
    never reported, a run that stopped after an annotation always is, and a
    run that stopped right after the Start of an outermost scope is not:
    that record shows the depth 0. *)
Theorem restart_verdict_is_last_shown_depth
        (d : filesystem) (tr : list event) (ev : event)
        (stk : list ScopeLogger) (w1 : World) :
  well_nested (tr ++ [ev]) 0 = true ->
  Z.of_nat (peak (tr ++ [ev]) 0) <= INT_MAX ->
  run (tr ++ [ev]) [] (boot d) = (Val stk, w1) ->
  good (fout_ (scope w1)) = true ->
  (forall f, entries (fs w1) !! Scope.fileName = Some f ->
             file_size f <= 2 * 1024 * 1024) ->
  let shown := shown_depth ev (depth_after tr 0) in
  0 <= shown /\
  exists w2,
    Scope.ensureFileOpen (restart w1) = (Val tt, w2) /\
    crashedLastTime_ (scope w2) = (0 <? shown) /\
    written w2 = (if 0 <? shown then [crash_marker] else []).
Proof.
  intros Hwn Hpk E Hg Hsz shown.
  destruct (well_nested_starts_with_enter (tr ++ [ev]) Hwn) as (e & tr' & Htr & Hen);
    [now destruct tr |].
  destruct (records_from_nested (tr ++ [ev]) [] Hwn Hpk) as (H1 & _ & _ & H4).
  cbn [length] in H1, H4. change (Z.of_nat 0) with 0 in H1, H4.
  destruct (last_nested_record tr ev Hwn) as (recs & ts & label & phase & src & Hlast).
  fold shown in Hlast.
  assert (Hpos : 0 <= shown).
  { rewrite Hlast in H4. apply Forall_app in H4 as (_ & H4).
    inversion H4 as [|r rs Hr _]. exact Hr. }
  split; [exact Hpos |].
  pose proof (run_boot d (tr ++ [ev])) as Hrun. rewrite E in Hrun.
  destruct Hrun as (_ & Hc & pre & _ & Hw). rewrite Hg, H1, Hlast in Hw.
  rewrite Htr in E.
  destruct (run_good_file d e tr' stk w1 Hen E Hg) as (c0 & Hfile).
  destruct (restart_on_file w1 _ Hfile (Hsz _ Hfile)) as (w2 & E2 & Hv & Hw2).
  assert (Hverdict : line_says_crash (last_line (c0 ++ join (written w1))) = (0 <? shown)).
  { rewrite Hw, map_app, app_assoc, join_app. cbn [map join print].
    rewrite append_nil_r, <- append_assoc.
    apply record_verdict. cbn [r_count].
    assert (Hmax : shown <= INT_MAX).
    { destruct (well_nested_app tr [ev] [] Hwn) as (_ & Hd).
      cbn [length] in Hd. change (Z.of_nat 0) with 0 in Hd.
      assert (Hle : depth_after tr 0 <= INT_MAX).
      { rewrite <- Hd.
        pose proof (stack_below_peak tr [ev] [] Hwn) as Hp. cbn [length] in Hp.
        lia. }
      unfold shown, shown_depth. destruct (is_leave ev); lia. }
    unfold INT_MIN, INT_MAX in *. lia. }
  exists w2. split; [exact E2 |]. rewrite Hv, Hw2, Hverdict. split; reflexivity.
Qed.

(** A process that is killed right after the Start of its outermost scope:
    the next start reports nothing. *)
Lemma restart_verdict_is_last_shown_depth_witness :
  let ev := Enter "10:00:00" "main" "main.cpp" 3 in
  shown_depth ev (depth_after [] 0) = 0 /\
  exists w2,
    Scope.ensureFileOpen (restart (snd (run [ev] [] (boot (FS ∅ true))))) = (Val tt, w2) /\
    crashedLastTime_ (scope w2) = false /\
    written w2 = [].
Proof.
  intros ev. split; [reflexivity |].
  destruct (restart_verdict_is_last_shown_depth
              (FS ∅ true) [] ev [MkScopeLogger "main" "main.cpp" 3]
              (snd (run [ev] [] (boot (FS ∅ true)))))
    as (_ & w2 & E & Hc & Hw).
  - reflexivity.
  - vm_compute. discriminate.
  - vm_compute. reflexivity.
  - reflexivity.
  - intros f Hf. vm_compute in Hf. injection Hf as <-. vm_compute. discriminate.
  - exists w2. split; [exact E |]. split; [exact Hc | exact Hw].
Defined.

Section KeptContent.

Lemma rfind_app_none (c : ascii) (a b : string) :
  rfind c a = None -> rfind c b = None -> rfind c (a ++ b) = None.
Proof.
  intros Ha Hb. induction a as [|x a IH]; cbn [String.append rfind] in *;
    [exact Hb |].
  destruct (rfind c a); [discriminate Ha |].
  rewrite (IH eq_refl). exact Ha.
Qed.

(** What the first open makes of the file that was there. *)
Lemma first_open_keeps_content (d : filesystem) (f : file) :
  entries d !! Scope.fileName = Some f ->
  let w0 := snd (Scope.ensureFileOpen (boot d)) in
  (exists tail, entries (fs w0) !! Scope.fileName
                = Some (File (content f ++ tail) (writable f))) \/
  entries (fs w0) !! backupName = Some f.
Proof.
  intros He w0. subst w0. pose proof (fresh_boot d) as Hf.
  assert (Hsame : exists tail, Some f = Some (File (content f ++ tail) (writable f))).
  { exists "". rewrite append_nil_r. now destruct f. }
  destruct (Z.lt_ge_cases (2 * 1024 * 1024) (file_size f)) as [Hbig | Hsmall].
  - destruct (dir_writable d) eqn:Hd.
    + right. rewrite (first_open_rotated (boot d) f Hf He Hbig Hd).
      cbn [snd fs entries]. unfold backupName.
      rewrite (lookup_insert_ne _ _ _ _ file_ne_backup). apply lookup_insert_eq.
    + left. rewrite (first_open_refused (boot d) f Hf He Hbig Hd).
      cbn [snd fs more_calls boot]. rewrite He. exact Hsame.
  - destruct (writable f) eqn:Hw.
    + left. rewrite (first_open_kept (boot d) f Hf He Hsmall Hw).
      cbn [snd fs boot]. destruct (line_says_crash (last_line (content f))).
      * exists crash_marker. cbn [entries]. rewrite lookup_alter_eq, He. cbn.
        unfold append_to. now rewrite Hw.
      * rewrite He. exact Hsame.
    + left. rewrite (first_open_readonly (boot d) f Hf He Hsmall Hw).
      cbn [snd fs boot]. rewrite He. exact Hsame.
Qed.

End KeptContent.

(** X3.  Nothing the previous runs wrote to the diagnostics file is lost.
    After any run of a process, whether it returns or the rotation throws,
    the content the file had at the start is still the beginning of the
    diagnostics file, or it is, whole and unchanged, the backup. *)
Theorem previous_content_is_kept
        (d : filesystem) (f : file) (tr : list event) :
  entries d !! Scope.fileName = Some f ->
  let w' := snd (run tr [] (boot d)) in
  (exists tail, entries (fs w') !! Scope.fileName
                = Some (File (content f ++ tail) (writable f))) \/
  entries (fs w') !! backupName = Some f.
Proof.
  intros He w'. subst w'.
  pose proof (first_open_keeps_content d f He) as H0. cbn zeta in H0.
  destruct (run_fresh tr (boot d) (fresh_boot d))
    as [(E & _) | [(cs & E0 & E) | (w0 & w1 & E0 & _ & _ & E & R)]];
    rewrite E; rewrite ?E0 in H0; cbn [snd] in *.
  - left. exists "". cbn [fs boot]. rewrite He, append_nil_r. now destruct f.
  - exact H0.
  - destruct R as (_ & _ & _ & Hfs & _). rewrite Hfs.
    destruct (good (fout_ (scope w0))); [| exact H0].
    destruct H0 as [(tail & H0) | H0].
    + left. exists (tail ++ join (records_from tr [] (count_ (scope (boot d))))).
      rewrite entries_append_file, lookup_alter_eq, H0. cbn.
      unfold append_to. cbn. now rewrite append_assoc.
    + right. now rewrite append_file_keeps_backup.
Qed.

(** A directory whose diagnostics file holds one earlier record. *)
Lemma previous_content_is_kept_witness :
  let w' := snd (run (scenario "10:00:00" "10:00:01" "10:00:02") []
                     (boot dir_with_crashed_log)) in
  (exists tail, entries (fs w') !! Scope.fileName
                = Some (File (content crashed_log ++ tail) (writable crashed_log))) \/
  entries (fs w') !! backupName = Some crashed_log.
Proof.
  apply (previous_content_is_kept dir_with_crashed_log crashed_log). reflexivity.
Defined.

(** X4.  A process that finds no diagnostics file, or an empty one, detects
    no crash and writes no crash marker, in any run. *)
Theorem missing_or_empty_file_is_no_crash (d : filesystem) (tr : list event) :
  match entries d !! Scope.fileName with
  | Some f => content f = ""
  | None => True
  end ->
  crashedLastTime_ (scope (snd (run tr [] (boot d)))) = false /\
  ~ In crash_marker (written (snd (run tr [] (boot d)))).
Proof.
  intros Hd.
  destruct (run_fresh tr (boot d) (fresh_boot d))
    as [(E & _) | [(cs & _ & E) | (w0 & w1 & E0 & _ & _ & E & R)]];
    rewrite E; cbn [snd].
  - split; [reflexivity | intros []].
  - split; [reflexivity | intros []].
  - assert (H0 : crashedLastTime_ (scope w0) = false /\ written w0 = []).
    { pose proof (fresh_boot d) as Hf.
      destruct (searchable d) eqn:Hsd;
        [| rewrite (first_open_unsearchable (boot d) Hf Hsd) in E0; discriminate E0].
      destruct (entries d !! Scope.fileName) as [f|] eqn:He.
      - destruct (first_open_verdict d f w0 He E0) as (Hv & Hw0).
        rewrite Hd in Hv.
        assert (Hc : crashedLastTime_ (scope w0) = false)
          by (rewrite Hv; now destruct (2 * 1024 * 1024 <? file_size f)).
        split; [exact Hc |]. destruct Hw0 as [Hw0 | (_ & Hbad)]; congruence.
      - destruct (dir_writable d) eqn:Hdw.
        + rewrite (first_open_created (boot d) Hf He Hdw) in E0.
          injection E0 as <-. split; reflexivity.
        + rewrite (first_open_denied (boot d) Hf Hsd He Hdw) in E0.
          injection E0 as <-. split; reflexivity. }
    destruct H0 as (Hc0 & Hw0). destruct R as (Hs & _ & Hw & _).
    split; [now rewrite Hs |].
    rewrite Hw, Hw0. destruct (good (fout_ (scope w0))); [| intros []].
    cbn [app]. apply records_not_marker.
Qed.

(** The first run ever, in an empty directory. *)
Lemma missing_or_empty_file_is_no_crash_witness :
  let tr := scenario "10:00:00" "10:00:01" "10:00:02" in
  crashedLastTime_ (scope (snd (run tr [] (boot (FS ∅ true))))) = false /\
  ~ In crash_marker (written (snd (run tr [] (boot (FS ∅ true))))).
Proof.
  intros tr. apply (missing_or_empty_file_is_no_crash (FS ∅ true) tr). exact I.
Defined.

(** X5.  The count field is read leniently, as [std::stoi] reads: text after
    the digits that does not go on with a digit (a carriage return, a
    blank, a word) is ignored, so a line that ends with such text after its
    count gives the same verdict as the line without it. *)
Theorem count_field_ignores_trailing_text (x rest : string) (n : Z) :
  INT_MIN <= n <= INT_MAX ->
  no_leading_digit rest = true ->
  rfind BAR rest = None ->
  line_says_crash (x ++ "|" ++ to_string n ++ rest) = (0 <? n).
Proof.
  intros Hn Hrest Hbar. destruct (to_string_chars n) as (_ & Hb).
  rewrite (line_says_crash_field x (to_string n ++ rest)
             (rfind_app_none BAR _ _ Hb Hbar)).
  now rewrite (stoi_to_string_then n rest Hn Hrest).
Qed.

(** A line with a Windows line end, read on a system that keeps the
    carriage return. *)
Lemma count_field_ignores_trailing_text_witness :
  line_says_crash ("[10:00:00] main:start... main.cpp " ++ "|" ++ to_string 2
                     ++ String (ascii_of_nat 13) "")
  = (0 <? 2).
Proof.
  apply count_field_ignores_trailing_text;
    [unfold INT_MIN, INT_MAX; lia | reflexivity | reflexivity].
Defined.

(* ===================================================================== *)
(** * Further properties: the two channels do not meet                    *)
(* ===================================================================== *)

Section Elsewhere.

Lemma same_elsewhere_refl (w : World) : same_elsewhere w w.
Proof. repeat split. Qed.

Lemma same_elsewhere_trans (w1 w2 w3 : World) :
  same_elsewhere w1 w2 -> same_elsewhere w2 w3 -> same_elsewhere w1 w3.
Proof.
  intros (H1 & H2 & H3) (G1 & G2 & G3). repeat split.
  - intros p Hp Hb. now rewrite G1, H1.
  - congruence.
  - congruence.
Qed.

Lemma ensureFileOpen_elsewhere (w : World) :
  own_stream w ->
  same_elsewhere w (snd (Scope.ensureFileOpen w)) /\
  own_stream (snd (Scope.ensureFileOpen w)).
Proof.
  destruct w as [[en dw|] [c [o f] i cl ck] lg wr cs];
    unfold own_stream, same_elsewhere, backupName; cbn;
    intros Ho;
    (assert (Ho' : o = None \/ o = Some Scope.fileName) by exact Ho); clear Ho;
    unfold_members; cbn; rewrite ?lookup_empty; cbn;
    split_tests; cbn;
    (split; [split; [intros p Hp Hb | split; reflexivity] | ]);
    try (destruct Ho' as [Ho' | Ho']; try discriminate Ho');
    try (injection Ho' as Ho'; subst);
    repeat first [ rewrite lookup_alter_ne by congruence
                 | rewrite lookup_insert_ne by congruence
                 | rewrite lookup_delete_ne by congruence ];
    auto.
Qed.

Lemma fout_write_elsewhere (text : string) (w : World) :
  own_stream w ->
  same_elsewhere w (snd (Scope.fout_write text w)) /\
  own_stream (snd (Scope.fout_write text w)).
Proof.
  destruct w as [[en dw|] [c [o f] i cl ck] lg wr cs];
    unfold own_stream, same_elsewhere; cbn; intros Ho;
    unfold_members; cbn;
    (destruct f; cbn; [repeat split; auto |]);
    (destruct o as [q|]; cbn; [| repeat split; auto]);
    (destruct Ho as [Ho | Ho]; [discriminate Ho | injection Ho as ->]).
  2: { repeat split; auto. }
  repeat split; auto.
  intros p Hp _. now rewrite lookup_alter_ne by congruence.
Qed.

Lemma log_elsewhere (self : ScopeLogger) (ts phase : string) (w w' : World)
      (r : outcome unit) :
  own_stream w ->
  Scope.log self ts phase w = (r, w') ->
  same_elsewhere w w' /\ own_stream w'.
Proof.
  intros Ho E. destruct (ensureFileOpen_elsewhere w Ho) as (H1 & Ho1).
  unfold Scope.log, bind at 1 in E.
  destruct (Scope.ensureFileOpen w) as [[[]|e] w1]; cbn [snd] in *.
  - unfold bind, Scope.get in E. cbn in E.
    destruct (good (fout_ (scope w1))).
    + destruct (fout_write_elsewhere
                  (format_record ts (func_ self) phase (file_ self) (count_ (scope w1)))
                  w1 Ho1) as (H2 & Ho2).
      rewrite E in H2, Ho2. cbn [snd] in *.
      split; [exact (same_elsewhere_trans _ _ _ H1 H2) | exact Ho2].
    + injection E as _ <-. now split.
  - injection E as _ <-. now split.
Qed.

Lemma enter_elsewhere (self : ScopeLogger) (ts : string) (w w' : World)
      (r : outcome ScopeLogger) :
  own_stream w ->
  enter self ts w = (r, w') ->
  same_elsewhere w w' /\ own_stream w'.
Proof.
  intros Ho E. destruct (ensureFileOpen_elsewhere w Ho) as (H1 & Ho1).
  unfold enter, Scope.init, bind at 1 in E.
  destruct (Scope.ensureFileOpen w) as [[[]|e] w1]; cbn [snd] in *.
  - unfold bind at 1 in E.
    destruct (Scope.log self ts "start..." w1) as [[[]|e] w2] eqn:E2;
      destruct (log_elsewhere self ts "start..." w1 w2 _ Ho1 E2) as (H2 & Ho2).
    + unfold bind, Scope.count_incr, Scope.get, Scope.set_count, ret in E.
      cbn in E. injection E as _ <-.
      split; [| exact Ho2].
      apply (same_elsewhere_trans _ _ _ H1), (same_elsewhere_trans _ _ _ H2).
      repeat split.
    + injection E as _ <-.
      split; [exact (same_elsewhere_trans _ _ _ H1 H2) | exact Ho2].
  - injection E as _ <-. now split.
Qed.

Lemma dtor_elsewhere (self : ScopeLogger) (ts : string) (w w' : World)
      (r : outcome unit) :
  own_stream w ->
  Scope.dtor self ts w = (r, w') ->
  same_elsewhere w w' /\ own_stream w'.
Proof.
  intros Ho E.
  unfold Scope.dtor, Scope.count_decr, Scope.get, Scope.set_count, bind in E.
  cbn in E.
  match type of E with
  | context [Scope.log self ts "end!" ?w0] =>
      assert (Ho0 : own_stream w0) by exact Ho;
      assert (H0 : same_elsewhere w w0) by (repeat split);
      destruct (Scope.log self ts "end!" w0) as [r1 w1] eqn:E1;
      destruct (log_elsewhere self ts "end!" w0 w1 r1 Ho0 E1) as (H1 & Ho1)
  end.
  assert (w' = w1) as -> by (destruct r1 as [[]|x]; now injection E).
  split; [exact (same_elsewhere_trans _ _ _ H0 H1) | exact Ho1].
Qed.

Lemma step_elsewhere (e : event) (stk : list ScopeLogger) (w w' : World)
      (r : outcome (list ScopeLogger)) :
  own_stream w ->
  step e stk w = (r, w') ->
  same_elsewhere w w' /\ own_stream w'.
Proof.
  intros Ho E.
  destruct e as [ts func file line | ts func name file line | ts msg | ts];
    cbn [step] in E.
  - rewrite ctor_enter in E. unfold bind in E.
    destruct (enter (MkScopeLogger func file line) ts w) as [r1 w1] eqn:E1.
    destruct (enter_elsewhere _ ts w w1 r1 Ho E1) as (H & Ho').
    assert (w' = w1) as -> by (destruct r1; now injection E). now split.
  - rewrite ctor_named_enter in E. unfold bind in E.
    destruct (enter (MkScopeLogger (func ++ ":" ++ name) file line) ts w)
      as [r1 w1] eqn:E1.
    destruct (enter_elsewhere _ ts w w1 r1 Ho E1) as (H & Ho').
    assert (w' = w1) as -> by (destruct r1; now injection E). now split.
  - destruct stk as [|self rest].
    + injection E as _ <-. split; [apply same_elsewhere_refl | exact Ho].
    + unfold Scope.here, bind in E.
      destruct (Scope.log self ts msg w) as [r1 w1] eqn:E1.
      destruct (log_elsewhere self ts msg w w1 r1 Ho E1) as (H & Ho').
      assert (w' = w1) as -> by (destruct r1 as [[]|x]; now injection E).
      now split.
  - destruct stk as [|self rest].
    + injection E as _ <-. split; [apply same_elsewhere_refl | exact Ho].
    + unfold bind in E.
      destruct (Scope.dtor self ts w) as [r1 w1] eqn:E1.
      destruct (dtor_elsewhere self ts w w1 r1 Ho E1) as (H & Ho').
      assert (w' = w1) as -> by (destruct r1 as [[]|x]; now injection E).
      now split.
Qed.

Lemma run_elsewhere (tr : list event) (stk : list ScopeLogger) (w : World) :
  own_stream w ->
  same_elsewhere w (snd (run tr stk w)) /\ own_stream (snd (run tr stk w)).
Proof.
  revert stk w. induction tr as [|e tr IH]; intros stk w Ho.
  - split; [apply same_elsewhere_refl | exact Ho].
  - cbn [run]. unfold bind.
    destruct (step e stk w) as [r1 w1] eqn:E1.
    destruct (step_elsewhere e stk w w1 r1 Ho E1) as (H1 & Ho1).
    destruct r1 as [stk1|x]; cbn [snd]; [| now split].
    destruct (IH stk1 w1 Ho1) as (H2 & Ho2).
    split; [exact (same_elsewhere_trans _ _ _ H1 H2) | exact Ho2].
Qed.

End Elsewhere.

(** X6.  [ScopeLogger] touches two files only.  From any state in which its
    stream is closed or open on the diagnostics file (in particular from
    the start of a process), a run changes no entry of the directory other
    than ["diagnostics.log"] and ["diagnostics.log.old"], it does not change
    what the directory permits, and it leaves the static members of [Log]
    alone; this holds for runs that return and for runs that throw. *)
Theorem scope_logger_touches_only_its_files
        (tr : list event) (stk : list ScopeLogger) (w : World) (p : string) :
  own_stream w ->
  p <> Scope.fileName ->
  p <> backupName ->
  entries (fs (snd (run tr stk w))) !! p = entries (fs w) !! p /\
  dir_writable (fs (snd (run tr stk w))) = dir_writable (fs w) /\
  logst (snd (run tr stk w)) = logst w.
Proof.
  intros Ho Hp Hb. destruct (run_elsewhere tr stk w Ho) as ((H1 & H2 & H3) & _).
  split; [exact (H1 p Hp Hb) | split; assumption].
Qed.

(** The general log, while scopes are logged. *)
Lemma scope_logger_touches_only_its_files_witness :
  let w := boot dir_to_rotate in
  let tr := scenario "10:00:00" "10:00:01" "10:00:02" in
  entries (fs (snd (run tr [] w))) !! Log.fileName = entries (fs w) !! Log.fileName /\
  dir_writable (fs (snd (run tr [] w))) = dir_writable (fs w) /\
  logst (snd (run tr [] w)) = logst w.
Proof.
  intros w tr.
  apply (scope_logger_touches_only_its_files tr [] w Log.fileName).
  - left. reflexivity.
  - discriminate.
  - discriminate.
Defined.


(* ===================================================================== *)
(** * Further properties: runs that do not throw                          *)
(* ===================================================================== *)

Section Quiet.

(** The first open throws only in a directory that may not be searched, or
    out of a rotation that is refused. *)
Lemma first_open_throws_refused (d : filesystem) (e : exn) (w' : World) :
  Scope.ensureFileOpen (boot d) = (Exc e, w') ->
  searchable d = false \/
  exists f, entries d !! Scope.fileName = Some f /\
            2 * 1024 * 1024 < file_size f /\ dir_writable d = false.
Proof.
  intros E. pose proof (fresh_boot d) as Hf.
  destruct (searchable d) eqn:Hs; [right | now left].
  destruct (entries d !! Scope.fileName) as [f|] eqn:He.
  - destruct (Z.lt_ge_cases (2 * 1024 * 1024) (file_size f)) as [Hbig | Hsmall].
    + destruct (dir_writable d) eqn:Hd.
      * rewrite (first_open_rotated (boot d) f Hf He Hbig Hd) in E. discriminate E.
      * exists f. repeat split; assumption.
    + destruct (writable f) eqn:Hw.
      * rewrite (first_open_kept (boot d) f Hf He Hsmall Hw) in E. discriminate E.
      * rewrite (first_open_readonly (boot d) f Hf He Hsmall Hw) in E. discriminate E.
  - destruct (dir_writable d) eqn:Hd.
    + rewrite (first_open_created (boot d) Hf He Hd) in E. discriminate E.
    + rewrite (first_open_denied (boot d) Hf Hs He Hd) in E. discriminate E.
Qed.

(** The first open of a file that cannot be opened and is not rotated, in
    a directory that may be searched. *)
Lemma first_open_cannot (d : filesystem) (w0 : World) :
  searchable d = true ->
  cannot_open d ->
  (forall f, entries d !! Scope.fileName = Some f ->
             file_size f <= 2 * 1024 * 1024) ->
  Scope.ensureFileOpen (boot d) = (Val tt, w0) ->
  fs w0 = d /\ written w0 = [] /\ good (fout_ (scope w0)) = false.
Proof.
  intros Hs Hc Hsz E. pose proof (fresh_boot d) as Hf. unfold cannot_open in Hc.
  destruct (entries d !! Scope.fileName) as [f|] eqn:He.
  - rewrite (first_open_readonly (boot d) f Hf He (Hsz f eq_refl) Hc) in E.
    injection E as <-. repeat split.
  - rewrite (first_open_denied (boot d) Hf Hs He Hc) in E.
    injection E as <-. repeat split.
Qed.

End Quiet.



(** X8.  A diagnostics file that cannot be opened is no error, as long as
    the directory may be searched.  When the file may not be written, or
    is missing in a directory that may be searched but not changed, and no
    rotation is due, every run returns, the directory is left exactly as
    it was, nothing is written, and the counter goes up and down as in any
    other run. *)
Theorem unopenable_file_is_silent (d : filesystem) (tr : list event) :
  searchable d = true ->
  cannot_open d ->
  (forall f, entries d !! Scope.fileName = Some f ->
             file_size f <= 2 * 1024 * 1024) ->
  exists w',
    run tr [] (boot d) = (Val (stack_after tr []), w') /\
    fs w' = d /\
    written w' = [] /\
    count_ (scope w') = count_after tr [] 0.
Proof.
  intros Hs Hc Hsz.
  destruct (run_fresh tr (boot d) (fresh_boot d))
    as [(E & _ & Hn) | [(cs & E0 & _) | (w0 & w1 & E0 & _ & _ & E & R)]].
  - exists (boot d). split; [exact E |]. repeat split. symmetry. exact Hn.
  - destruct (first_open_throws_refused d _ _ E0) as [Hn | (f & He & Hbig & _)];
      [congruence |].
    specialize (Hsz f He). lia.
  - destruct (first_open_cannot d w0 Hs Hc Hsz E0) as (Hfs & Hw & Hg).
    destruct R as (Hsc & _ & Hwr & Hfs1 & _).
    rewrite Hg in Hwr, Hfs1.
    exists w1. split; [exact E |]. split; [congruence |]. split; [congruence |].
    now rewrite Hsc.
Qed.

(** A directory that may be searched but not changed and holds no
    diagnostics file. *)
Lemma unopenable_file_is_silent_witness :
  let tr := scenario "10:00:00" "10:00:01" "10:00:02" in
  exists w',
    run tr [] (boot (FS ∅ false)) = (Val (stack_after tr []), w') /\
    fs w' = FS ∅ false /\
    written w' = [] /\
    count_ (scope w') = count_after tr [] 0.
Proof.
  intros tr. apply (unopenable_file_is_silent (FS ∅ false) tr).
  - reflexivity.
  - reflexivity.
  - intros f H. discriminate H.
Defined.

(* ===================================================================== *)
(** * Further properties: messages of [Log]                               *)
(* ===================================================================== *)

Section Messages.

Lemma shl_fold_started (b : bool) (toks : list token) (s : string) :
  fold_left LogMsg.shl toks (MkLog b true s)
  = MkLog b true (s ++ join (map (fun t => " " ++ render_token t) toks)).
Proof.
  revert s. induction toks as [|t toks IH]; intros s; cbn [fold_left map join].
  - now rewrite append_nil_r.
  - unfold LogMsg.shl at 2. cbn [toFile_ hasLog_ ss_]. rewrite IH.
    now rewrite <- !append_assoc.
Qed.

Lemma message_cons (t : token) (toks : list token) :
  message (t :: toks)
  = render_token t ++ join (map (fun t => " " ++ render_token t) toks).
Proof.
  unfold message. revert t. induction toks as [|t' toks IH]; intros t.
  - cbn [map String.concat join]. now rewrite append_nil_r.
  - cbn [map String.concat join] in *. rewrite IH.
    now rewrite <- !append_assoc.
Qed.

(** What a new object holds after the tokens have been streamed into it. *)
Lemma shl_fold (b : bool) (toks : list token) :
  fold_left LogMsg.shl toks (LogMsg.ctor b)
  = if says toks then MkLog b true (message toks) else LogMsg.ctor b.
Proof.
  destruct toks as [|t toks]; [reflexivity |].
  cbn [fold_left says]. unfold LogMsg.ctor, LogMsg.shl at 2.
  cbn [toFile_ hasLog_ ss_]. rewrite shl_fold_started, message_cons.
  reflexivity.
Qed.

(** A statement that does not write to the file. *)
Lemma console_only_msg (toks : list token) (ts : string) (tid : Z) (p : Process) :
  LogMsg.log_msg false toks ts tid p
  = (Val tt,
     MkProcess (world p)
               (console p ++ (if says toks then [message toks ++ nl] else []))).
Proof.
  unfold LogMsg.log_msg, LogMsg.dtor. rewrite shl_fold.
  destruct p as [w c]. destruct toks as [|t toks]; cbn [says].
  - cbn. now rewrite app_nil_r.
  - reflexivity.
Qed.

End Messages.

(** X9.  A console-only statement.  [LOG_MSGNF << t1 << ... << tn] prints
    the tokens with exactly one blank between two of them and a line end
    after the last, and nothing when no token was streamed; it never
    throws, and it touches neither the directory nor any static member. *)
Theorem console_only_statement
        (toks : list token) (ts : string) (tid : Z) (p : Process) :
  LogMsg.log_msg false toks ts tid p
  = (Val tt,
     MkProcess (world p)
               (console p ++ (if says toks then [message toks ++ nl] else []))).
Proof.
  unfold LogMsg.log_msg, LogMsg.dtor. rewrite shl_fold.
  destruct p as [w c]. destruct toks as [|t toks]; cbn [says].
  - cbn. now rewrite app_nil_r.
  - reflexivity.
Qed.

(** X10.  [commit] leaves the object as a new one, whatever it has held and
    whether it returns or throws: a second [commit], or the destructor
    after an explicit [commit], prints nothing twice, and tokens streamed
    afterwards start a message of their own. *)
Theorem commit_resets_the_object
        (b : bool) (toks : list token) (ts : string) (tid : Z) (p : Process) :
  snd (fst (LogMsg.commit ts tid (fold_left LogMsg.shl toks (LogMsg.ctor b)) p))
  = LogMsg.ctor b.
Proof.
  rewrite shl_fold. destruct toks as [|t toks]; cbn [says]; [reflexivity |].
  unfold LogMsg.commit. cbn [hasLog_ negb toFile_ ss_].
  match goal with |- context [match ?m with _ => _ end] => destruct m as [[[]|e] w'] end;
    reflexivity.
Qed.
(* ===================================================================== *)
(** * Further properties: the general log                                 *)
(* ===================================================================== *)

Section GeneralLog.

Lemma log_file_ne_backup : Log.fileName <> log_backupName.
Proof. discriminate. Qed.

(** A statement that writes to the file, on a sink that is ready. *)
Lemma say_ready (toks : list token) (ts : string) (tid : Z) (w : World)
      (c : list string) :
  log_ready w ->
  says toks = true ->
  exists w',
    LogMsg.log_msg true toks ts tid (MkProcess w c)
    = (Val tt, MkProcess w' (c ++ [message toks ++ nl])) /\
    log_ready w' /\
    content_of (fs w') Log.fileName
    = content_of (fs w) Log.fileName ++ format_line ts tid (message toks) ++ nl /\
    (forall q, q <> Log.fileName -> entries (fs w') !! q = entries (fs w) !! q) /\
    dir_writable (fs w') = dir_writable (fs w) /\
    scope w' = scope w /\ written w' = written w.
Proof.
  intros Hr Hs.
  unfold LogMsg.log_msg, LogMsg.dtor. rewrite shl_fold, Hs.
  unfold LogMsg.commit. cbn [hasLog_ negb toFile_ ss_ world console].
  remember (format_line ts tid (message toks) ++ nl) as line eqn:Hline.
  destruct w as [[en dw|] sc [[o fl] i] wr cs].
  2: { exfalso. unfold log_ready, log_usable in Hr. cbn in Hr.
       rewrite lookup_empty in Hr.
       destruct Hr as [(_ & Hu) | (_ & _ & c0 & He)]; discriminate. }
  unfold log_ready, log_usable, content_of in *. cbn in Hr.
  destruct Hr as [(Hl & Hu) | (Hi & Ho & c0 & He)].
  - injection Hl as -> -> ->.
    unfold Log.ensureFileOpen, Log.rotateIfTooLarge, Log.fout_open,
      Log.set_initialized, LogMsg.fout_good, LogMsg.fout_write, fs_exists,
      fs_file_size, ofstream_open, ofstream_write, bind, ret, has_file,
      is_open, good, note_call, with_fs, with_logst, file_size in *.
    cbn. destruct (en !! Log.fileName) as [f|] eqn:He; cbn.
    + destruct Hu as (Hw & Hsz). rewrite He. cbn.
      rewrite Z.gtb_ltb.
      destruct (Z.ltb_spec (5 * 1024 * 1024) (Z.of_nat (String.length (content f))))
        as [Hbig | _]; [lia |].
      cbn. rewrite He, Hw. cbn.
      eexists. split; [reflexivity |]. cbn.
      rewrite lookup_alter_eq, He. cbn. destruct f as [cf wf]. cbn in *. subst wf.
      repeat apply conj; try reflexivity.
      * right. repeat split; [now left | eexists; reflexivity].
      * intros q Hq. now apply lookup_alter_ne.
    + subst dw. cbn. rewrite ?He. cbn.
      eexists. split; [reflexivity |]. cbn.
      rewrite lookup_alter_eq, lookup_insert_eq. cbn.
      repeat apply conj; try reflexivity.
      * right. repeat split; [now left | eexists; reflexivity].
      * intros q Hq. rewrite lookup_alter_ne, lookup_insert_ne by congruence.
        reflexivity.
  - subst i.
    unfold Log.ensureFileOpen, Log.fout_open, LogMsg.fout_good,
      LogMsg.fout_write, ofstream_open, ofstream_write, bind, ret, is_open,
      good, note_call, with_fs, with_logst in *.
    cbn in *. destruct Ho as [Ho | Ho]; injection Ho as -> ->; cbn;
      rewrite ?He; cbn.
    + eexists. split; [reflexivity |]. cbn. rewrite lookup_alter_eq, He. cbn.
      repeat apply conj; try reflexivity.
      * right. repeat split; [now left | eexists; reflexivity].
      * intros q Hq. now apply lookup_alter_ne.
    + eexists. split; [reflexivity |]. cbn. rewrite lookup_alter_eq, He. cbn.
      repeat apply conj; try reflexivity.
      * right. repeat split; [now left | eexists; reflexivity].
      * intros q Hq. now apply lookup_alter_ne.
Qed.

(** [terminate] on a sink that is ready. *)
Lemma terminate_ready (w : World) :
  log_ready w ->
  exists w',
    LogMsg.terminate w = (Val tt, w') /\ log_ready w' /\
    fs w' = fs w /\ scope w' = scope w /\ written w' = written w.
Proof.
  intros Hr. destruct w as [d sc [[o fl] i] wr cs].
  unfold log_ready in *. cbn in Hr.
  destruct Hr as [(Hl & Hu) | (Hi & Ho & c0 & He)].
  - injection Hl as -> -> ->. eexists. split; [reflexivity |].
    repeat split. now left.
  - subst i. destruct Ho as [Ho | Ho]; injection Ho as -> ->;
      (eexists; split; [reflexivity |]; repeat split; right;
       repeat split; [now right | exists c0; exact He]).
Qed.

Lemma perform_ready (acts : list action) (p : Process) :
  log_ready (world p) ->
  exists p',
    perform acts p = (Val tt, p') /\
    log_ready (world p') /\
    console p' = (console p ++ console_of acts)%list /\
    content_of (fs (world p')) Log.fileName
    = content_of (fs (world p)) Log.fileName ++ file_text_of acts /\
    (forall q, q <> Log.fileName ->
               entries (fs (world p')) !! q = entries (fs (world p)) !! q) /\
    dir_writable (fs (world p')) = dir_writable (fs (world p)) /\
    scope (world p') = scope (world p) /\
    written (world p') = written (world p).
Proof.
  revert p. induction acts as [|[st|] acts IH]; intros [w c] Hr;
    cbn [perform console_of file_text_of world console] in *.
  - exists (MkProcess w c). cbn. rewrite app_nil_r, append_nil_r.
    repeat split; auto.
  - destruct (st_toFile st) eqn:Hf.
    + destruct (says (st_tokens st)) eqn:Hs; cbn [andb].
      * destruct (say_ready (st_tokens st) (st_ts st) (st_tid st) w c Hr Hs)
          as (w1 & E & Hr1 & Hc & Hq & Hd & Hsc & Hwr).
        rewrite E.
        destruct (IH (MkProcess w1 (c ++ [message (st_tokens st) ++ nl])) Hr1)
          as (p' & E' & Hr' & Hc' & Hf' & Hq' & Hd' & Hsc' & Hwr').
        cbn [world console] in *.
        exists p'. split; [exact E' |]. split; [exact Hr' |].
        split; [now rewrite Hc', <- app_assoc |].
        split; [now rewrite Hf', Hc, <- !append_assoc |].
        split; [intros q Hne; now rewrite Hq', Hq |].
        repeat split; congruence.
      * unfold LogMsg.log_msg, LogMsg.dtor. rewrite shl_fold, Hs. cbn.
        destruct (IH (MkProcess w c) Hr)
          as (p' & E' & Hr' & Hc' & Hf' & Hq' & Hd' & Hsc' & Hwr').
        exists p'. repeat split; assumption.
    + rewrite console_only_msg, andb_false_r. cbn [world console String.append].
      destruct (IH (MkProcess w (c ++ (if says (st_tokens st)
                                        then [message (st_tokens st) ++ nl] else [])))
                   Hr)
        as (p' & E' & Hr' & Hc' & Hf' & Hq' & Hd' & Hsc' & Hwr').
      cbn [world console] in *.
      exists p'. split; [exact E' |]. split; [exact Hr' |].
      split; [now rewrite Hc', <- app_assoc |].
      repeat split; assumption.
  - destruct (terminate_ready w Hr) as (w1 & E & Hr1 & Hfs & Hsc & Hwr).
    rewrite E.
    destruct (IH (MkProcess w1 c) Hr1)
      as (p' & E' & Hr' & Hc' & Hf' & Hq' & Hd' & Hsc' & Hwr').
    cbn [world console] in *. rewrite Hfs in *.
    exists p'. repeat split; try assumption; congruence.
Qed.

End GeneralLog.
(** X11.  What reaches the general log.  When ["output.log"] can be opened
    for appending and is at most 5 MiB at the start, every sequence of
    statements and calls of [terminate] returns; the console has the
    message of every statement, in order; the file has what it had before,
    followed by one line per [LOG_MSG] statement, in order, each with its
    timestamp, thread id and the quoted message; and no other file is
    touched, so the file is never rotated later, however much it grows, and
    a [terminate] loses nothing: the next statement opens the file again
    and appends. *)
Theorem statements_reach_the_general_log (d : filesystem) (acts : list action) :
  log_usable d ->
  exists p',
    perform acts (start_process d) = (Val tt, p') /\
    console p' = console_of acts /\
    content_of (fs (world p')) Log.fileName
    = content_of d Log.fileName ++ file_text_of acts /\
    forall q, q <> Log.fileName -> entries (fs (world p')) !! q = entries d !! q.
Proof.
  intros Hu.
  destruct (perform_ready acts (start_process d)) as (p' & E & _ & Hc & Hf & Hq & _).
  { left. split; [reflexivity | exact Hu]. }
  exists p'. repeat split; assumption.
Qed.

(** The first run in an empty directory. *)
Lemma statements_reach_the_general_log_witness :
  exists p',
    perform chatter (start_process (FS ∅ true)) = (Val tt, p') /\
    console p' = console_of chatter /\
    content_of (fs (world p')) Log.fileName
    = content_of (FS ∅ true) Log.fileName ++ file_text_of chatter /\
    forall q, q <> Log.fileName -> entries (fs (world p')) !! q = (∅ : gmap string file) !! q.
Proof.
  apply (statements_reach_the_general_log (FS ∅ true) chatter). reflexivity.
Defined.

Section StuckLog.

(** A statement that should write to the file, on a sink that is stuck. *)
Lemma say_stuck (toks : list token) (ts : string) (tid : Z) (w : World)
      (c : list string) :
  log_stuck w ->
  says toks = true ->
  exists w',
    LogMsg.log_msg true toks ts tid (MkProcess w c)
    = (Val tt, MkProcess w' (c ++ [message toks ++ nl])) /\
    log_stuck w' /\ fs w' = fs w /\ scope w' = scope w /\ written w' = written w.
Proof.
  intros (Hsr & Hu & Hl) Hs.
  unfold LogMsg.log_msg, LogMsg.dtor. rewrite shl_fold, Hs.
  unfold LogMsg.commit. cbn [hasLog_ negb toFile_ ss_ world console].
  destruct w as [[en dw|] sc lg wr cs]; [| discriminate Hsr].
  unfold log_stuck, log_unusable in *. cbn in Hu, Hl.
  unfold Log.ensureFileOpen, Log.rotateIfTooLarge, Log.fout_open,
    Log.set_initialized, LogMsg.fout_good, LogMsg.fout_write, fs_exists,
    fs_file_size, ofstream_open, ofstream_write, bind, ret, has_file,
    is_open, good, note_call, with_fs, with_logst, file_size in *.
  destruct Hl as [-> | ->]; cbn;
    destruct (en !! Log.fileName) as [f|] eqn:He; cbn; rewrite ?He; cbn.
  - destruct Hu as (Hw & Hsz). rewrite Z.gtb_ltb.
    destruct (Z.ltb_spec (5 * 1024 * 1024) (Z.of_nat (String.length (content f))))
      as [Hbig | _]; [lia |].
    cbn. rewrite He, Hw. cbn.
    eexists. split; [reflexivity |]. cbn. rewrite He.
    repeat split; auto.
  - subst dw. cbn.
    eexists. split; [reflexivity |]. cbn. rewrite He.
    repeat split; auto.
  - destruct Hu as (Hw & Hsz). rewrite Hw. cbn.
    eexists. split; [reflexivity |]. cbn. rewrite He.
    repeat split; auto.
  - subst dw. cbn.
    eexists. split; [reflexivity |]. cbn. rewrite He.
    repeat split; auto.
Qed.

Lemma terminate_stuck (w : World) :
  log_stuck w -> LogMsg.terminate w = (Val tt, w).
Proof.
  intros (_ & _ & Hl). unfold LogMsg.terminate.
  destruct Hl as [-> | ->]; reflexivity.
Qed.

Lemma perform_stuck (acts : list action) (p : Process) :
  log_stuck (world p) ->
  exists p',
    perform acts p = (Val tt, p') /\
    console p' = (console p ++ console_of acts)%list /\
    fs (world p') = fs (world p) /\
    scope (world p') = scope (world p) /\
    written (world p') = written (world p).
Proof.
  revert p. induction acts as [|[st|] acts IH]; intros [w c] Hr;
    cbn [perform console_of world console] in *.
  - exists (MkProcess w c). cbn. rewrite app_nil_r. repeat split.
  - destruct (st_toFile st) eqn:Hf.
    + destruct (says (st_tokens st)) eqn:Hs.
      * destruct (say_stuck (st_tokens st) (st_ts st) (st_tid st) w c Hr Hs)
          as (w1 & E & Hr1 & Hfs & Hsc & Hwr).
        rewrite E.
        destruct (IH (MkProcess w1 (c ++ [message (st_tokens st) ++ nl])) Hr1)
          as (p' & E' & Hc' & Hf' & Hsc' & Hwr').
        cbn [world console] in *.
        exists p'. split; [exact E' |].
        split; [now rewrite Hc', <- app_assoc |].
        repeat split; congruence.
      * unfold LogMsg.log_msg, LogMsg.dtor. rewrite shl_fold, Hs. cbn.
        destruct (IH (MkProcess w c) Hr) as (p' & E' & Hc' & Hrest).
        exists p'. split; [exact E' |]. split; [exact Hc' | exact Hrest].
    + rewrite console_only_msg. cbn [world console].
      destruct (IH (MkProcess w (c ++ (if says (st_tokens st)
                                        then [message (st_tokens st) ++ nl] else [])))
                   Hr)
        as (p' & E' & Hc' & Hrest).
      cbn [world console] in *.
      exists p'. split; [exact E' |].
      split; [now rewrite Hc', <- app_assoc | exact Hrest].
  - rewrite (terminate_stuck w Hr). apply (IH (MkProcess w c) Hr).
Qed.

End StuckLog.

(** X12.  A general log that cannot be opened is no error, as long as the
    directory may be searched.  When ["output.log"] may not be written, or
    is missing in a directory that may be searched but not changed, and no
    rotation is due, every sequence of statements and calls of [terminate]
    returns, every message is still printed on the console, and the
    directory is left exactly as it was: the lines meant for the file are
    dropped without a notice. *)
Theorem unopenable_general_log_still_prints (d : filesystem) (acts : list action) :
  searchable d = true ->
  log_unusable d ->
  exists p',
    perform acts (start_process d) = (Val tt, p') /\
    console p' = console_of acts /\
    fs (world p') = d.
Proof.
  intros Hs Hu.
  destruct (perform_stuck acts (start_process d)) as (p' & E & Hc & Hf & _).
  { split; [exact Hs |]. split; [exact Hu | now left]. }
  exists p'. repeat split; assumption.
Qed.

(** A directory that may be searched but not changed and holds no general
    log. *)
Lemma unopenable_general_log_still_prints_witness :
  exists p',
    perform chatter (start_process (FS ∅ false)) = (Val tt, p') /\
    console p' = console_of chatter /\
    fs (world p') = FS ∅ false.
Proof.
  apply (unopenable_general_log_still_prints (FS ∅ false) chatter); reflexivity.
Defined.
Section LargeOutput.

Lemma large_output_size : 5 * 1024 * 1024 < file_size (File large_output true).
Proof.
  unfold file_size, large_output. cbn [content].
  rewrite length_filler, Z2Nat.id by lia. lia.
Qed.

(** The first statement that writes to the file, when the file is due for
    rotation and the directory may be changed. *)
Lemma say_rotates (toks : list token) (ts : string) (tid : Z) (d : filesystem)
      (f : file) (c : list string) :
  entries d !! Log.fileName = Some f ->
  5 * 1024 * 1024 < file_size f ->
  dir_writable d = true ->
  says toks = true ->
  exists w',
    LogMsg.log_msg true toks ts tid (MkProcess (boot d) c)
    = (Val tt, MkProcess w' (c ++ [message toks ++ nl])) /\
    log_ready w' /\
    entries (fs w') !! log_backupName = Some f /\
    content_of (fs w') Log.fileName = format_line ts tid (message toks) ++ nl.
Proof.
  intros He Hsz Hd Hs.
  unfold LogMsg.log_msg, LogMsg.dtor. rewrite shl_fold, Hs.
  unfold LogMsg.commit. cbn [hasLog_ negb toFile_ ss_ world console].
  remember (format_line ts tid (message toks) ++ nl) as line eqn:Hline.
  destruct d as [en dw|].
  2: not_unsearchable.
  cbn in He, Hd. subst dw.
  apply Z.ltb_lt in Hsz. unfold file_size in Hsz.
  unfold log_ready, content_of, log_backupName.
  remember (Log.fileName ++ ".old") as bk eqn:Hbk.
  assert (Hne : bk <> Log.fileName) by (subst bk; discriminate).
  assert (Hne' : Log.fileName <> bk) by (intros H; exact (Hne (eq_sym H))).
  unfold Log.ensureFileOpen, Log.rotateIfTooLarge, Log.fout_open,
    Log.set_initialized, LogMsg.fout_good, LogMsg.fout_write, fs_exists,
    fs_file_size, fs_remove, fs_rename, ofstream_open, ofstream_write, bind,
    ret, has_file, is_open, good, note_call, with_fs, with_logst, boot.
  cbn. rewrite He. cbn. rewrite He. cbn. rewrite Z.gtb_ltb, Hsz. cbn.
  rewrite <- Hbk.
  destruct (en !! bk) eqn:Hb; cbn; rewrite ?Hb; cbn;
    rewrite ?(lookup_delete_ne en bk Log.fileName Hne), ?He; cbn;
    rewrite (lookup_insert_ne _ bk Log.fileName f Hne), lookup_delete_eq; cbn;
    (eexists; split; [reflexivity |]; cbn;
     rewrite lookup_alter_eq, lookup_insert_eq; cbn;
     split; [right; repeat split; [now left | eexists; reflexivity] |];
     split; [| reflexivity];
     rewrite (lookup_alter_ne _ _ _ _ Hne'), (lookup_insert_ne _ _ _ _ Hne');
     apply lookup_insert_eq).
Qed.

(** A [commit] that writes to the file, when the file is due for rotation
    and the directory may not be changed. *)
Lemma commit_refused (ts : string) (tid : Z) (msg : string) (p : Process)
      (f : file) :
  logst (world p) = MkLogStatics closed_stream false ->
  entries (fs (world p)) !! Log.fileName = Some f ->
  5 * 1024 * 1024 < file_size f ->
  dir_writable (fs (world p)) = false ->
  exists cs,
    LogMsg.commit ts tid (MkLog true true msg) p
    = (Exc filesystem_error, LogMsg.ctor true,
       MkProcess (more_calls cs (world p)) (console p)).
Proof.
  intros Hl He Hsz Hd.
  destruct p as [[[en dw|] sc lg wr cs] c].
  2: not_unsearchable.
  cbn in Hl, He, Hd. subst lg dw.
  apply Z.ltb_lt in Hsz. unfold file_size in Hsz.
  unfold LogMsg.commit. cbn [hasLog_ negb toFile_ ss_ world console].
  unfold Log.ensureFileOpen, Log.rotateIfTooLarge, Log.fout_open,
    Log.set_initialized, LogMsg.fout_good, LogMsg.fout_write, fs_exists,
    fs_file_size, fs_remove, fs_rename, ofstream_open, ofstream_write, bind,
    ret, has_file, is_open, good, note_call, with_fs, with_logst, more_calls.
  cbn. rewrite He. cbn. rewrite He. cbn. rewrite Z.gtb_ltb, Hsz. cbn.
  destruct (en !! (Log.fileName ++ ".old")) eqn:Hb; cbn; rewrite ?Hb, ?He; cbn;
    rewrite <- ?app_assoc; cbn; eexists; reflexivity.
Qed.

End LargeOutput.

(** X13.  A general log that is due for rotation in a directory that may
    not be changed.  The first [commit] that writes to the file throws
    [filesystem_error] out of the rotation.  The message is lost: it is
    neither written nor printed, since the console comes after the file,
    and the object is reset all the same.  Nothing has changed but the
    calls made, so every later attempt throws in the same way. *)
Theorem commit_throws_when_rotation_is_refused
        (toks : list token) (ts : string) (tid : Z) (p : Process) (f : file) :
  logst (world p) = MkLogStatics closed_stream false ->
  entries (fs (world p)) !! Log.fileName = Some f ->
  5 * 1024 * 1024 < file_size f ->
  dir_writable (fs (world p)) = false ->
  says toks = true ->
  exists cs,
    LogMsg.commit ts tid (fold_left LogMsg.shl toks (LogMsg.ctor true)) p
    = (Exc filesystem_error, LogMsg.ctor true,
       MkProcess (more_calls cs (world p)) (console p)).
Proof.
  intros Hl He Hsz Hd Hs. rewrite shl_fold, Hs.
  exact (commit_refused ts tid (message toks) p f Hl He Hsz Hd).
Qed.

(** The large general log, in a directory that may not be changed. *)
Lemma commit_throws_when_rotation_is_refused_witness :
  let p := start_process (dir_with_large_output false) in
  exists cs,
    LogMsg.commit "10:00:00" 42
                  (fold_left LogMsg.shl [TText "hello"] (LogMsg.ctor true)) p
    = (Exc filesystem_error, LogMsg.ctor true,
       MkProcess (more_calls cs (world p)) (console p)).
Proof.
  intros p.
  apply (commit_throws_when_rotation_is_refused
           [TText "hello"] "10:00:00" 42 p (File large_output true)).
  - reflexivity.
  - apply lookup_singleton_eq.
  - exact large_output_size.
  - reflexivity.
  - reflexivity.
Defined.

(** X14.  A general log that is due for rotation in a directory that may
    be changed.  When the first statement of a process writes to the file,
    the old file becomes ["output.log.old"], whole and unchanged, in place
    of any older backup; the new ["output.log"] holds the lines of this
    process and nothing else; the console has every message. *)
Theorem first_statement_rotates_a_large_log
        (d : filesystem) (f : file) (st : statement) (acts : list action) :
  entries d !! Log.fileName = Some f ->
  5 * 1024 * 1024 < file_size f ->
  dir_writable d = true ->
  st_toFile st = true ->
  says (st_tokens st) = true ->
  exists p',
    perform (Say st :: acts) (start_process d) = (Val tt, p') /\
    console p' = console_of (Say st :: acts) /\
    entries (fs (world p')) !! log_backupName = Some f /\
    content_of (fs (world p')) Log.fileName = file_text_of (Say st :: acts).
Proof.
  intros He Hsz Hd Hf Hs.
  destruct (say_rotates (st_tokens st) (st_ts st) (st_tid st) d f [] He Hsz Hd Hs)
    as (w1 & E & Hr & Hb & Hc).
  cbn [perform console_of file_text_of]. rewrite Hf, Hs. cbn [andb].
  unfold start_process. rewrite E.
  destruct (perform_ready acts (MkProcess w1 ([] ++ [message (st_tokens st) ++ nl])) Hr)
    as (p' & E' & _ & Hc' & Hf' & Hq' & _).
  cbn [world console] in *.
  exists p'. split; [exact E' |]. split; [exact Hc' |].
  split.
  - rewrite Hq'; [exact Hb |]. intros H. exact (log_file_ne_backup (eq_sym H)).
  - now rewrite Hf', Hc.
Qed.

(** The large general log, in a directory that may be changed. *)
Lemma first_statement_rotates_a_large_log_witness :
  let st := Stmt true "10:00:00" 42 [TText "hello"] in
  exists p',
    perform (Say st :: chatter) (start_process (dir_with_large_output true))
    = (Val tt, p') /\
    console p' = console_of (Say st :: chatter) /\
    entries (fs (world p')) !! log_backupName = Some (File large_output true) /\
    content_of (fs (world p')) Log.fileName = file_text_of (Say st :: chatter).
Proof.
  intros st.
  apply (first_statement_rotates_a_large_log
           (dir_with_large_output true) (File large_output true) st chatter).
  - apply lookup_singleton_eq.
  - exact large_output_size.
  - reflexivity.
  - reflexivity.
  - reflexivity.
Defined.
(* ===================================================================== *)
(** * Further properties: [Log] keeps to its files                        *)
(* ===================================================================== *)

Section LogElsewhere.

Lemma log_same_elsewhere_refl (w : World) : log_same_elsewhere w w.
Proof. repeat split. Qed.

Lemma log_same_elsewhere_trans (w1 w2 w3 : World) :
  log_same_elsewhere w1 w2 -> log_same_elsewhere w2 w3 -> log_same_elsewhere w1 w3.
Proof.
  intros (A1 & B1 & C1 & D1) (A2 & B2 & C2 & D2). repeat split; try congruence.
  intros p Hp Hb. now rewrite A2, A1.
Qed.

Lemma log_ensureFileOpen_elsewhere (w w' : World) (r : outcome unit) :
  own_log_stream w ->
  Log.ensureFileOpen w = (r, w') ->
  log_same_elsewhere w w' /\ own_log_stream w'.
Proof.
  intros Ho E.
  destruct w as [[en dw|] sc [[o fl] i] wr cs];
    unfold own_log_stream, log_same_elsewhere in *; cbn in Ho;
    unfold Log.ensureFileOpen, Log.rotateIfTooLarge, Log.fout_open,
      Log.set_initialized, fs_exists, fs_file_size, fs_remove, fs_rename,
      ofstream_open, bind, ret, has_file, is_open, note_call, with_fs,
      with_logst, log_backupName in *;
    remember (Log.fileName ++ ".old") as bk eqn:Hbk;
    cbn in E; rewrite ?lookup_empty in E; cbn in E;
  repeat match type of E with
         | context [match ?x with _ => _ end] =>
             match x with
             | context [match _ with _ => _ end] => fail 1
             | _ => destruct x eqn:?; cbn in E
             end
         end;
    injection E as <- <-; cbn;
    (split; [repeat split; intros p Hp Hb;
             repeat first [ rewrite lookup_insert_ne by congruence
                          | rewrite lookup_delete_ne by congruence ];
             reflexivity
            | first [ exact Ho | now left | now right ] ]).
Qed.

Lemma log_fout_write_elsewhere (text : string) (w : World) :
  own_log_stream w ->
  log_same_elsewhere w (snd (LogMsg.fout_write text w)) /\
  own_log_stream (snd (LogMsg.fout_write text w)).
Proof.
  intros Ho. destruct w as [[en dw|] sc [[o fl] i] wr cs];
    unfold own_log_stream, log_same_elsewhere, LogMsg.fout_write, ofstream_write,
      with_fs, with_logst in *;
    cbn in *; (destruct fl; cbn; [split; [repeat split | exact Ho] |]);
    (destruct o as [p|]; cbn in *; [| split; [repeat split | now left]]);
    (destruct Ho as [Ho | Ho]; [discriminate |]); injection Ho as ->;
    (split; [| now right]); repeat split.
  intros p Hp Hb. now apply lookup_alter_ne.
Qed.

Lemma commit_elsewhere (ts : string) (tid : Z) (o o' : LogObj) (p p' : Process)
      (r : outcome unit) :
  own_log_stream (world p) ->
  LogMsg.commit ts tid o p = (r, o', p') ->
  log_same_elsewhere (world p) (world p') /\ own_log_stream (world p').
Proof.
  intros Ho E. destruct p as [w c]. cbn [world] in *. unfold LogMsg.commit in E.
  destruct (hasLog_ o); cbn [negb] in E;
    [| injection E as _ _ <-; split; [apply log_same_elsewhere_refl | exact Ho]].
  cbn [world console] in E.
  destruct (toFile_ o).
  - unfold bind at 1 in E.
    destruct (Log.ensureFileOpen w) as [r1 w1] eqn:E1.
    destruct (log_ensureFileOpen_elsewhere w w1 r1 Ho E1) as (H1 & Ho1).
    destruct r1 as [[]|e]; [| injection E as _ _ <-; now split].
    unfold bind, LogMsg.fout_good in E. cbn beta iota in E.
    destruct (good (log_fout_ (logst w1))).
    + destruct (log_fout_write_elsewhere
                  (format_line ts tid (ss_ o) ++ nl) w1 Ho1) as (H2 & Ho2).
      destruct (LogMsg.fout_write (format_line ts tid (ss_ o) ++ nl) w1)
        as [[[]|e] w2]; cbn [snd] in *; cbn beta iota in E; injection E as _ _ <-;
        (split; [exact (log_same_elsewhere_trans _ _ _ H1 H2) | exact Ho2]).
    + unfold ret in E. cbn beta iota in E. injection E as _ _ <-. now split.
  - unfold ret in E. cbn beta iota in E. injection E as _ _ <-.
    split; [apply log_same_elsewhere_refl | exact Ho].
Qed.

Lemma terminate_elsewhere (w : World) :
  own_log_stream w ->
  log_same_elsewhere w (snd (LogMsg.terminate w)) /\
  own_log_stream (snd (LogMsg.terminate w)).
Proof.
  intros Ho. unfold LogMsg.terminate.
  destruct (is_open (log_fout_ (logst w))); cbn.
  - split; [repeat split | now left].
  - split; [apply log_same_elsewhere_refl | exact Ho].
Qed.

Lemma perform_elsewhere (acts : list action) (p : Process) :
  own_log_stream (world p) ->
  log_same_elsewhere (world p) (world (snd (perform acts p))) /\
  own_log_stream (world (snd (perform acts p))).
Proof.
  revert p. induction acts as [|[st|] acts IH]; intros p Ho; cbn [perform].
  - split; [apply log_same_elsewhere_refl | exact Ho].
  - unfold LogMsg.log_msg, LogMsg.dtor.
    destruct (LogMsg.commit (st_ts st) (st_tid st)
                (fold_left LogMsg.shl (st_tokens st) (LogMsg.ctor (st_toFile st))) p)
      as [[r o'] p1] eqn:E1.
    destruct (commit_elsewhere _ _ _ _ _ _ _ Ho E1) as (H1 & Ho1).
    destruct r as [[]|e]; cbn [snd]; [| now split].
    destruct (IH p1 Ho1) as (H2 & Ho2).
    split; [exact (log_same_elsewhere_trans _ _ _ H1 H2) | exact Ho2].
  - pose proof (terminate_elsewhere (world p) Ho) as (H1 & Ho1).
    destruct (LogMsg.terminate (world p)) as [r w1]. cbn [snd] in *.
    destruct r as [[]|e]; cbn [snd world]; [| now split].
    destruct (IH (MkProcess w1 (console p)) Ho1) as (H2 & Ho2).
    cbn [world] in *.
    split; [exact (log_same_elsewhere_trans _ _ _ H1 H2) | exact Ho2].
Qed.

End LogElsewhere.

(** X15.  [Log] touches two files only.  From any state in which its stream
    is closed or open on the general log (in particular from the start of
    a process), a sequence of statements and calls of [terminate] changes
    no entry of the directory other than ["output.log"] and
    ["output.log.old"], it does not change what the directory permits, and
    it leaves the static members of [ScopeLogger] alone, the counter and
    the crash verdict among them; this holds for sequences that return and
    for the one that throws. *)
Theorem log_touches_only_its_files
        (acts : list action) (p : Process) (q : string) :
  own_log_stream (world p) ->
  q <> Log.fileName ->
  q <> log_backupName ->
  entries (fs (world (snd (perform acts p)))) !! q = entries (fs (world p)) !! q /\
  dir_writable (fs (world (snd (perform acts p)))) = dir_writable (fs (world p)) /\
  scope (world (snd (perform acts p))) = scope (world p).
Proof.
  intros Ho Hq Hb.
  destruct (perform_elsewhere acts p Ho) as ((H1 & H2 & H3 & _) & _).
  split; [exact (H1 q Hq Hb) | split; assumption].
Qed.

(** The diagnostics file, while messages are logged. *)
Lemma log_touches_only_its_files_witness :
  let p := start_process dir_to_rotate in
  entries (fs (world (snd (perform chatter p)))) !! Scope.fileName
  = entries (fs (world p)) !! Scope.fileName /\
  dir_writable (fs (world (snd (perform chatter p)))) = dir_writable (fs (world p)) /\
  scope (world (snd (perform chatter p))) = scope (world p).
Proof.
  intros p. apply (log_touches_only_its_files chatter p Scope.fileName).
  - left. reflexivity.
  - discriminate.
  - discriminate.
Defined.
